(** * Slack-to-Linear triage agent: the correlation and dispatch core

    A shallow embedding of the queueing, correlation and recovery code of
    the agent's entry module (the sequential message queue, the two
    ticket maps with their age-based cleanup, the set of already queued
    message timestamps, the three Slack listeners, the seven queue
    handlers and the start-up recovery scan), together with the
    [try]/[catch] of the entry points of [agent.ts] that the handlers
    call.

    Conventions.
    - A JavaScript [Map<string, V>] is a [gmap string V]; the [Set<string>]
      of processed timestamps is the list of its elements in insertion
      order (the order [Array.from] observes).
    - An optional field is an [option]; JavaScript truthiness of an
      optional string is [truthy].
    - A [string] holds a JavaScript string whose code units are all below
      256, one character for each code unit. The two texts of an edit
      event, which the edit handler normalises with the white-space class
      of the language, are held as lists of UTF-16 code units ([Text.t]),
      so that every JavaScript string is one of them.
    - [Date.now()] reads the wall clock of the state (milliseconds, in
      [Z]), which the event [EvClock] sets; one synchronous stretch of
      code sees one reading.
    - An [await] is a suspension point: a handler is a [Proc], a tree of
      external calls with their continuations, and the system advances by
      the events of [Event].
    - Console output other than the drain loop's error line, and the
      reaction that [processNewMessage] adds to a message without
      awaiting it, are outside the model. *)

From Stdlib Require Import ZArith NArith QArith String Ascii List Bool Lia.
From stdpp Require Import base decidable option list gmap strings fin_maps sorting.
Import ListNotations.

Local Open Scope string_scope.
Local Open Scope list_scope.
Local Open Scope nat_scope.

(** ** JavaScript values *)

Module JS.

(** Truthiness of an optional string: [undefined] and [""] are falsy. *)
Definition truthy (v : option string) : bool :=
  match v with
  | Some s => negb (String.eqb s "")
  | None => false
  end.

(** [a || b] on optional strings. *)
Definition or (a b : option string) : option string :=
  if truthy a then a else b.

(** [a || "literal"] where the right operand is a string. *)
Definition or_default (a : option string) (d : string) : string :=
  match a with
  | Some s => if String.eqb s "" then d else s
  | None => d
  end.

(** [xs && xs.length > 0] on an optional array. *)
Definition nonempty {A} (xs : option (list A)) : bool :=
  match xs with
  | Some (_ :: _) => true
  | _ => false
  end.

(** [a === b] on optional strings. *)
Definition strict_eq (a b : option string) : bool := bool_decide (a = b).

(** [haystack.includes(needle)]. *)
Fixpoint includes (needle haystack : string) : bool :=
  if String.prefix needle haystack then true
  else match haystack with
       | EmptyString => false
       | String _ rest => includes needle rest
       end.

(** The characters matched by [\s] and stripped by [trim()], among the
    code points below 256. *)
Definition is_space (c : ascii) : bool :=
  let n := nat_of_ascii c in
  (Nat.eqb n 9 || Nat.eqb n 10 || Nat.eqb n 11 || Nat.eqb n 12
   || Nat.eqb n 13 || Nat.eqb n 32 || Nat.eqb n 160)%bool.

Fixpoint trimStart (s : string) : string :=
  match s with
  | String c rest => if is_space c then trimStart rest else s
  | EmptyString => EmptyString
  end.

(** [s.replace(".", "")]: the first dot is removed. *)
Fixpoint remove_first_dot (s : string) : string :=
  match s with
  | EmptyString => EmptyString
  | String c rest =>
      if Ascii.eqb c "."%char then rest else String c (remove_first_dot rest)
  end.

End JS.

(** ** Texts as sequences of code units *)

Module Text.

(** A JavaScript string as the list of its UTF-16 code units. *)
Definition t : Type := list N.

(** The text of a [string]. *)
Definition of_string (s : string) : t := map N_of_ascii (list_ascii_of_string s).

(** The code units of WhiteSpace and of LineTerminator, which are what
    [\s] matches and what [trim()] strips: the tabulations, the line and
    page breaks, the blank, U+00A0, U+1680, U+2000 to U+200A, U+2028,
    U+2029, U+202F, U+205F, U+3000 and U+FEFF. *)
Definition isWhiteSpace (c : N) : bool :=
  (N.eqb c 9 || N.eqb c 10 || N.eqb c 11 || N.eqb c 12 || N.eqb c 13
   || N.eqb c 32 || N.eqb c 0xA0 || N.eqb c 0x1680
   || (N.leb 0x2000 c && N.leb c 0x200A) || N.eqb c 0x2028 || N.eqb c 0x2029
   || N.eqb c 0x202F || N.eqb c 0x205F || N.eqb c 0x3000 || N.eqb c 0xFEFF)%bool.

Fixpoint trimStart (s : t) : t :=
  match s with
  | c :: rest => if isWhiteSpace c then trimStart rest else s
  | [] => []
  end.

(** [trimEnd] keeps a code unit when it is not white space or when
    something remains after it once the tail has been trimmed. *)
Fixpoint trimEnd (s : t) : t :=
  match s with
  | [] => []
  | c :: rest =>
      match trimEnd rest with
      | [] => if isWhiteSpace c then [] else [c]
      | kept => c :: kept
      end
  end.

(** [s.trim()]. *)
Definition trim (s : t) : t := trimEnd (trimStart s).

(** [s.replace(/\s+/g, " ")]: every maximal run of white space becomes
    one blank. [in_run] tells whether the code unit before was white
    space. *)
Fixpoint collapse (in_run : bool) (s : t) : t :=
  match s with
  | [] => []
  | c :: rest =>
      if isWhiteSpace c
      then if in_run then collapse true rest else 32%N :: collapse true rest
      else c :: collapse false rest
  end.

Definition replace_spaces (s : t) : t := collapse false s.

(** [a || ""] and the like, where the right operand is a string. *)
Definition or_default (a : option t) (d : t) : t :=
  match a with
  | Some (c :: rest) => c :: rest
  | _ => d
  end.

End Text.

(** ** The correlation tables and the set of queued timestamps *)

Inductive TriageAction :=
  | created | duplicate | skipped | deferred | error.

#[global] Instance TriageAction_eq_dec : EqDecision TriageAction.
Proof. solve_decision. Defined.

(** Value type of [threadTicketMap]. *)
Record ThreadTicket := {
  t_ticketId : string;
  t_ticketIdentifier : string;
  t_createdAt : Z;
  t_isDuplicate : bool;
  t_isDeferred : bool;
  t_originalContext : option string;
  t_originalReporterId : option string;
}.

(** Value type of [messageTicketMap]. *)
Record MessageTicket := {
  m_ticketId : string;
  m_ticketIdentifier : string;
  m_ticketUrl : option string;
  m_createdAt : Z;
  m_wasTriaged : bool;
  m_action : TriageAction;
}.

(** The module-level mutable state other than the queue. *)
Record Store := {
  threadTicketMap : gmap string ThreadTicket;
  messageTicketMap : gmap string MessageTicket;
  processedMessages : list string;
}.

Definition emptyStore : Store :=
  {| threadTicketMap := ∅; messageTicketMap := ∅; processedMessages := [] |}.

Definition setThreads (f : gmap string ThreadTicket → gmap string ThreadTicket)
    (st : Store) : Store :=
  {| threadTicketMap := f (threadTicketMap st);
     messageTicketMap := messageTicketMap st;
     processedMessages := processedMessages st |}.

Definition setMessages (f : gmap string MessageTicket → gmap string MessageTicket)
    (st : Store) : Store :=
  {| threadTicketMap := threadTicketMap st;
     messageTicketMap := f (messageTicketMap st);
     processedMessages := processedMessages st |}.

Definition setProcessed (f : list string → list string) (st : Store) : Store :=
  {| threadTicketMap := threadTicketMap st;
     messageTicketMap := messageTicketMap st;
     processedMessages := f (processedMessages st) |}.

(** [24 * 60 * 60 * 1000] milliseconds. *)
Definition maxAge : Z := 24 * 60 * 60 * 1000.

(** [cleanupOldThreadMappings]: every entry with [now - createdAt > maxAge]
    is deleted. *)
Definition cleanupOldThreadMappings (now : Z)
    (m : gmap string ThreadTicket) : gmap string ThreadTicket :=
  filter (λ kv : string * ThreadTicket, ¬ (now - t_createdAt kv.2 > maxAge)%Z) m.

(** [cleanupOldMessageMappings]. *)
Definition cleanupOldMessageMappings (now : Z)
    (m : gmap string MessageTicket) : gmap string MessageTicket :=
  filter (λ kv : string * MessageTicket, ¬ (now - m_createdAt kv.2 > maxAge)%Z) m.

(** The [Set<string>] operations used on [processedMessages]. *)
Module StringSet.

Definition has (s : list string) (x : string) : bool := bool_decide (x ∈ s).

Definition add (s : list string) (x : string) : list string :=
  if has s x then s else s ++ [x].

Definition delete (s : list string) (x : string) : list string :=
  filter (λ y, y ≠ x) s.

Definition size (s : list string) : nat := length s.

End StringSet.

(** The trimming that follows [processedMessages.add(msg.ts)] in the
    message listener: once the size exceeds 1000, the first 500 entries of
    [Array.from(processedMessages)] are deleted one by one. *)
Definition trimProcessed (s : list string) : list string :=
  if Nat.ltb 1000 (StringSet.size s)
  then foldl StringSet.delete s (take 500 s)
  else s.

(** The listener's handling of the timestamp of a top-level message:
    [None] when the timestamp is already in the set (the event is
    dropped), otherwise the set after the insertion and the trimming. *)
Definition rememberMessage (s : list string) (ts : string) : option (list string) :=
  if StringSet.has s ts then None
  else Some (trimProcessed (StringSet.add s ts)).

(** Inserting a sequence of timestamps through the listener's path; a
    timestamp that is already present leaves the set as it is. *)
Definition rememberAll (s : list string) (tss : list string) : list string :=
  foldl (λ acc ts, default acc (rememberMessage acc ts)) s tss.

(** ** Slack events *)

Record SlackFile := {
  f_id : string;
  f_name : string;
  f_mimetype : string;
  f_url_private : string;
  f_permalink : string;
}.

Record SlackAttachment := {
  a_text : option string;
  a_author_name : option string;
  a_author_id : option string;
  a_from_url : option string;
}.

(** The [message] field of a [message_changed] event. *)
Record ChangedMessage := {
  c_ts : option string;
  c_text : option Text.t;
  c_user : option string;
  c_bot_id : option string;
}.

(** The [previous_message] field of an edit or delete event. *)
Record PreviousMessage := {
  p_ts : option string;
  p_text : option Text.t;
  p_thread_ts : option string;
}.

(** A message as Slack delivers it, to a listener or in a page of channel
    history. Every listener casts the same event object to the fields it
    reads. *)
Record SlackMessage := {
  text : option string;
  user : option string;
  ts : option string;
  channel : option string;
  thread_ts : option string;
  bot_id : option string;
  subtype : option string;
  files : option (list SlackFile);
  attachments : option (list SlackAttachment);
  reactions : option (list string);
  message : option ChangedMessage;
  previous_message : option PreviousMessage;
  deleted_ts : option string;
}.

(** One message of a [conversations.replies] response. *)
Record ThreadMessage := {
  tm_text : option string;
  tm_user : option string;
  tm_bot_id : option string;
}.

(** [hasRobotReaction]: some reaction is named [robot_face]. *)
Definition hasRobotReaction (msg : SlackMessage) : bool :=
  existsb (λ name, String.eqb name "robot_face") (default [] (reactions msg)).

(** [isProcessableMessage]. *)
Definition isProcessableMessage (msg : SlackMessage) : bool :=
  if (JS.truthy (bot_id msg) || JS.strict_eq (subtype msg) (Some "bot_message"))%bool
  then false
  else if (JS.truthy (thread_ts msg) && negb (JS.strict_eq (thread_ts msg) (ts msg)))%bool
  then false
  else
    let hasContent :=
      (JS.truthy (text msg) || JS.nonempty (files msg) || JS.nonempty (attachments msg))%bool in
    if negb hasContent then false
    else
      let skipSubtypes := ["channel_join"; "channel_leave"; "channel_topic"; "channel_purpose"] in
      if (JS.truthy (subtype msg)
          && bool_decide (default "" (subtype msg) ∈ skipSubtypes))%bool
      then false
      else if (JS.truthy (subtype msg)
               && negb (JS.strict_eq (subtype msg) (Some "file_share")))%bool
      then false
      else true.

(** ** Work items *)

(** The [data] records pushed with each [type] of [QueuedMessage]. *)
Record NewData := {
  n_text : option string;
  n_user : option string;
  n_ts : option string;
  n_channel : string;
  n_files : option (list SlackFile);
  n_attachments : option (list SlackAttachment);
}.

Record ThreadReplyData := {
  tr_replyText : option string;
  tr_userId : string;
  tr_channel : string;
  tr_threadTs : string;
  tr_messageTs : string;
  tr_ticketId : string;
  tr_ticketIdentifier : string;
  tr_isDuplicate : bool;
  tr_isSameReporter : bool;
  tr_files : option (list SlackFile);
}.

Record OrphanThreadData := {
  o_replyText : option string;
  o_userId : string;
  o_channel : string;
  o_threadTs : string;
  o_messageTs : string;
  o_files : option (list SlackFile);
}.

Record DeferredFollowupData := {
  d_replyText : option string;
  d_userId : string;
  d_channel : string;
  d_threadTs : string;
  d_messageTs : string;
  d_files : option (list SlackFile);
  d_originalContext : option string;
}.

Record DirectCommandData := {
  dc_commandText : option string;
  dc_userId : string;
  dc_channel : string;
  dc_threadTs : string;
  dc_messageTs : string;
  dc_ticketContext : option string;
  dc_files : option (list SlackFile);
}.

Record EditedData := {
  e_messageTs : string;
  e_newText : Text.t;
  e_previousText : Text.t;
  e_userId : string;
  e_channel : string;
}.

Record DeletedData := {
  x_messageTs : string;
  x_channel : string;
  x_threadTs : option string;
}.

(** [QueuedMessage]: the [type] tag together with the [data] record that
    the listeners push with it. *)
Inductive QueuedMessage :=
  | QNew (data : NewData)
  | QThreadReply (data : ThreadReplyData)
  | QOrphanThread (data : OrphanThreadData)
  | QDeferredFollowup (data : DeferredFollowupData)
  | QDirectCommand (data : DirectCommandData)
  | QMessageEdited (data : EditedData)
  | QMessageDeleted (data : DeletedData).

(** The [type] field, as the string the drain loop compares and logs. *)
Definition type (item : QueuedMessage) : string :=
  match item with
  | QNew _ => "new"
  | QThreadReply _ => "thread_reply"
  | QOrphanThread _ => "orphan_thread"
  | QDeferredFollowup _ => "deferred_followup"
  | QDirectCommand _ => "direct_command"
  | QMessageEdited _ => "message_edited"
  | QMessageDeleted _ => "message_deleted"
  end.

(** How an awaited promise settles. *)
Inductive Outcome (R : Type) :=
  | Returned (r : R)
  | Threw (err : string).
Arguments Returned {R} r.
Arguments Threw {R} err.

(** ** Texts and patterns *)

Module Pattern.

Definition dq : string := String (ascii_of_nat 34) EmptyString.

(** [s.toLowerCase()], on code points below 256. *)
Definition lowerChar (c : ascii) : ascii :=
  let n := nat_of_ascii c in
  if ((Nat.leb 65 n && Nat.leb n 90)
      || (Nat.leb 192 n && Nat.leb n 222 && negb (Nat.eqb n 215)))%bool
  then ascii_of_nat (n + 32) else c.

Fixpoint toLowerCase (s : string) : string :=
  match s with
  | EmptyString => EmptyString
  | String c rest => String (lowerChar c) (toLowerCase rest)
  end.

Definition isUpper (c : ascii) : bool :=
  (Nat.leb 65 (nat_of_ascii c) && Nat.leb (nat_of_ascii c) 90)%bool.

Definition isDigit (c : ascii) : bool :=
  (Nat.leb 48 (nat_of_ascii c) && Nat.leb (nat_of_ascii c) 57)%bool.

(** The longest prefix of characters that satisfy [p], and the rest: what
    a greedy [+] or [*] over a character class takes. *)
Fixpoint span (p : ascii → bool) (s : string) : string * string :=
  match s with
  | EmptyString => (EmptyString, EmptyString)
  | String c rest =>
      if p c then let '(taken, remaining) := span p rest in (String c taken, remaining)
      else (EmptyString, s)
  end.

(** The rest of [s] after the literal [p], when [s] starts with [p]. *)
Fixpoint after (p s : string) : option string :=
  match p, s with
  | EmptyString, _ => Some s
  | String a p', String b s' => if Ascii.eqb a b then after p' s' else None
  | String _ _, EmptyString => None
  end.

(** [s.match(re)] for a pattern without alternatives: the match at the
    first position of [s] from which the pattern matches. *)
Fixpoint firstMatch {A} (atStart : string → option A) (s : string) : option A :=
  match atStart s with
  | Some m => Some m
  | None =>
      match s with
      | EmptyString => None
      | String _ rest => firstMatch atStart rest
      end
  end.

Definition isLower (c : ascii) : bool :=
  (Nat.leb 97 (nat_of_ascii c) && Nat.leb (nat_of_ascii c) 122)%bool.

(** [after] for a pattern with the flag [i]. *)
Fixpoint afterNoCase (p s : string) : option string :=
  match p, s with
  | EmptyString, _ => Some s
  | String a p', String b s' =>
      if Ascii.eqb (lowerChar a) (lowerChar b) then afterNoCase p' s' else None
  | String _ _, EmptyString => None
  end.

(** All characters of [s] satisfy [p]. *)
Fixpoint all (p : ascii → bool) (s : string) : bool :=
  match s with
  | EmptyString => true
  | String c rest => (p c && all p rest)%bool
  end.

(** [s.slice(0, n)] and [s.slice(n)], for [n] within the length. *)
Fixpoint takeS (n : nat) (s : string) : string :=
  match n, s with
  | S n', String c rest => String c (takeS n' rest)
  | _, _ => EmptyString
  end.

Fixpoint dropS (n : nat) (s : string) : string :=
  match n, s with
  | S n', String _ rest => dropS n' rest
  | _, _ => s
  end.

End Pattern.

(** ** Forwarded messages *)

(** The class [[A-Z0-9]] under the flag [i]. *)
Definition isChannelChar (c : ascii) : bool :=
  (Pattern.isUpper c || Pattern.isLower c || Pattern.isDigit c)%bool.

(** The pattern of [parseSlackUrl], the literal [/archives/], one or more
    characters of the class, the literal [/p] and one or more digits, all
    under the flag [i], from the start of [s]: groups 1 and 2. *)
Definition archivesAt (s : string) : option (string * string) :=
  match Pattern.afterNoCase "/archives/" s with
  | Some rest =>
      let '(channel, rest1) := Pattern.span isChannelChar rest in
      if String.eqb channel "" then None
      else match Pattern.afterNoCase "/p" rest1 with
           | Some rest2 =>
               let '(digits, _) := Pattern.span Pattern.isDigit rest2 in
               if String.eqb digits "" then None else Some (channel, digits)
           | None => None
           end
  | None => None
  end.

Record ParsedUrl := {
  channelId : string;
  messageTs : string;
  threadTs : option string;
}.

(** [parseSlackUrl]. [thread_ts_of] stands for the URL parser of the
    platform: for a URL, nothing when [new URL(url)] throws, else what
    [searchParams.get] returns for [thread_ts]. *)
Definition parseSlackUrl (thread_ts_of : string → option (option string))
    (url : string) : option ParsedUrl :=
  match Pattern.firstMatch archivesAt url with
  | None => None
  | Some (channel, rawTs) =>
      let ts :=
        if Nat.ltb 6 (String.length rawTs)
        then Pattern.takeS (String.length rawTs - 6) rawTs +:+ "."
             +:+ Pattern.dropS (String.length rawTs - 6) rawTs
        else rawTs in
      match thread_ts_of url with
      | None => None
      | Some value =>
          Some {| channelId := channel; messageTs := ts;
                  threadTs := if JS.truthy value then value else None |}
      end
  end.

(** [parsed.threadTs || parsed.messageTs], the thread that
    [processNewMessage] fetches for a forwarded message. *)
Definition forwardedThread (parsed : ParsedUrl) : string :=
  JS.or_default (threadTs parsed) (messageTs parsed).

(** The result of [fetchThreadContext]. *)
Record ThreadContext := {
  tc_messages : list string;
  tc_success : bool;
  tc_error : option string;
}.

(** [fetchThreadContext], from the outcome of its call of
    [conversations.replies] on: a failure of the call is caught and
    reported in the result. *)
Definition fetchThreadContext (replies : Outcome (option (list ThreadMessage)))
    : ThreadContext :=
  match replies with
  | Returned (Some (first :: more)) =>
      {| tc_messages :=
           map (λ m, "[" +:+ (if JS.truthy (tm_bot_id m) then "Bot"
                              else JS.or_default (tm_user m) "Unknown")
                     +:+ "]: " +:+ JS.or_default (tm_text m) "(no text)")
               (first :: more);
         tc_success := true; tc_error := None |}
  | Returned _ => {| tc_messages := []; tc_success := true; tc_error := None |}
  | Threw errorMsg =>
      {| tc_messages := []; tc_success := false; tc_error := Some errorMsg |}
  end.

(** [forwardedMessage] of [processNewMessage]. *)
Record ForwardedMessage := {
  fw_text : string;
  fw_originalAuthorId : option string;
  fw_originalAuthorName : option string;
  fw_sourceUrl : option string;
  fw_threadContext : option (list string);
  fw_threadContextError : option string;
}.

(** [forwardedMessage] as [processNewMessage] first builds it from the
    first attachment, with the two fields that the thread of the source
    may fill. *)
Definition forwardedFrom (firstAttachment : SlackAttachment)
    (threadContext : option (list string)) (threadContextError : option string)
    : ForwardedMessage :=
  {| fw_text := default "" (a_text firstAttachment);
     fw_originalAuthorId := a_author_id firstAttachment;
     fw_originalAuthorName := a_author_name firstAttachment;
     fw_sourceUrl := a_from_url firstAttachment;
     fw_threadContext := threadContext;
     fw_threadContextError := threadContextError |}.

(** [forwardedMessage] after [fetchThreadContext] has returned
    [threadResult]: the messages of the thread when there are some, the
    error when the call failed. *)
Definition withThreadResult (firstAttachment : SlackAttachment)
    (threadResult : ThreadContext) : ForwardedMessage :=
  if (tc_success threadResult && Nat.ltb 0 (length (tc_messages threadResult)))%bool
  then forwardedFrom firstAttachment (Some (tc_messages threadResult)) None
  else if negb (tc_success threadResult)
  then forwardedFrom firstAttachment None (tc_error threadResult)
  else forwardedFrom firstAttachment None None.

(** The part of [processNewMessage] that fills [forwardedMessage] from
    the attachments of the message. [replies] answers the call of
    [conversations.replies] for a channel, a thread and a limit. *)
Definition forwardedMessageOf (thread_ts_of : string → option (option string))
    (replies : string → string → nat → Outcome (option (list ThreadMessage)))
    (msg_attachments : option (list SlackAttachment)) : option ForwardedMessage :=
  match msg_attachments with
  | Some (firstAttachment :: _) =>
      if JS.truthy (a_text firstAttachment) then
        if JS.truthy (a_from_url firstAttachment) then
          match parseSlackUrl thread_ts_of (default "" (a_from_url firstAttachment)) with
          | Some parsed =>
              Some (withThreadResult firstAttachment
                      (fetchThreadContext
                         (replies (channelId parsed) (forwardedThread parsed) 30)))
          | None => Some (forwardedFrom firstAttachment None None)
          end
        else Some (forwardedFrom firstAttachment None None)
      else None
  | _ => None
  end.

(** ** Images *)

(** A [Buffer], held as the Base64 text that [toString("base64")] gives
    for it. *)
Record Buffer := {
  toBase64 : string;
}.

(** [ImageUploadResult] of [agent.ts]. *)
Record ImageUploadResult := {
  iu_url : string;
  iu_buffer : Buffer;
  iu_contentType : string;
}.

(** [TriageImage] of [agent.ts]. *)
Record TriageImage := {
  img_url : string;
  img_base64 : string;
  img_contentType : string;
}.

(** [file.mimetype?.startsWith("image/")]. *)
Definition isImage (file : SlackFile) : bool := String.prefix "image/" (f_mimetype file).

(** ** The triager's entry points ([agent.ts]) *)

Record TriageInput := {
  ti_messageText : option string;
  ti_userId : option string;
  ti_channel : string;
  ti_threadTs : string;
  ti_slackMessageUrl : string;
  ti_images : list TriageImage;
  ti_forwardedMessage : option ForwardedMessage;
}.

Record TriageResult := {
  r_action : TriageAction;
  r_ticketId : option string;
  r_ticketUrl : option string;
  r_ticketIdentifier : option string;
  r_message : string;
}.

Record OrphanThreadInput := {
  oi_replyText : string;
  oi_userId : string;
  oi_channel : string;
  oi_threadTs : string;
  oi_messageTs : string;
  oi_slackMessageUrl : string;
  oi_threadContext : string;
  oi_imageUrls : list string;
}.

Inductive OrphanAction := o_created | o_updated | o_skipped | o_error.

#[global] Instance OrphanAction_eq_dec : EqDecision OrphanAction.
Proof. solve_decision. Defined.

Record OrphanThreadResult := {
  or_action : OrphanAction;
  or_ticketId : option string;
  or_ticketIdentifier : option string;
  or_message : string;
}.

Record ThreadReplyInput := {
  tri_replyText : string;
  tri_userId : string;
  tri_channel : string;
  tri_threadTs : string;
  tri_messageTs : string;
  tri_ticketId : string;
  tri_ticketIdentifier : string;
  tri_threadContext : string;
  tri_isDuplicate : bool;
  tri_isSameReporter : bool;
  tri_imageUrls : list string;
}.

Record DeferredFollowupInput := {
  di_replyText : string;
  di_userId : string;
  di_channel : string;
  di_threadTs : string;
  di_messageTs : string;
  di_threadContext : string;
  di_originalContext : option string;
  di_imageUrls : list string;
}.

Inductive DeferredAction := d_created | d_no_action | d_error.

Record DeferredFollowupResult := {
  dr_action : DeferredAction;
  dr_ticketId : option string;
  dr_ticketIdentifier : option string;
  dr_message : string;
}.

Record DirectCommandInput := {
  dci_commandText : string;
  dci_userId : string;
  dci_channel : string;
  dci_threadTs : string;
  dci_messageTs : string;
  dci_ticketContext : option string;
  dci_threadContext : string;
  dci_imageUrls : list string;
}.

Inductive DirectAction := c_executed | c_help | c_error | c_clarification.

Record DirectCommandResult := {
  dcr_action : DirectAction;
  dcr_message : string;
}.

Record EditedMessageInput := {
  ei_ticketId : string;
  ei_ticketIdentifier : string;
  ei_originalText : Text.t;
  ei_editedText : Text.t;
  ei_userId : string;
  ei_action : TriageAction;
}.

Record DeletedMessageInput := {
  xi_ticketId : string;
  xi_ticketIdentifier : string;
  xi_messageTs : string;
  xi_action : TriageAction;
}.

(** The awaited external calls of the handlers, indexed by the type of the
    value the promise resolves to. *)
Inductive Call : Type → Type :=
  | conversations_replies (channel ts : string) (limit : nat)
      : Call (option (list ThreadMessage))
  | fetch_thread_context (channelId threadTs : string) : Call ThreadContext
  | uploadImageToLinearCdn (slackPrivateUrl filename contentType : string)
      : Call (option ImageUploadResult)
  | triageMessage (input : TriageInput) : Call TriageResult
  | handleThreadReply (input : ThreadReplyInput) : Call unit
  | triageOrphanThreadReply (input : OrphanThreadInput) : Call OrphanThreadResult
  | handleDeferredFollowup (input : DeferredFollowupInput) : Call DeferredFollowupResult
  | handleDirectCommand (input : DirectCommandInput) : Call DirectCommandResult
  | handleMessageEdit (input : EditedMessageInput) : Call unit
  | handleMessageDelete (input : DeletedMessageInput) : Call unit.

(** What the outside world answers when a pending call settles: the Slack
    API for [conversations.replies], the download from Slack and the
    upload to Linear inside the [try] of [uploadImageToLinearCdn], and the
    agent run ([query] and the loop over its messages) inside each entry
    point of [agent.ts]. *)
Record World := {
  slack_replies : string → string → nat → Outcome (option (list ThreadMessage));
  linear_upload : string → string → string → Outcome (option ImageUploadResult);
  agent_triage : TriageInput → Outcome TriageResult;
  agent_thread_reply : ThreadReplyInput → Outcome unit;
  agent_orphan : OrphanThreadInput → Outcome OrphanThreadResult;
  agent_deferred : DeferredFollowupInput → Outcome DeferredFollowupResult;
  agent_direct : DirectCommandInput → Outcome DirectCommandResult;
  agent_edit : EditedMessageInput → Outcome unit;
  agent_delete : DeletedMessageInput → Outcome unit;
}.

(** The [try { ... } catch (error) { ... }] around the agent run of an
    entry point: a failure is logged and turned into the value [on_error]
    computes, so the entry point's promise never rejects. *)
Definition try_catch {R} (body : Outcome R) (on_error : string → R) : Outcome R :=
  match body with
  | Returned r => Returned r
  | Threw e => Returned (on_error e)
  end.

(** The promise of each call. [fetchThreadContext] catches the failure
    of its call of [conversations.replies], with the limit 30 that is
    its default, and [uploadImageToLinearCdn] returns [null] for a
    failure inside its [try] (its Linear client is set by [main] before
    any handler runs). The entry points of [agent.ts] catch the failures
    of their agent run: those with a result return the action [error]
    with the failure's message, [handleThreadReply], [handleMessageEdit]
    and [handleMessageDelete] log and return. *)
Definition perform (w : World) {R} (c : Call R) : Outcome R :=
  match c in Call R return Outcome R with
  | conversations_replies ch t limit => slack_replies w ch t limit
  | fetch_thread_context ch t => Returned (fetchThreadContext (slack_replies w ch t 30))
  | uploadImageToLinearCdn slackPrivateUrl filename contentType =>
      try_catch (linear_upload w slackPrivateUrl filename contentType) (λ _, None)
  | triageMessage input =>
      try_catch (agent_triage w input)
        (λ e, {| r_action := error; r_ticketId := None; r_ticketUrl := None;
                 r_ticketIdentifier := None; r_message := e |})
  | handleThreadReply input => try_catch (agent_thread_reply w input) (λ _, tt)
  | triageOrphanThreadReply input =>
      try_catch (agent_orphan w input)
        (λ e, {| or_action := o_error; or_ticketId := None;
                 or_ticketIdentifier := None; or_message := e |})
  | handleDeferredFollowup input =>
      try_catch (agent_deferred w input)
        (λ e, {| dr_action := d_error; dr_ticketId := None;
                 dr_ticketIdentifier := None; dr_message := e |})
  | handleDirectCommand input =>
      try_catch (agent_direct w input)
        (λ e, {| dcr_action := c_error; dcr_message := e |})
  | handleMessageEdit input => try_catch (agent_edit w input) (λ _, tt)
  | handleMessageDelete input => try_catch (agent_delete w input) (λ _, tt)
  end.

(** An [async] handler from its current point on: it has returned, it has
    thrown, or it awaits a call. When the call returns the value [r] at
    clock reading [now] with the store [st], the handler runs on to its
    next suspension point: it leaves the store [write r now st] and
    continues as [next r now st]. *)
Inductive Proc :=
  | Ret
  | Fail (err : string)
  | Await {R : Type} (c : Call R)
      (write : R → Z → Store → Store) (next : R → Z → Store → Proc).

(** ** Configuration *)

(** [config.slackChannelId], the bot's user id from [auth.test], the
    match of the Linear issue URL pattern built from
    [appConfig.linearOrganization] (for a message text, the captured ticket
    identifier of the first match, if any), and the URL parser of the
    platform as [parseSlackUrl] uses it (for a URL, nothing when
    [new URL(url)] throws, else what [searchParams.get] returns for
    [thread_ts]). *)
Record Config := {
  slackChannelId : string;
  botUserId : string;
  linearIssueMatch : string → option string;
  urlThreadTs : string → option (option string);
}.

(** ** Queue handlers *)

Definition newline : string := String (ascii_of_nat 10) EmptyString.

(** The transcript the thread handlers build from a
    [conversations.replies] response. *)
Definition threadContextOf (messages : option (list ThreadMessage)) : string :=
  String.concat newline
    (map (λ m, "[" +:+ (if JS.truthy (tm_bot_id m) then "Bot" else "User") +:+ "]: "
               +:+ JS.or_default (tm_text m) "(no text)")
         (default [] messages)).

(** [extractTicketFromThread]: the ticket identifier of the first message
    with a text that matches the Linear issue URL pattern. *)
Fixpoint extractTicketFromThread (cfg : Config) (messages : list ThreadMessage)
    : option string :=
  match messages with
  | [] => None
  | msg :: rest =>
      if negb (JS.truthy (tm_text msg)) then extractTicketFromThread cfg rest
      else match linearIssueMatch cfg (default "" (tm_text msg)) with
           | Some ticketIdentifier => Some ticketIdentifier
           | None => extractTicketFromThread cfg rest
           end
  end.

Definition isTicketAction (a : TriageAction) : bool :=
  bool_decide (a = created ∨ a = duplicate).

(** The writes of [processNewMessage] after [triageMessage] has returned
    [result]: the thread entry for a created, duplicate or deferred
    outcome, each followed by the thread cleanup, then the message entry
    followed by the message cleanup. *)
Definition recordTriage (data : NewData) (msg_ts : string)
    (result : TriageResult) (now : Z) (st : Store) : Store :=
  let st1 :=
    if (isTicketAction (r_action result)
        && (JS.truthy (r_ticketId result) || JS.truthy (r_ticketIdentifier result)))%bool
    then
      setThreads (λ m, cleanupOldThreadMappings now (<[msg_ts :=
        {| t_ticketId :=
             default "" (JS.or (r_ticketId result) (r_ticketIdentifier result));
           t_ticketIdentifier :=
             default "" (JS.or (r_ticketIdentifier result) (r_ticketId result));
           t_createdAt := now;
           t_isDuplicate := bool_decide (r_action result = duplicate);
           t_isDeferred := false;
           t_originalContext := None;
           t_originalReporterId := n_user data |}]> m)) st
    else if bool_decide (r_action result = deferred)
    then
      setThreads (λ m, cleanupOldThreadMappings now (<[msg_ts :=
        {| t_ticketId := "";
           t_ticketIdentifier := "";
           t_createdAt := now;
           t_isDuplicate := false;
           t_isDeferred := true;
           t_originalContext := n_text data;
           t_originalReporterId := n_user data |}]> m)) st
    else st in
  setMessages (λ m, cleanupOldMessageMappings now (<[msg_ts :=
    {| m_ticketId := JS.or_default (r_ticketId result) "";
       m_ticketIdentifier := JS.or_default (r_ticketIdentifier result) "";
       m_ticketUrl := r_ticketUrl result;
       m_createdAt := now;
       m_wasTriaged := isTicketAction (r_action result);
       m_action := r_action result |}]> m)) st1.

(** The loop [for (const file of files)] that every handler of an item
    with files runs first: each file with an image type is uploaded, one
    awaited call of [uploadImageToLinearCdn] after the other, and what
    [pick] takes of each result that is not [null] is pushed on
    [uploaded]. The handler goes on as [k] with what was pushed. *)
Fixpoint uploadLoop {A : Type} (pick : ImageUploadResult → A) (files : list SlackFile)
    (uploaded : list A) (k : list A → Proc) : Proc :=
  match files with
  | [] => k uploaded
  | file :: rest =>
      if isImage file then
        Await (uploadImageToLinearCdn (f_url_private file) (f_name file) (f_mimetype file))
          (λ _ _ st, st)
          (λ result _ _,
             uploadLoop pick rest
               (match result with
                | Some r => uploaded ++ [pick r]
                | None => uploaded
                end) k)
      else uploadLoop pick rest uploaded k
  end.

(** What [processNewMessage] pushes on [images] for an upload. *)
Definition triageImageOf (result : ImageUploadResult) : TriageImage :=
  {| img_url := iu_url result;
     img_base64 := toBase64 (iu_buffer result);
     img_contentType := iu_contentType result |}.

(** The part of [processNewMessage] that fills [forwardedMessage]: for a
    first attachment with a text and a source URL that parses, the thread
    of the source is fetched with an awaited call of [fetchThreadContext].
    The handler goes on as [k] with the forwarded message, if any. *)
Definition detectForwarded (cfg : Config) (msg_attachments : option (list SlackAttachment))
    (k : option ForwardedMessage → Proc) : Proc :=
  match msg_attachments with
  | Some (firstAttachment :: _) =>
      if JS.truthy (a_text firstAttachment) then
        if JS.truthy (a_from_url firstAttachment) then
          match parseSlackUrl (urlThreadTs cfg) (default "" (a_from_url firstAttachment)) with
          | Some parsed =>
              Await (fetch_thread_context (channelId parsed) (forwardedThread parsed))
                (λ _ _ st, st)
                (λ threadResult _ _,
                   k (Some (withThreadResult firstAttachment threadResult)))
          | None => k (Some (forwardedFrom firstAttachment None None))
          end
        else k (Some (forwardedFrom firstAttachment None None))
      else k None
  | _ => k None
  end.

(** [processNewMessage]. Building the message link calls
    [msg.ts.replace], which throws when the timestamp is missing. Then
    come the thread of a forwarded message, the uploads of the images,
    and the call of [triageMessage]. *)
Definition processNewMessage (cfg : Config) (data : NewData) (st : Store) : Proc :=
  match n_ts data with
  | None => Fail "TypeError: Cannot read properties of undefined (reading 'replace')"
  | Some msg_ts =>
      detectForwarded cfg (n_attachments data) (λ forwardedMessage,
        uploadLoop triageImageOf (default [] (n_files data)) [] (λ images,
          Await (triageMessage
                   {| ti_messageText := n_text data;
                      ti_userId := n_user data;
                      ti_channel := n_channel data;
                      ti_threadTs := msg_ts;
                      ti_slackMessageUrl :=
                        "https://slack.com/archives/" +:+ n_channel data +:+ "/p"
                        +:+ JS.remove_first_dot msg_ts;
                      ti_images := images;
                      ti_forwardedMessage := forwardedMessage |})
            (λ result now st', recordTriage data msg_ts result now st')
            (λ _ _ _, Ret)))
  end.

(** [processThreadReplyHandler], once the images are uploaded: the
    thread is fetched again and a ticket link found in it is preferred to
    the cached one; the maps are not written. *)
Definition threadReplyWith (cfg : Config) (data : ThreadReplyData)
    (imageUrls : list string) : Proc :=
  Await (conversations_replies (tr_channel data) (tr_threadTs data) 20)
    (λ _ _ st', st')
    (λ threadResult _ _,
       let extractedTicket := extractTicketFromThread cfg (default [] threadResult) in
       Await (handleThreadReply
                {| tri_replyText := JS.or_default (tr_replyText data) "";
                   tri_userId := tr_userId data;
                   tri_channel := tr_channel data;
                   tri_threadTs := tr_threadTs data;
                   tri_messageTs := tr_messageTs data;
                   tri_ticketId := JS.or_default extractedTicket (tr_ticketId data);
                   tri_ticketIdentifier :=
                     JS.or_default extractedTicket (tr_ticketIdentifier data);
                   tri_threadContext := threadContextOf threadResult;
                   tri_isDuplicate := tr_isDuplicate data;
                   tri_isSameReporter := tr_isSameReporter data;
                   tri_imageUrls := imageUrls |})
         (λ _ _ st', st')
         (λ _ _ _, Ret)).

(** [processThreadReplyHandler]. *)
Definition processThreadReplyHandler (cfg : Config) (data : ThreadReplyData)
    (st : Store) : Proc :=
  uploadLoop iu_url (default [] (tr_files data)) [] (threadReplyWith cfg data).

(** The write of [processOrphanThreadHandler] after the triage result. *)
Definition recordOrphan (data : OrphanThreadData) (result : OrphanThreadResult)
    (now : Z) (st : Store) : Store :=
  match or_action result, or_ticketId result with
  | (o_created | o_updated), Some ticketId =>
      if String.eqb ticketId "" then st
      else
        setThreads (<[o_threadTs data :=
          {| t_ticketId := ticketId;
             t_ticketIdentifier := JS.or_default (or_ticketIdentifier result) ticketId;
             t_createdAt := now;
             t_isDuplicate := bool_decide (or_action result = o_updated);
             t_isDeferred := false;
             t_originalContext := None;
             t_originalReporterId := Some (o_userId data) |}]>) st
  | _, _ => st
  end.

(** [processOrphanThreadHandler], once the images are uploaded. *)
Definition orphanThreadWith (data : OrphanThreadData) (imageUrls : list string) : Proc :=
  Await (conversations_replies (o_channel data) (o_threadTs data) 20)
    (λ _ _ st', st')
    (λ threadResult _ _,
       Await (triageOrphanThreadReply
                {| oi_replyText := JS.or_default (o_replyText data) "";
                   oi_userId := o_userId data;
                   oi_channel := o_channel data;
                   oi_threadTs := o_threadTs data;
                   oi_messageTs := o_messageTs data;
                   oi_slackMessageUrl :=
                     "https://slack.com/archives/" +:+ o_channel data +:+ "/p"
                     +:+ JS.remove_first_dot (o_messageTs data)
                     +:+ "?thread_ts=" +:+ o_threadTs data
                     +:+ "&cid=" +:+ o_channel data;
                   oi_threadContext := threadContextOf threadResult;
                   oi_imageUrls := imageUrls |})
         (λ result now st', recordOrphan data result now st')
         (λ _ _ _, Ret)).

(** [processOrphanThreadHandler]. *)
Definition processOrphanThreadHandler (data : OrphanThreadData) (st : Store) : Proc :=
  uploadLoop iu_url (default [] (o_files data)) [] (orphanThreadWith data).

(** The upgrade of a deferred thread entry: [{...existing, ticketId,
    ticketIdentifier, isDeferred: false}]. *)
Definition upgradeDeferred (existing : ThreadTicket) (ticketId ticketIdentifier : string)
    : ThreadTicket :=
  {| t_ticketId := ticketId;
     t_ticketIdentifier := ticketIdentifier;
     t_createdAt := t_createdAt existing;
     t_isDuplicate := t_isDuplicate existing;
     t_isDeferred := false;
     t_originalContext := t_originalContext existing;
     t_originalReporterId := t_originalReporterId existing |}.

(** The write of [processDeferredFollowupHandler] after the result. *)
Definition recordDeferred (data : DeferredFollowupData)
    (result : DeferredFollowupResult) (now : Z) (st : Store) : Store :=
  match dr_action result, dr_ticketId result with
  | d_created, Some ticketId =>
      if String.eqb ticketId "" then st
      else match threadTicketMap st !! d_threadTs data with
           | Some existing =>
               setThreads (<[d_threadTs data :=
                 upgradeDeferred existing ticketId
                   (JS.or_default (dr_ticketIdentifier result) ticketId)]>) st
           | None => st
           end
  | _, _ => st
  end.

(** [processDeferredFollowupHandler], once the images are uploaded. *)
Definition deferredFollowupWith (data : DeferredFollowupData) (imageUrls : list string)
    : Proc :=
  Await (conversations_replies (d_channel data) (d_threadTs data) 30)
    (λ _ _ st', st')
    (λ threadResult _ _,
       Await (handleDeferredFollowup
                {| di_replyText := JS.or_default (d_replyText data) "";
                   di_userId := d_userId data;
                   di_channel := d_channel data;
                   di_threadTs := d_threadTs data;
                   di_messageTs := d_messageTs data;
                   di_threadContext := threadContextOf threadResult;
                   di_originalContext := d_originalContext data;
                   di_imageUrls := imageUrls |})
         (λ result now st', recordDeferred data result now st')
         (λ _ _ _, Ret)).

(** [processDeferredFollowupHandler]. *)
Definition processDeferredFollowupHandler (data : DeferredFollowupData) (st : Store)
    : Proc :=
  uploadLoop iu_url (default [] (d_files data)) [] (deferredFollowupWith data).

(** [processDirectCommandHandler], once the images are uploaded: the
    thread is fetched only for a command posted inside a thread. *)
Definition directCommandWith (data : DirectCommandData) (imageUrls : list string) : Proc :=
  let command threadContext :=
    Await (handleDirectCommand
             {| dci_commandText := JS.or_default (dc_commandText data) "";
                dci_userId := dc_userId data;
                dci_channel := dc_channel data;
                dci_threadTs := dc_threadTs data;
                dci_messageTs := dc_messageTs data;
                dci_ticketContext := dc_ticketContext data;
                dci_threadContext := threadContext;
                dci_imageUrls := imageUrls |})
      (λ _ _ st', st')
      (λ _ _ _, Ret) in
  if (negb (String.eqb (dc_threadTs data) "")
      && negb (String.eqb (dc_threadTs data) (dc_messageTs data)))%bool
  then Await (conversations_replies (dc_channel data) (dc_threadTs data) 30)
         (λ _ _ st', st')
         (λ threadResult _ _, command (threadContextOf threadResult))
  else command "".

(** [processDirectCommandHandler]. *)
Definition processDirectCommandHandler (data : DirectCommandData) (st : Store) : Proc :=
  uploadLoop iu_url (default [] (dc_files data)) [] (directCommandWith data).

(** The normalisation the edit handler applies to both texts:
    [text.trim().replace(/\s+/g, " ")]. *)
Definition normalizeText (s : Text.t) : Text.t := Text.replace_spaces (Text.trim s).

(** [processEditedMessageHandler]. *)
Definition processEditedMessageHandler (data : EditedData) (st : Store) : Proc :=
  match messageTicketMap st !! e_messageTs data with
  | None => Ret
  | Some ticketInfo =>
      if negb (m_wasTriaged ticketInfo) then Ret
      else if bool_decide (normalizeText (e_previousText data)
                           = normalizeText (e_newText data))
      then Ret
      else
        Await (handleMessageEdit
                 {| ei_ticketId := m_ticketId ticketInfo;
                    ei_ticketIdentifier := m_ticketIdentifier ticketInfo;
                    ei_originalText := e_previousText data;
                    ei_editedText := e_newText data;
                    ei_userId := e_userId data;
                    ei_action := m_action ticketInfo |})
          (λ _ _ st', st')
          (λ _ _ _, Ret)
  end.

(** The deletions of [processDeletedMessageHandler] after
    [handleMessageDelete] has returned. *)
Definition forgetDeleted (data : DeletedData) (st : Store) : Store :=
  let st1 := setMessages (delete (x_messageTs data)) st in
  match x_threadTs data with
  | Some threadTs =>
      if String.eqb threadTs "" then st1 else setThreads (delete threadTs) st1
  | None => st1
  end.

(** [processDeletedMessageHandler]. *)
Definition processDeletedMessageHandler (data : DeletedData) (st : Store) : Proc :=
  match messageTicketMap st !! x_messageTs data with
  | None => Ret
  | Some ticketInfo =>
      if negb (m_wasTriaged ticketInfo) then Ret
      else
        Await (handleMessageDelete
                 {| xi_ticketId := m_ticketId ticketInfo;
                    xi_ticketIdentifier := m_ticketIdentifier ticketInfo;
                    xi_messageTs := x_messageTs data;
                    xi_action := m_action ticketInfo |})
          (λ _ _ st', forgetDeleted data st')
          (λ _ _ _, Ret)
  end.

(** The branch of the drain loop on [item.type]. *)
Definition dispatch (cfg : Config) (item : QueuedMessage) (st : Store) : Proc :=
  match item with
  | QNew data => processNewMessage cfg data st
  | QThreadReply data => processThreadReplyHandler cfg data st
  | QOrphanThread data => processOrphanThreadHandler data st
  | QDeferredFollowup data => processDeferredFollowupHandler data st
  | QDirectCommand data => processDirectCommandHandler data st
  | QMessageEdited data => processEditedMessageHandler data st
  | QMessageDeleted data => processDeletedMessageHandler data st
  end.

(** The files that come with an item. *)
Definition filesOf (item : QueuedMessage) : option (list SlackFile) :=
  match item with
  | QNew data => n_files data
  | QThreadReply data => tr_files data
  | QOrphanThread data => o_files data
  | QDeferredFollowup data => d_files data
  | QDirectCommand data => dc_files data
  | QMessageEdited _ | QMessageDeleted _ => None
  end.

(** A bound on the resumptions that the handler of an item takes: one for
    each image it uploads, and three more, which cover the thread it may
    fetch, the call of the triager and the return. *)
Definition resumptions (item : QueuedMessage) : nat :=
  3 + length (List.filter isImage (default [] (filesOf item))).

(** ** The sequential queue *)

(** What an observer of the queue sees, in order: an item pushed on
    [messageQueue], a handler invoked for an item, a handler's promise
    fulfilled, and the line the drain loop's [catch] writes with
    [console.error]. *)
Inductive Obs :=
  | Pushed (item : QueuedMessage)
  | Started (item : QueuedMessage)
  | Finished (item : QueuedMessage)
  | ConsoleError (line : string) (err : string).

(** An invocation of [processQueue] suspended at the [await] of a
    handler: the item it shifted and the handler's state. *)
Record Drain := {
  current : QueuedMessage;
  pending : Proc;
}.

(** The whole module state: the wall clock that [Date.now()] reads, the
    store, [messageQueue], the [isProcessing] latch, the suspended
    invocations of [processQueue], the number of callbacks registered with
    [setImmediate] and not yet run, and the observations so far. *)
Record Sys := {
  clock : Z;
  store : Store;
  messageQueue : list QueuedMessage;
  isProcessing : bool;
  drains : list Drain;
  immediates : nat;
  log : list Obs;
}.

Definition initial : Sys :=
  {| clock := 0; store := emptyStore; messageQueue := []; isProcessing := false;
     drains := []; immediates := 0; log := [] |}.

(** [messageQueue.push(item)]. *)
Definition push (item : QueuedMessage) (s : Sys) : Sys :=
  {| clock := clock s;
     store := store s;
     messageQueue := messageQueue s ++ [item];
     isProcessing := isProcessing s;
     drains := drains s;
     immediates := immediates s;
     log := log s ++ [Pushed item] |}.

(** The [finally] block of [processQueue]: the latch is released and, if
    items are queued, a new call is scheduled with [setImmediate]. *)
Definition finallyBlock (s : Sys) : Sys :=
  {| clock := clock s;
     store := store s;
     messageQueue := messageQueue s;
     isProcessing := false;
     drains := drains s;
     immediates :=
       if Nat.ltb 0 (length (messageQueue s)) then S (immediates s) else immediates s;
     log := log s |}.

(** One pass through the head of [while (messageQueue.length > 0)]: with
    an empty queue the loop is left through [finally]; otherwise the first
    item is shifted and its handler is invoked, which runs up to its first
    suspension point, where the invocation waits. *)
Definition whileLoop (cfg : Config) (s : Sys) : Sys * option Drain :=
  match messageQueue s with
  | [] => (finallyBlock s, None)
  | item :: rest =>
      ({| clock := clock s;
          store := store s;
          messageQueue := rest;
          isProcessing := isProcessing s;
          drains := drains s;
          immediates := immediates s;
          log := log s ++ [Started item] |},
       Some {| current := item; pending := dispatch cfg item (store s) |})
  end.

Definition withDrains (ds : list Drain) (s : Sys) : Sys :=
  {| clock := clock s;
     store := store s;
     messageQueue := messageQueue s;
     isProcessing := isProcessing s;
     drains := ds;
     immediates := immediates s;
     log := log s |}.

Definition withStore (st : Store) (s : Sys) : Sys :=
  {| clock := clock s;
     store := st;
     messageQueue := messageQueue s;
     isProcessing := isProcessing s;
     drains := drains s;
     immediates := immediates s;
     log := log s |}.

Definition withLatch (b : bool) (s : Sys) : Sys :=
  {| clock := clock s;
     store := store s;
     messageQueue := messageQueue s;
     isProcessing := b;
     drains := drains s;
     immediates := immediates s;
     log := log s |}.

Definition observe (o : Obs) (s : Sys) : Sys :=
  {| clock := clock s;
     store := store s;
     messageQueue := messageQueue s;
     isProcessing := isProcessing s;
     drains := drains s;
     immediates := immediates s;
     log := log s ++ [o] |}.

(** [processQueue]: nothing happens while the latch is set or the queue is
    empty; otherwise the latch is set and the loop is entered by a new
    invocation. *)
Definition processQueue (cfg : Config) (s : Sys) : Sys :=
  if (isProcessing s || Nat.eqb (length (messageQueue s)) 0)%bool then s
  else
    let '(s', d) := whileLoop cfg (withLatch true s) in
    withDrains (drains s' ++ option_list d) s'.

(** The invocation at position [i] goes back to the head of the loop
    after the handler it awaited has settled. *)
Definition continueLoop (cfg : Config) (i : nat) (s : Sys) : Sys :=
  let '(s', d) := whileLoop cfg s in
  match d with
  | Some d' => withDrains (<[i := d']> (drains s')) s'
  | None => withDrains (delete i (drains s')) s'
  end.

(** The line of the [catch] of the drain loop. *)
Definition errorLine (item : QueuedMessage) : string :=
  "Error processing queued " +:+ type item +:+ " message:".

(** The invocation [d] at position [i] is resumed. A handler that has
    returned lets the loop go on; one that has thrown is caught, the
    failure is written with the item's type, and the loop goes on; one
    that awaits a call runs on with the value of the call, or throws what
    the call threw. *)
Definition resume (cfg : Config) (i : nat) (d : Drain) (w : World) (s : Sys) : Sys :=
  match pending d with
  | Ret => continueLoop cfg i (observe (Finished (current d)) s)
  | Fail err =>
      continueLoop cfg i (observe (ConsoleError (errorLine (current d)) err) s)
  | Await c write next =>
      match perform w c with
      | Returned r =>
          withDrains
            (<[i := {| current := current d; pending := next r (clock s) (store s) |}]>
               (drains s))
            (withStore (write r (clock s) (store s)) s)
      | Threw err =>
          continueLoop cfg i (observe (ConsoleError (errorLine (current d)) err) s)
      end
  end.

(** The pattern of every listener: push, then call [processQueue]. *)
Definition enqueue (cfg : Config) (item : QueuedMessage) (s : Sys) : Sys :=
  processQueue cfg (push item s).

(** ** The listeners *)

(** The classification of the [app.message] listener: the item to queue,
    if any, and the store it leaves (only [processedMessages] changes). *)
Definition classify (cfg : Config) (st : Store) (msg : SlackMessage)
    : option (QueuedMessage * Store) :=
  let hasContent :=
    (JS.truthy (text msg) || JS.nonempty (attachments msg) || JS.nonempty (files msg))%bool in
  match user msg, ts msg, channel msg with
  | Some msg_user, Some msg_ts, Some msg_channel =>
      if (negb hasContent || String.eqb msg_user "" || String.eqb msg_ts ""
          || String.eqb msg_channel "")%bool then None
      else if negb (String.eqb msg_channel (slackChannelId cfg)) then None
      else if JS.truthy (bot_id msg) then None
      else if (JS.truthy (subtype msg)
               && negb (JS.strict_eq (subtype msg) (Some "file_share")))%bool then None
      else
        let isBotMentioned :=
          match text msg with
          | Some t => JS.includes ("<@" +:+ botUserId cfg +:+ ">") t
          | None => false
          end in
        let topLevel :=
          match rememberMessage (processedMessages st) msg_ts with
          | None => None
          | Some s' =>
              Some (QNew {| n_text := text msg; n_user := user msg;
                            n_ts := ts msg; n_channel := msg_channel;
                            n_files := files msg;
                            n_attachments := attachments msg |},
                    setProcessed (λ _, s') st)
          end in
        if isBotMentioned then
          let ticketInfo :=
            match thread_ts msg with
            | Some t => if String.eqb t "" then None else threadTicketMap st !! t
            | None => None
            end in
          Some (QDirectCommand
                  {| dc_commandText := text msg;
                     dc_userId := msg_user;
                     dc_channel := msg_channel;
                     dc_threadTs := JS.or_default (thread_ts msg) msg_ts;
                     dc_messageTs := msg_ts;
                     dc_ticketContext :=
                       match ticketInfo with
                       | Some info =>
                           if String.eqb (t_ticketIdentifier info) "" then None
                           else Some (t_ticketIdentifier info)
                       | None => None
                       end;
                     dc_files := files msg |}, st)
        else
          match thread_ts msg with
          | Some msg_thread_ts =>
              if (negb (String.eqb msg_thread_ts "")
                  && negb (String.eqb msg_thread_ts msg_ts))%bool
              then
                match threadTicketMap st !! msg_thread_ts with
                | Some ticketInfo =>
                    if t_isDeferred ticketInfo then
                      Some (QDeferredFollowup
                              {| d_replyText := text msg;
                                 d_userId := msg_user;
                                 d_channel := msg_channel;
                                 d_threadTs := msg_thread_ts;
                                 d_messageTs := msg_ts;
                                 d_files := files msg;
                                 d_originalContext := t_originalContext ticketInfo |}, st)
                    else
                      let isSameReporter :=
                        JS.strict_eq (t_originalReporterId ticketInfo) (Some msg_user) in
                      Some (QThreadReply
                              {| tr_replyText := text msg;
                                 tr_userId := msg_user;
                                 tr_channel := msg_channel;
                                 tr_threadTs := msg_thread_ts;
                                 tr_messageTs := msg_ts;
                                 tr_ticketId := t_ticketId ticketInfo;
                                 tr_ticketIdentifier := t_ticketIdentifier ticketInfo;
                                 tr_isDuplicate := t_isDuplicate ticketInfo;
                                 tr_isSameReporter := isSameReporter;
                                 tr_files := files msg |}, st)
                | None =>
                    Some (QOrphanThread
                            {| o_replyText := text msg;
                               o_userId := msg_user;
                               o_channel := msg_channel;
                               o_threadTs := msg_thread_ts;
                               o_messageTs := msg_ts;
                               o_files := files msg |}, st)
                end
              else topLevel
          | None => topLevel
          end
  | _, _, _ => None
  end.

(** The [app.message] listener. *)
Definition onMessage (cfg : Config) (msg : SlackMessage) (s : Sys) : Sys :=
  match classify cfg (store s) msg with
  | Some (item, st') => enqueue cfg item (withStore st' s)
  | None => s
  end.

(** The item of the edit listener, for a [message_changed] event of the
    monitored channel that a user made. *)
Definition classifyEdit (cfg : Config) (msg : SlackMessage) : option QueuedMessage :=
  if negb (JS.strict_eq (subtype msg) (Some "message_changed")) then None
  else
    match message msg, previous_message msg with
    | Some changed, Some previous =>
        match c_user changed, c_ts changed, channel msg with
        | Some changed_user, Some changed_ts, Some msg_channel =>
            if (String.eqb changed_user "" || String.eqb changed_ts "")%bool then None
            else if (String.eqb msg_channel ""
                     || negb (String.eqb msg_channel (slackChannelId cfg)))%bool then None
            else if JS.truthy (c_bot_id changed) then None
            else
              Some (QMessageEdited
                      {| e_messageTs := changed_ts;
                         e_newText := Text.or_default (c_text changed) [];
                         e_previousText := Text.or_default (p_text previous) [];
                         e_userId := changed_user;
                         e_channel := msg_channel |})
        | _, _, _ => None
        end
    | _, _ => None
    end.

Definition onMessageChanged (cfg : Config) (msg : SlackMessage) (s : Sys) : Sys :=
  match classifyEdit cfg msg with
  | Some item => enqueue cfg item s
  | None => s
  end.

(** The item of the delete listener. *)
Definition classifyDelete (cfg : Config) (msg : SlackMessage) : option QueuedMessage :=
  if negb (JS.strict_eq (subtype msg) (Some "message_deleted")) then None
  else
    match deleted_ts msg, channel msg with
    | Some msg_deleted_ts, Some msg_channel =>
        if (String.eqb msg_deleted_ts "" || String.eqb msg_channel "")%bool then None
        else if negb (String.eqb msg_channel (slackChannelId cfg)) then None
        else
          Some (QMessageDeleted
                  {| x_messageTs := msg_deleted_ts;
                     x_channel := msg_channel;
                     x_threadTs :=
                       match previous_message msg with
                       | Some previous => p_thread_ts previous
                       | None => None
                       end |})
    | _, _ => None
    end.

Definition onMessageDeleted (cfg : Config) (msg : SlackMessage) (s : Sys) : Sys :=
  match classifyDelete cfg msg with
  | Some item => enqueue cfg item s
  | None => s
  end.

(** A Slack message event reaches the three listeners in the order of
    their registration. *)
Definition deliver (cfg : Config) (msg : SlackMessage) (s : Sys) : Sys :=
  onMessageDeleted cfg msg (onMessageChanged cfg msg (onMessage cfg msg s)).

(** ** Recovery at start-up *)

(** One response of [conversations.history]. *)
Record HistoryPage := {
  h_messages : option (list SlackMessage);
  h_next_cursor : option string;
}.

(** [(Date.now() / 1000) - (7 * 24 * 60 * 60)], the [oldest] bound of the
    history requests, in seconds. *)
Definition sevenDaysAgo (now : Z) : Q :=
  (inject_Z now / inject_Z 1000 - inject_Z (7 * 24 * 60 * 60))%Q.

(** The inner [for] loop over the messages of one page: [true] when the
    marker was met (the [break outer]), with the messages collected. *)
Fixpoint scanPage (messages : list SlackMessage) (missedMessages : list SlackMessage)
    : bool * list SlackMessage :=
  match messages with
  | [] => (false, missedMessages)
  | msg :: rest =>
      if hasRobotReaction msg then (true, missedMessages)
      else if negb (isProcessableMessage msg) then scanPage rest missedMessages
      else scanPage rest (missedMessages ++ [msg])
  end.

(** The [do ... while (cursor)] loop over the successive responses of the
    history API, newest page first; a request past the last response is
    answered with no messages and no cursor. *)
Fixpoint scanHistory (pages : list HistoryPage) (missedMessages : list SlackMessage)
    : bool * list SlackMessage :=
  match pages with
  | [] => (false, missedMessages)
  | page :: more =>
      let '(foundLastProcessed, missed) :=
        scanPage (default [] (h_messages page)) missedMessages in
      if foundLastProcessed then (true, missed)
      else if JS.truthy (h_next_cursor page) then scanHistory more missed
      else (false, missed)
  end.

(** The [new] item pushed for a recovered message. *)
Definition recoveredItem (cfg : Config) (msg : SlackMessage) : QueuedMessage :=
  QNew {| n_text := text msg;
          n_user := user msg;
          n_ts := ts msg;
          n_channel := JS.or_default (channel msg) (slackChannelId cfg);
          n_files := files msg;
          n_attachments := attachments msg |}.

(** The items [recoverMissedMessages] pushes, in the order of the pushes.
    [history] gives the responses of the API for an [oldest] bound. *)
Definition recoveredItems (cfg : Config) (history : Q → list HistoryPage) (now : Z)
    : list QueuedMessage :=
  let '(foundLastProcessed, missedMessages) :=
    scanHistory (history (sevenDaysAgo now)) [] in
  if (negb foundLastProcessed && Nat.ltb 0 (length missedMessages))%bool then []
  else if Nat.eqb (length missedMessages) 0 then []
  else map (recoveredItem cfg) (rev missedMessages).

(** [recoverMissedMessages]: the items are pushed on the queue; nothing
    else of the module state is touched. *)
Definition recoverMissedMessages (cfg : Config) (history : Q → list HistoryPage)
    (s : Sys) : Sys :=
  foldl (λ acc item, push item acc) s (recoveredItems cfg history (clock s)).

(** The two statements of [main] around recovery: the scan, then a call
    of [processQueue] when something was queued. *)
Definition recoverAtStartup (cfg : Config) (history : Q → list HistoryPage)
    (s : Sys) : Sys :=
  let s' := recoverMissedMessages cfg history s in
  if Nat.ltb 0 (length (messageQueue s')) then processQueue cfg s' else s'.

(** ** Events and runs *)

(** The events of a run: a Slack message event is delivered; an item is
    enqueued (push, then [processQueue]); [processQueue] is called;
    recovery runs; the handler awaited by the invocation at position [i]
    is resumed in the world [w]; a [setImmediate] callback runs; the wall
    clock reaches [now]. *)
Inductive Event :=
  | EvSlack (msg : SlackMessage)
  | EvEnqueue (item : QueuedMessage)
  | EvProcessQueue
  | EvRecover (history : Q → list HistoryPage)
  | EvSettle (i : nat) (w : World)
  | EvImmediate
  | EvClock (now : Z).

(** One event; [None] when the event cannot happen in the state (no
    invocation is suspended at position [i], no callback is scheduled). *)
Definition step (cfg : Config) (s : Sys) (ev : Event) : option Sys :=
  match ev with
  | EvSlack msg => Some (deliver cfg msg s)
  | EvEnqueue item => Some (enqueue cfg item s)
  | EvProcessQueue => Some (processQueue cfg s)
  | EvRecover history => Some (recoverAtStartup cfg history s)
  | EvSettle i w =>
      match drains s !! i with
      | Some d => Some (resume cfg i d w s)
      | None => None
      end
  | EvImmediate =>
      match immediates s with
      | S n =>
          Some (processQueue cfg
                  {| clock := clock s; store := store s; messageQueue := messageQueue s;
                     isProcessing := isProcessing s; drains := drains s;
                     immediates := n; log := log s |})
      | O => None
      end
  | EvClock now =>
      Some {| clock := now; store := store s; messageQueue := messageQueue s;
              isProcessing := isProcessing s; drains := drains s;
              immediates := immediates s; log := log s |}
  end.

Fixpoint run (cfg : Config) (s : Sys) (evs : list Event) : option Sys :=
  match evs with
  | [] => Some s
  | ev :: rest =>
      match step cfg s ev with
      | Some s' => run cfg s' rest
      | None => None
      end
  end.

(** The items of the [Pushed] and of the [Started] observations. *)
Definition pushes (l : list Obs) : list QueuedMessage :=
  omap (λ o, match o with Pushed item => Some item | _ => None end) l.

Definition starts (l : list Obs) : list QueuedMessage :=
  omap (λ o, match o with Started item => Some item | _ => None end) l.

(** Reading a log from its beginning with [busy] telling whether a handler
    is in flight: a handler may start only when none is in flight, and only
    a handler in flight may finish or be caught. The result is [None] as
    soon as the log breaks this, else the final [busy]. *)
Fixpoint serial (busy : bool) (l : list Obs) : option bool :=
  match l with
  | [] => Some busy
  | Pushed _ :: rest => serial busy rest
  | Started _ :: rest => if busy then None else serial true rest
  | Finished _ :: rest => if busy then serial false rest else None
  | ConsoleError _ _ :: rest => if busy then serial false rest else None
  end.

(** ** Properties of runs *)

(** The number of handlers in flight after a log: invocations minus ends
    (a fulfilled promise or a caught failure). *)
Fixpoint inFlight (l : list Obs) : Z :=
  match l with
  | [] => 0
  | Started _ :: rest => 1 + inFlight rest
  | Finished _ :: rest => inFlight rest - 1
  | ConsoleError _ _ :: rest => inFlight rest - 1
  | Pushed _ :: rest => inFlight rest
  end.

(** The mutual exclusion of a thread entry: a deferred entry has no ticket
    id, any other entry has one. *)
Definition exclusive (e : ThreadTicket) : Prop :=
  if t_isDeferred e then t_ticketId e = "" else t_ticketId e ≠ "".

Definition ThreadsOk (st : Store) : Prop :=
  ∀ k e, threadTicketMap st !! k = Some e → exclusive e.

(** What a handler may do to the entry of one thread key at clock reading
    [now]: leave it, remove it, put a newly built entry where there was
    none, put a newly built entry in the place of the one that is there,
    or put the upgrade of the entry that is there. *)
Inductive ThreadChange (now : Z) (old : option ThreadTicket)
    : option ThreadTicket → Prop :=
  | entry_kept : ThreadChange now old old
  | entry_removed : ThreadChange now old None
  | entry_created (e : ThreadTicket) :
      old = None → t_createdAt e = now → exclusive e → ThreadChange now old (Some e)
  | entry_replaced (e0 e : ThreadTicket) :
      old = Some e0 → t_createdAt e = now → exclusive e → ThreadChange now old (Some e)
  | entry_upgraded (e : ThreadTicket) (ticketId ticketIdentifier : string) :
      old = Some e → ticketId ≠ "" →
      ThreadChange now old (Some (upgradeDeferred e ticketId ticketIdentifier)).

Definition threadWrites (now : Z) (st st' : Store) : Prop :=
  ∀ k, ThreadChange now (threadTicketMap st !! k) (threadTicketMap st' !! k).

(** [respects R n p]: the handler [p] returns or throws after fewer than
    [n] awaited calls, and each of its writes is related by [R] to the
    store it found. *)
Fixpoint respects (R : Z → Store → Store → Prop) (n : nat) (p : Proc) : Prop :=
  match n with
  | O => False
  | S n' =>
      match p with
      | Ret | Fail _ => True
      | Await c write next =>
          ∀ r now st, R now st (write r now st) ∧ respects R n' (next r now st)
      end
  end.
Arguments respects : simpl never.

(** The invariant of the queue, but for the emptiness of an idle queue,
    which a bare push breaks until [processQueue] is called. *)
Record Inv0 (s : Sys) : Prop := {
  inv_latch : length (drains s) = if isProcessing s then 1 else 0;
  inv_immediates : immediates s = 0;
  inv_fifo : starts (log s) ++ messageQueue s = pushes (log s);
  inv_serial : serial false (log s) = Some (isProcessing s);
  inv_threads : ThreadsOk (store s);
  inv_pending :
    ∀ d, d ∈ drains s → respects threadWrites (resumptions (current d)) (pending d);
}.

Definition Inv (s : Sys) : Prop :=
  Inv0 s ∧ (isProcessing s = false → messageQueue s = []).

(** The items that are being handled or wait in the queue, and a bound
    on the resumptions that handle them all. *)
Definition backlog (s : Sys) : list QueuedMessage :=
  map current (drains s) ++ messageQueue s.

Definition resumptionsLeft (s : Sys) : nat := sum_list_with resumptions (backlog s).

(** The words of a text: its maximal runs of code units that are not
    white space, from left to right. *)
Fixpoint words (s : Text.t) : list Text.t :=
  match s with
  | [] => []
  | c :: rest =>
      if Text.isWhiteSpace c then words rest
      else match rest with
           | [] => [[c]]
           | d :: _ =>
               if Text.isWhiteSpace d then [c] :: words rest
               else match words rest with
                    | w :: more => (c :: w) :: more
                    | [] => [[c]]
                    end
           end
  end.

(** A word is not empty and holds no white space. *)
Definition isWord (w : Text.t) : Prop :=
  w ≠ [] ∧ Forall (λ c, Text.isWhiteSpace c = false) w.

(** The text starts with white space. *)
Definition headSpace (s : Text.t) : bool :=
  match s with
  | c :: _ => Text.isWhiteSpace c
  | [] => false
  end.

(** Words joined by single blanks. *)
Fixpoint joinWords (ws : list Text.t) : Text.t :=
  match ws with
  | [] => []
  | [w] => w
  | w :: more => w ++ 32%N :: joinWords more
  end.

(** The observations that end the handling of an item. *)
Definition isEnd (o : Obs) : Prop :=
  match o with Finished _ | ConsoleError _ _ => True | _ => False end.

(** What a resumed handler throws, if it throws: its own failure, or the
    failure of the call it awaited. *)
Definition thrownBy (w : World) (p : Proc) : option string :=
  match p with
  | Ret => None
  | Fail err => Some err
  | Await c _ _ =>
      match perform w c with
      | Returned _ => None
      | Threw err => Some err
      end
  end.

(** ** Sample data *)

Fixpoint distinctb (l : list string) : bool :=
  match l with
  | [] => true
  | x :: rest => negb (existsb (String.eqb x) rest) && distinctb rest
  end.

(** A timestamp for each number below 10000. *)
Definition tsOf (n : nat) : string :=
  "17000" +:+ String (ascii_of_nat (48 + n / 100 mod 10 + 10 * (n / 1000)))
    (String (ascii_of_nat (48 + n / 10 mod 10)) (String (ascii_of_nat (48 + n mod 10)) "")).

Definition sampleTimestamps : list string := map tsOf (seq 0 1001).

Definition sampleConfig : Config :=
  {| slackChannelId := "C0FEEDBACK"; botUserId := "U0BOT";
     linearIssueMatch := λ _, None; urlThreadTs := λ _, Some None |}.

Definition sampleWorld : World :=
  {| slack_replies := λ _ _ _, Returned None;
     linear_upload := λ _ _ _, Returned None;
     agent_triage := λ _,
       Returned {| r_action := created; r_ticketId := Some "uuid-42";
                   r_ticketUrl := Some "https://linear.app/acme/issue/ENG-42";
                   r_ticketIdentifier := Some "ENG-42";
                   r_message := "Created ENG-42" |};
     agent_thread_reply := λ _, Returned tt;
     agent_orphan := λ _,
       Returned {| or_action := o_skipped; or_ticketId := None;
                   or_ticketIdentifier := None; or_message := "SKIPPED" |};
     agent_deferred := λ _,
       Returned {| dr_action := d_no_action; dr_ticketId := None;
                   dr_ticketIdentifier := None; dr_message := "NO_ACTION" |};
     agent_direct := λ _, Returned {| dcr_action := c_executed; dcr_message := "ok" |};
     agent_edit := λ _, Returned tt;
     agent_delete := λ _, Threw "agent run failed" |}.

(** A world in which the Slack API is unreachable. *)
Definition slackDown : World :=
  {| slack_replies := λ _ _ _, Threw "slack_webapi_platform_error";
     linear_upload := linear_upload sampleWorld;
     agent_triage := agent_triage sampleWorld;
     agent_thread_reply := agent_thread_reply sampleWorld;
     agent_orphan := agent_orphan sampleWorld;
     agent_deferred := agent_deferred sampleWorld;
     agent_direct := agent_direct sampleWorld;
     agent_edit := agent_edit sampleWorld;
     agent_delete := agent_delete sampleWorld |}.

(** A world in which the triager defers every new message and creates a
    ticket for every reply in a thread without entry. *)
Definition deferringWorld : World :=
  {| slack_replies := slack_replies sampleWorld;
     linear_upload := linear_upload sampleWorld;
     agent_triage := λ _,
       Returned {| r_action := deferred; r_ticketId := None; r_ticketUrl := None;
                   r_ticketIdentifier := None; r_message := "Let the team chime in" |};
     agent_thread_reply := agent_thread_reply sampleWorld;
     agent_orphan := λ _,
       Returned {| or_action := o_created; or_ticketId := Some "uuid-9";
                   or_ticketIdentifier := Some "ENG-9"; or_message := "Created ENG-9" |};
     agent_deferred := agent_deferred sampleWorld;
     agent_direct := agent_direct sampleWorld;
     agent_edit := agent_edit sampleWorld;
     agent_delete := agent_delete sampleWorld |}.

(** A world in which every upload succeeds, with the URL of the file at
    Slack as the name of the asset. *)
Definition uploadingWorld : World :=
  {| slack_replies := slack_replies sampleWorld;
     linear_upload := λ slackPrivateUrl _ contentType,
       Returned (Some {| iu_url := "https://uploads.linear.app/" +:+ slackPrivateUrl;
                         iu_buffer := {| toBase64 := "iVBORw0KGgo=" |};
                         iu_contentType := contentType |});
     agent_triage := agent_triage sampleWorld;
     agent_thread_reply := agent_thread_reply sampleWorld;
     agent_orphan := agent_orphan sampleWorld;
     agent_deferred := agent_deferred sampleWorld;
     agent_direct := agent_direct sampleWorld;
     agent_edit := agent_edit sampleWorld;
     agent_delete := agent_delete sampleWorld |}.

(** A plain user message of the monitored channel. *)
Definition userMessage (msg_text msg_user msg_ts : string) (msg_thread_ts : option string)
    : SlackMessage :=
  {| text := Some msg_text; user := Some msg_user; ts := Some msg_ts;
     channel := Some "C0FEEDBACK"; thread_ts := msg_thread_ts; bot_id := None;
     subtype := None; files := None; attachments := None; reactions := None;
     message := None; previous_message := None; deleted_ts := None |}.

(** Two top-level messages and a reply in an unknown thread arrive while
    the first message is handled; the reply's handler fails at its Slack
    call; the queue is drained. *)
Definition sampleEvents : list Event :=
  [ EvClock 1700000100000;
    EvSlack (userMessage "Login fails" "U1" "1700000100.000100" None);
    EvSlack (userMessage "same here" "U2" "1700000200.000100" (Some "1700000000.000100"));
    EvSlack (userMessage "Export is slow" "U3" "1700000300.000100" None);
    EvSettle 0 sampleWorld;
    EvSettle 0 sampleWorld;
    EvSettle 0 slackDown;
    EvSettle 0 sampleWorld;
    EvSettle 0 sampleWorld ].

Definition sampleState : Sys :=
  Eval vm_compute in default initial (run sampleConfig initial sampleEvents).

(** A message is posted and, while its triage is pending, a reply in its
    thread arrives, which the listener queues as a reply in a thread
    without entry; then the triage of the message ends with a deferral. *)
Definition deferralEvents : list Event :=
  [ EvClock 1700000100000;
    EvSlack (userMessage "Dark mode please" "U1" "1700000100.000100" None);
    EvSlack (userMessage "yes, we need it" "U2" "1700000200.000100"
               (Some "1700000100.000100"));
    EvSettle 0 deferringWorld ].

Definition deferredState : Sys :=
  Eval vm_compute in default initial (run sampleConfig initial deferralEvents).

(** The handler of the message returns, and the handler of the reply runs
    to its end, five minutes after the message was posted. *)
Definition replacementEvents : list Event :=
  [ EvSettle 0 deferringWorld;
    EvClock 1700000400000;
    EvSettle 0 deferringWorld;
    EvSettle 0 deferringWorld;
    EvSettle 0 deferringWorld ].

Definition replacedState : Sys :=
  Eval vm_compute in default initial (run sampleConfig deferredState replacementEvents).

(** A reply in an unknown thread is being handled, Slack is awaited, and
    an edit waits in the queue. *)
Definition sampleOrphan : QueuedMessage :=
  QOrphanThread {| o_replyText := Some "same here"; o_userId := "U2";
                   o_channel := "C0FEEDBACK"; o_threadTs := "1700000000.000100";
                   o_messageTs := "1700000200.000100"; o_files := None |}.

Definition sampleEdit : QueuedMessage :=
  QMessageEdited {| e_messageTs := "1700000100.000100";
                    e_newText := Text.of_string "Login fails";
                    e_previousText := Text.of_string "Login fails  "; e_userId := "U1";
                    e_channel := "C0FEEDBACK" |}.

Definition sampleBusy : Sys :=
  {| clock := 0; store := emptyStore; messageQueue := [sampleEdit];
     isProcessing := true;
     drains := [ {| current := sampleOrphan;
                    pending := dispatch sampleConfig sampleOrphan emptyStore |} ];
     immediates := 0;
     log := [Pushed sampleOrphan; Started sampleOrphan; Pushed sampleEdit] |}.

(** The messages the recovery scan meets, in the order of the scan: those
    of each page, as long as the page before it came with a cursor. *)
Fixpoint visited (pages : list HistoryPage) : list SlackMessage :=
  match pages with
  | [] => []
  | page :: more =>
      default [] (h_messages page)
      ++ (if JS.truthy (h_next_cursor page) then visited more else [])
  end.

(** The messages met before the first one that bears the marker. *)
Fixpoint beforeMarker (messages : list SlackMessage) : list SlackMessage :=
  match messages with
  | [] => []
  | msg :: rest => if hasRobotReaction msg then [] else msg :: beforeMarker rest
  end.

(** A history in two pages, newest message first: five processable
    messages and a bot message, then the message that bears the marker and
    an older one. *)
Definition markedMessage (msg_text msg_user msg_ts : string) : SlackMessage :=
  {| text := Some msg_text; user := Some msg_user; ts := Some msg_ts;
     channel := Some "C0FEEDBACK"; thread_ts := None; bot_id := None;
     subtype := None; files := None; attachments := None;
     reactions := Some ["eyes"; "robot_face"];
     message := None; previous_message := None; deleted_ts := None |}.

Definition botMessage (msg_text msg_ts : string) : SlackMessage :=
  {| text := Some msg_text; user := None; ts := Some msg_ts;
     channel := Some "C0FEEDBACK"; thread_ts := None; bot_id := Some "B0TRIAGE";
     subtype := Some "bot_message"; files := None; attachments := None;
     reactions := None;
     message := None; previous_message := None; deleted_ts := None |}.

Definition sampleHistory : list HistoryPage :=
  [ {| h_messages :=
         Some [ userMessage "Search is broken" "U5" "1700000500.000100" None;
                botMessage "Created ENG-41" "1700000450.000100";
                userMessage "Crash on save" "U4" "1700000400.000100" None;
                userMessage "Export is slow" "U3" "1700000300.000100" None ];
       h_next_cursor := Some "bmV4dDoy" |};
    {| h_messages :=
         Some [ userMessage "Dark mode please" "U2" "1700000200.000100" None;
                userMessage "Login fails" "U1" "1700000100.000100" None;
                markedMessage "Typo on the home page" "U1" "1700000050.000100";
                userMessage "Old request" "U9" "1700000010.000100" None ];
       h_next_cursor := None |} ].

(** The same history without the marker. *)
Definition unmarkedHistory : list HistoryPage :=
  [ {| h_messages :=
         Some [ userMessage "Search is broken" "U5" "1700000500.000100" None;
                userMessage "Crash on save" "U4" "1700000400.000100" None ];
       h_next_cursor := None |} ].

(** [a] was posted before [b]: Slack timestamps have a fixed width, so
    their order is the order of the strings. *)
Definition postedBefore (a b : SlackMessage) : Prop :=
  String.ltb (default "" (ts a)) (default "" (ts b)) = true.

(** A message is triaged when the clock reads 1700000100000; then the
    clock reaches that time plus twenty-four hours and one minute. *)
Definition dayLaterEvents : list Event :=
  [ EvClock 1700000100000;
    EvSlack (userMessage "Login fails" "U1" "1700000100.000100" None);
    EvSettle 0 sampleWorld;
    EvSettle 0 sampleWorld;
    EvClock (1700000100000 + (24 * 60 + 1) * 60 * 1000) ].

Definition dayLaterState : Sys :=
  Eval vm_compute in default initial (run sampleConfig initial dayLaterEvents).



(** The message [msg] passes the guards of the message listener, with the
    user, the timestamp and the channel it carries, and does not mention
    the bot. *)
Record Accepted (cfg : Config) (msg : SlackMessage)
    (msg_user msg_ts msg_channel : string) : Prop := {
  acc_user : user msg = Some msg_user;
  acc_ts : ts msg = Some msg_ts;
  acc_channel : channel msg = Some msg_channel;
  acc_user_truthy : msg_user ≠ "";
  acc_ts_truthy : msg_ts ≠ "";
  acc_channel_monitored : msg_channel = slackChannelId cfg;
  acc_channel_truthy : msg_channel ≠ "";
  acc_content :
    (JS.truthy (text msg) || JS.nonempty (attachments msg) || JS.nonempty (files msg))%bool
    = true;
  acc_not_bot : JS.truthy (bot_id msg) = false;
  acc_subtype :
    JS.truthy (subtype msg) = false ∨ subtype msg = Some "file_share";
  acc_no_mention :
    match text msg with
    | Some t => JS.includes ("<@" +:+ botUserId cfg +:+ ">") t
    | None => false
    end = false;
}.

(** The deletion of the first message of [sampleEvents], with the thread
    key Slack sends for a message that started a thread, and an edit of
    that message that changes its text. *)
Definition sampleDeleted : DeletedData :=
  {| x_messageTs := "1700000100.000100"; x_channel := "C0FEEDBACK";
     x_threadTs := Some "1700000100.000100" |}.

Definition sampleEdited : EditedData :=
  {| e_messageTs := "1700000100.000100";
     e_newText := Text.of_string "Login fails on Safari";
     e_previousText := Text.of_string "Login fails"; e_userId := "U1";
     e_channel := "C0FEEDBACK" |}.

Definition sampleMessageTicket : MessageTicket :=
  {| m_ticketId := "uuid-42"; m_ticketIdentifier := "ENG-42";
     m_ticketUrl := Some "https://linear.app/acme/issue/ENG-42";
     m_createdAt := 1700000100000; m_wasTriaged := true; m_action := created |}.

Definition sampleThreadTicket : ThreadTicket :=
  {| t_ticketId := "uuid-42"; t_ticketIdentifier := "ENG-42";
     t_createdAt := 1700000100000;
     t_isDuplicate := false; t_isDeferred := false; t_originalContext := None;
     t_originalReporterId := Some "U1" |}.

(** ** More properties of runs *)

(** The relation of a write that preserves [P]. *)
Definition keeps (P : Store → Prop) (now : Z) (st st' : Store) : Prop :=
  P st → P st'.

(** The relation of a write that leaves the set of processed timestamps
    as it is. *)
Definition sameProcessed (now : Z) (st st' : Store) : Prop :=
  processedMessages st' = processedMessages st.

(** The set of processed timestamps holds no timestamp twice and at most
    1000 of them. *)
Definition BoundedSet (st : Store) : Prop :=
  NoDup (processedMessages st) ∧ length (processedMessages st) ≤ 1000.

(** Every message entry was triaged exactly when its action is [created]
    or [duplicate]. *)
Definition TriagedFlagOk (st : Store) : Prop :=
  ∀ k e, messageTicketMap st !! k = Some e →
         m_wasTriaged e = isTicketAction (m_action e).

(** The suspended handlers of a state respect [R], which may depend on the
    item that is handled. *)
Definition PendingOk (R : QueuedMessage → Z → Store → Store → Prop) (s : Sys) : Prop :=
  ∀ d, d ∈ drains s → respects (R (current d)) (resumptions (current d)) (pending d).

(** What the handler of [item] may write at clock reading [now]: the
    handlers of thread replies, direct commands and edits nothing; that of
    an orphan thread or of a deferred follow-up the entry of its thread;
    that of a deletion the entry of its message and of its thread key;
    that of a new message the entries of its timestamp, the other entries
    being kept or, past the age bound, removed. None writes the set of
    processed timestamps. *)
Definition ownWrites (item : QueuedMessage) (now : Z) (st st' : Store) : Prop :=
  processedMessages st' = processedMessages st
  ∧ match item with
    | QThreadReply _ | QDirectCommand _ | QMessageEdited _ => st' = st
    | QOrphanThread data =>
        messageTicketMap st' = messageTicketMap st
        ∧ ∀ k, k ≠ o_threadTs data → threadTicketMap st' !! k = threadTicketMap st !! k
    | QDeferredFollowup data =>
        messageTicketMap st' = messageTicketMap st
        ∧ ∀ k, k ≠ d_threadTs data → threadTicketMap st' !! k = threadTicketMap st !! k
    | QMessageDeleted data =>
        (∀ k, k ≠ x_messageTs data →
              messageTicketMap st' !! k = messageTicketMap st !! k)
        ∧ (∀ k, x_threadTs data ≠ Some k →
                threadTicketMap st' !! k = threadTicketMap st !! k)
    | QNew data =>
        ∀ k, n_ts data ≠ Some k →
          (∀ e, threadTicketMap st' !! k = Some e → threadTicketMap st !! k = Some e)
          ∧ (∀ e, threadTicketMap st !! k = Some e →
                  (now - t_createdAt e ≤ maxAge)%Z →
                  threadTicketMap st' !! k = Some e)
          ∧ (∀ e, messageTicketMap st' !! k = Some e → messageTicketMap st !! k = Some e)
          ∧ (∀ e, messageTicketMap st !! k = Some e →
                  (now - m_createdAt e ≤ maxAge)%Z →
                  messageTicketMap st' !! k = Some e)
    end.

(** A top-level message has been delivered and its handler awaits the
    triager. *)
Definition busyEvents : list Event :=
  [ EvClock 1700000100000;
    EvSlack (userMessage "Login fails" "U1" "1700000100.000100" None) ].

(** [msg.text?.includes(`<@${botUserId}>`)], read as a condition. *)
Definition isBotMentioned (cfg : Config) (msg : SlackMessage) : bool :=
  match text msg with
  | Some t => JS.includes ("<@" +:+ botUserId cfg +:+ ">") t
  | None => false
  end.

(** A deferred thread entry has no ticket identifier, any other entry has
    one. *)
Definition IdentifierOk (st : Store) : Prop :=
  ∀ k e, threadTicketMap st !! k = Some e →
         if t_isDeferred e then t_ticketIdentifier e = "" else t_ticketIdentifier e ≠ "".

(** The bot is mentioned in a thread that has a ticket. *)
Definition sampleCommand : SlackMessage :=
  userMessage "<@U0BOT> close this one" "U7" "1700000450.000100"
    (Some "1700000100.000100").

(** ** Start-up: the connection to Linear *)

(** A value thrown by [await linearClient.viewer]: whether it is an
    [Error], and its message. *)
Record Thrown := {
  th_isError : bool;
  th_message : string;
}.

(** [isNetworkError] of [connectToLinearWithRetry]. *)
Definition isNetworkError (e : Thrown) : bool :=
  (th_isError e
   && (JS.includes "fetch failed" (th_message e)
       || JS.includes "ETIMEDOUT" (th_message e)
       || JS.includes "ECONNREFUSED" (th_message e)
       || JS.includes "ENOTFOUND" (th_message e)))%bool.

(** How [connectToLinearWithRetry] ends: it returns after the viewer was
    read at the attempt, it calls [process.exit(1)] at the attempt, or its
    loop runs out and it returns without a connection. *)
Inductive ConnectEnd :=
  | Connected (attempt : nat)
  | Exit1 (attempt : nat)
  | LoopLeft.

(** The loop [for (let attempt = 1; attempt <= maxRetries; attempt++)]
    from [attempt] on, with [fuel] iterations to go. [viewer] gives, for
    each attempt, what the read of [linearClient.viewer] throws, if it
    throws; [sleeps] are the delays of the [setTimeout] calls so far, in
    milliseconds. *)
Fixpoint connectLoop (viewer : nat → option Thrown) (maxRetries : nat)
    (initialDelayMs : Z) (fuel attempt : nat) (sleeps : list Z)
    : ConnectEnd * list Z :=
  match fuel with
  | O => (LoopLeft, sleeps)
  | S fuel' =>
      match viewer attempt with
      | None => (Connected attempt, sleeps)
      | Some e =>
          if (isNetworkError e && Nat.ltb attempt maxRetries)%bool
          then connectLoop viewer maxRetries initialDelayMs fuel' (S attempt)
                 (sleeps ++ [(initialDelayMs * 2 ^ (Z.of_nat attempt - 1))%Z])
          else (Exit1 attempt, sleeps)
      end
  end.

(** [connectToLinearWithRetry()], with its default arguments. *)
Definition connectToLinearWithRetry (viewer : nat → option Thrown)
    : ConnectEnd * list Z :=
  connectLoop viewer 5 2000 5 1 [].

(** ** The verdicts of the triager ([agent.ts]) *)

Module Agent.

(** A message of the stream that [query] returns, as far as the entry
    points look at it: an assistant message with the text the loop reads
    (the message itself when it is a string, else its JSON
    serialisation), a result message with its [result] field when it has
    one, or a message of another type. *)
Inductive SDKMessage :=
  | assistant (text : string)
  | result (resultText : option string)
  | other.

(** A run of the agent: the messages the stream yields and, when the
    iteration then fails, the message of the failure. *)
Record Run := {
  messages : list SDKMessage;
  failure : option string;
}.

(** [/([A-Z]+-\d+)/], from the start of [s]: group 1. *)
Definition identifierAt (s : string) : option string :=
  let '(letters, rest) := Pattern.span Pattern.isUpper s in
  if String.eqb letters "" then None
  else match rest with
       | String "-" rest' =>
           let '(digits, _) := Pattern.span Pattern.isDigit rest' in
           if String.eqb digits "" then None
           else Some (letters +:+ "-" +:+ digits)
       | _ => None
       end.

Definition matchIdentifier (s : string) : option string :=
  Pattern.firstMatch identifierAt s.

(** The characters of the class of the URL pattern: all but white space,
    a closing parenthesis, a greater-than sign, a closing bracket and a
    double quote. *)
Definition isUrlChar (c : ascii) : bool :=
  negb (JS.is_space c || Ascii.eqb c ")" || Ascii.eqb c ">" || Ascii.eqb c "]"
        || Ascii.eqb c (ascii_of_nat 34))%bool.

(** The URL pattern, the literal [https://linear.app/] followed by one or
    more characters of its class, from the start of [s]: the whole
    match. *)
Definition urlAt (s : string) : option string :=
  match Pattern.after "https://linear.app/" s with
  | Some rest =>
      let '(path, _) := Pattern.span isUrlChar rest in
      if String.eqb path "" then None else Some ("https://linear.app/" +:+ path)
  | None => None
  end.

Definition matchUrl (s : string) : option string := Pattern.firstMatch urlAt s.

(** The id pattern, from the start of [s]: the quoted word [id], white
    space, a colon, white space, and a quoted non-empty value without
    double quote, which is group 1. *)
Definition idAt (s : string) : option string :=
  match Pattern.after (Pattern.dq +:+ "id" +:+ Pattern.dq) s with
  | Some rest =>
      match JS.trimStart rest with
      | String ":" rest' =>
          match JS.trimStart rest' with
          | String q value =>
              if Ascii.eqb q (ascii_of_nat 34) then
                let '(id, closing) :=
                  Pattern.span (λ c, negb (Ascii.eqb c (ascii_of_nat 34))) value in
                if String.eqb id "" then None
                else match closing with
                     | String _ _ => Some id
                     | EmptyString => None
                     end
              else None
          | EmptyString => None
          end
      | _ => None
      end
  | None => None
  end.

Definition matchId (s : string) : option string := Pattern.firstMatch idAt s.

(** The test that makes every loop pass over an assistant message. *)
Definition isSynthetic (text : string) : bool :=
  (JS.includes (Pattern.dq +:+ "model" +:+ Pattern.dq +:+ ":" +:+ Pattern.dq
                +:+ "<synthetic>" +:+ Pattern.dq) text
   || JS.includes (Pattern.dq +:+ "input_tokens" +:+ Pattern.dq +:+ ":0") text)%bool.

(** [if (m && !captured) captured = m]. *)
Definition capture (captured m : option string) : option string :=
  match m with
  | Some _ => if JS.truthy captured then captured else m
  | None => captured
  end.

(** The variables of the loop of [triageMessage]. *)
Record TriageState := {
  finalResult : TriageResult;
  capturedTicketId : option string;
  capturedTicketUrl : option string;
  capturedTicketIdentifier : option string;
  linkedToExisting : bool;
  isDeferred : bool;
}.

Definition triageStart : TriageState :=
  {| finalResult := {| r_action := skipped; r_ticketId := None; r_ticketUrl := None;
                       r_ticketIdentifier := None; r_message := "No action taken" |};
     capturedTicketId := None; capturedTicketUrl := None;
     capturedTicketIdentifier := None;
     linkedToExisting := false; isDeferred := false |}.

(** One pass through the body of the loop of [triageMessage]. *)
Definition triageStep (st : TriageState) (message : SDKMessage) : TriageState :=
  match message with
  | assistant text =>
      if isSynthetic text then st
      else
        let id := capture (capturedTicketId st) (matchId text) in
        let url := capture (capturedTicketUrl st) (matchUrl text) in
        let identifier := capture (capturedTicketIdentifier st) (matchIdentifier text) in
        let lower := Pattern.toLowerCase text in
        {| finalResult := finalResult st;
           capturedTicketId := id;
           capturedTicketUrl := url;
           capturedTicketIdentifier := identifier;
           linkedToExisting :=
             if (JS.includes "existing ticket" lower || JS.includes "duplicate" lower
                 || JS.includes "already tracking" lower
                 || JS.includes "added your report to" lower)%bool
             then true else linkedToExisting st;
           isDeferred :=
             if ((JS.includes "let the team" lower || JS.includes "defer" lower
                  || JS.includes "team can share" lower
                  || JS.includes "team chime in" lower
                  || JS.includes "roadmap" lower)
                 && negb (JS.truthy id) && negb (JS.truthy url))%bool
             then true else isDeferred st |}
  | result (Some resultText) =>
      let url := capture (capturedTicketUrl st) (matchUrl resultText) in
      let identifier :=
        capture (capturedTicketIdentifier st) (matchIdentifier resultText) in
      {| finalResult :=
           if (JS.truthy url || JS.truthy identifier)%bool then
             {| r_action := if linkedToExisting st then duplicate else created;
                r_ticketId := capturedTicketId st;
                r_ticketUrl := url;
                r_ticketIdentifier := identifier;
                r_message := resultText |}
           else if isDeferred st then
             {| r_action := deferred; r_ticketId := None; r_ticketUrl := None;
                r_ticketIdentifier := None; r_message := resultText |}
           else
             {| r_action := skipped; r_ticketId := None; r_ticketUrl := None;
                r_ticketIdentifier := None; r_message := resultText |};
         capturedTicketId := capturedTicketId st;
         capturedTicketUrl := url;
         capturedTicketIdentifier := identifier;
         linkedToExisting := linkedToExisting st;
         isDeferred := isDeferred st |}
  | result None | other => st
  end.

(** The body of the [try] of [triageMessage], from the stream on: the
    verdict after the last message, or the failure of the iteration. *)
Definition triageMessage (run : Run) : Outcome TriageResult :=
  match failure run with
  | Some e => Threw e
  | None => Returned (finalResult (foldl triageStep triageStart (messages run)))
  end.

(** The variables of the loop of [triageOrphanThreadReply]. *)
Record OrphanState := {
  o_finalResult : OrphanThreadResult;
  o_capturedTicketId : option string;
  o_capturedTicketUrl : option string;
  o_capturedTicketIdentifier : option string;
  o_addedComment : bool;
}.

Definition orphanStart : OrphanState :=
  {| o_finalResult := {| or_action := o_skipped; or_ticketId := None;
                         or_ticketIdentifier := None; or_message := "No action taken" |};
     o_capturedTicketId := None; o_capturedTicketUrl := None;
     o_capturedTicketIdentifier := None; o_addedComment := false |}.

(** The test of a result text that tells of a skip. *)
Definition tellsSkip (resultText : string) : bool :=
  (JS.includes "skip" (Pattern.toLowerCase resultText)
   || JS.includes "SKIPPED" resultText)%bool.

Definition orphanStep (st : OrphanState) (message : SDKMessage) : OrphanState :=
  match message with
  | assistant text =>
      if isSynthetic text then st
      else
        {| o_finalResult := o_finalResult st;
           o_capturedTicketId := capture (o_capturedTicketId st) (matchId text);
           o_capturedTicketUrl := capture (o_capturedTicketUrl st) (matchUrl text);
           o_capturedTicketIdentifier :=
             capture (o_capturedTicketIdentifier st) (matchIdentifier text);
           o_addedComment :=
             if (JS.includes "linear_add_comment" text
                 || JS.includes "added" (Pattern.toLowerCase text)
                    && JS.includes "comment" (Pattern.toLowerCase text))%bool
             then true else o_addedComment st |}
  | result (Some resultText) =>
      {| o_finalResult :=
           if tellsSkip resultText then
             {| or_action := o_skipped; or_ticketId := None;
                or_ticketIdentifier := None; or_message := resultText |}
           else if (JS.truthy (o_capturedTicketUrl st)
                    || JS.truthy (o_capturedTicketIdentifier st))%bool then
             {| or_action := if o_addedComment st then o_updated else o_created;
                or_ticketId := o_capturedTicketId st;
                or_ticketIdentifier := o_capturedTicketIdentifier st;
                or_message := resultText |}
           else
             {| or_action := o_skipped; or_ticketId := None;
                or_ticketIdentifier := None; or_message := resultText |};
         o_capturedTicketId := o_capturedTicketId st;
         o_capturedTicketUrl := o_capturedTicketUrl st;
         o_capturedTicketIdentifier := o_capturedTicketIdentifier st;
         o_addedComment := o_addedComment st |}
  | result None | other => st
  end.

Definition triageOrphanThreadReply (run : Run) : Outcome OrphanThreadResult :=
  match failure run with
  | Some e => Threw e
  | None => Returned (o_finalResult (foldl orphanStep orphanStart (messages run)))
  end.

(** The variables of the loop of [handleDeferredFollowup]. *)
Record DeferredState := {
  d_finalResult : DeferredFollowupResult;
  d_capturedTicketId : option string;
  d_capturedTicketIdentifier : option string;
}.

Definition deferredStart : DeferredState :=
  {| d_finalResult := {| dr_action := d_no_action; dr_ticketId := None;
                         dr_ticketIdentifier := None; dr_message := "No action taken" |};
     d_capturedTicketId := None; d_capturedTicketIdentifier := None |}.

(** The test of a result text that tells that nothing was done. *)
Definition tellsNoAction (resultText : string) : bool :=
  (JS.includes "NO_ACTION" resultText
   || JS.includes "no action" (Pattern.toLowerCase resultText))%bool.

Definition deferredStep (st : DeferredState) (message : SDKMessage) : DeferredState :=
  match message with
  | assistant text =>
      if isSynthetic text then st
      else
        {| d_finalResult := d_finalResult st;
           d_capturedTicketId := capture (d_capturedTicketId st) (matchId text);
           d_capturedTicketIdentifier :=
             capture (d_capturedTicketIdentifier st) (matchIdentifier text) |}
  | result (Some resultText) =>
      {| d_finalResult :=
           if tellsNoAction resultText then
             {| dr_action := d_no_action; dr_ticketId := None;
                dr_ticketIdentifier := None; dr_message := resultText |}
           else if (JS.truthy (d_capturedTicketId st)
                    || JS.truthy (d_capturedTicketIdentifier st))%bool then
             {| dr_action := d_created;
                dr_ticketId := d_capturedTicketId st;
                dr_ticketIdentifier := d_capturedTicketIdentifier st;
                dr_message := resultText |}
           else
             {| dr_action := d_no_action; dr_ticketId := None;
                dr_ticketIdentifier := None; dr_message := resultText |};
         d_capturedTicketId := d_capturedTicketId st;
         d_capturedTicketIdentifier := d_capturedTicketIdentifier st |}
  | result None | other => st
  end.

Definition handleDeferredFollowup (run : Run) : Outcome DeferredFollowupResult :=
  match failure run with
  | Some e => Threw e
  | None => Returned (d_finalResult (foldl deferredStep deferredStart (messages run)))
  end.

Definition commandStart : DirectCommandResult :=
  {| dcr_action := c_executed; dcr_message := "Command processed" |}.

(** The two tests of the loop of [handleDirectCommand]: an assistant text
    that lists what the bot can do, and a result text that asks back. *)
Definition listsCommands (text : string) : bool :=
  (JS.includes "available commands" (Pattern.toLowerCase text)
   || JS.includes "what can you do" (Pattern.toLowerCase text)
   || JS.includes "here's what i can" (Pattern.toLowerCase text))%bool.

Definition asksBack (resultText : string) : bool :=
  (JS.includes "could you" (Pattern.toLowerCase resultText)
   || JS.includes "please specify" (Pattern.toLowerCase resultText)
   || JS.includes "which ticket" (Pattern.toLowerCase resultText)
   || JS.includes "i need" (Pattern.toLowerCase resultText))%bool.

(** One pass through the body of the loop of [handleDirectCommand], whose
    only variable is [finalResult]. *)
Definition commandStep (finalResult : DirectCommandResult) (message : SDKMessage)
    : DirectCommandResult :=
  match message with
  | assistant text =>
      if isSynthetic text then finalResult
      else if listsCommands text
      then {| dcr_action := c_help; dcr_message := text |}
      else finalResult
  | result (Some resultText) =>
      if asksBack resultText
      then {| dcr_action := c_clarification; dcr_message := resultText |}
      else match dcr_action finalResult with
           | c_help => finalResult
           | _ => {| dcr_action := c_executed; dcr_message := resultText |}
           end
  | result None | other => finalResult
  end.

Definition handleDirectCommand (run : Run) : Outcome DirectCommandResult :=
  match failure run with
  | Some e => Threw e
  | None => Returned (foldl commandStep commandStart (messages run))
  end.

End Agent.

(** ** The tools of the agent ([agent.ts]) *)

Module LinearTools.

(** A label as the tools read it: its id and its name. *)
Record Label := {
  l_id : string;
  l_name : string;
}.

(** How [linear_add_label] and [linear_remove_label] end when the calls
    of the Linear client succeed: with an error text, with a message
    and no update, or with a call of [updateIssue] with the label ids and
    the name of the label added or removed. *)
Inductive LabelOutcome :=
  | NoTeam
  | LabelNotFound (availableLabels : string)
  | AlreadyOnIssue
  | NotOnIssue
  | LabelsUpdated (labelIds : list string) (name : string).

(** [a.toLowerCase() === b.toLowerCase()]. *)
Definition sameName (a b : string) : bool :=
  String.eqb (Pattern.toLowerCase a) (Pattern.toLowerCase b).

(** The body of [linear_add_label], for the team of the issue with its
    labels, if the issue has a team, and the labels of the issue. *)
Definition addLabel (team : option (list Label)) (currentLabels : list Label)
    (labelName : string) : LabelOutcome :=
  match team with
  | None => NoTeam
  | Some labels =>
      match List.find (λ l, sameName (l_name l) labelName) labels with
      | None => LabelNotFound (String.concat ", " (map l_name labels))
      | Some targetLabel =>
          let currentLabelIds := map l_id currentLabels in
          if existsb (String.eqb (l_id targetLabel)) currentLabelIds
          then AlreadyOnIssue
          else LabelsUpdated (currentLabelIds ++ [l_id targetLabel]) (l_name targetLabel)
      end
  end.

(** The body of [linear_remove_label]. *)
Definition removeLabel (currentLabels : list Label) (labelName : string) : LabelOutcome :=
  match List.find (λ l, sameName (l_name l) labelName) currentLabels with
  | None => NotOnIssue
  | Some labelToRemove =>
      LabelsUpdated
        (map l_id (List.filter (λ l, negb (String.eqb (l_id l) (l_id labelToRemove)))
                     currentLabels))
        (l_name labelToRemove)
  end.

(** A header of the upload that Linear asks for. *)
Record Header := {
  hd_key : string;
  hd_value : string;
}.

(** [for (const h of uploadHeaders) headerObj[h.key] = h.value]. *)
Definition setHeaders (headerObj : gmap string string) (uploadHeaders : list Header)
    : gmap string string :=
  foldl (λ obj h, <[hd_key h := hd_value h]> obj) headerObj uploadHeaders.

(** The two headers that both uploads set themselves. *)
Definition ownHeaders (contentType : string) : gmap string string :=
  <["Cache-Control" := "public, max-age=31536000"]>
    (<["Content-Type" := contentType]> ∅).

(** [headerObj] of [uploadImageToLinearCdn]: its own two headers first,
    then those of Linear. *)
Definition cdnHeaders (contentType : string) (uploadHeaders : option (list Header))
    : gmap string string :=
  setHeaders (ownHeaders contentType) (default [] uploadHeaders).

(** [headerObj] of the tool [upload_slack_image_to_linear]: the headers of
    Linear first, then its own two. *)
Definition toolHeaders (contentType : string) (uploadHeaders : option (list Header))
    : gmap string string :=
  <["Cache-Control" := "public, max-age=31536000"]>
    (<["Content-Type" := contentType]> (setHeaders ∅ (default [] uploadHeaders))).

End LinearTools.

Module Mcp.

(** The tools defined with [tool(...)]. *)
Inductive Tool :=
  | getUserInfo | searchIssues | createIssue | addComment | updateIssue | getIssue
  | uploadImageToLinear | replyInThread | addReaction | updateIssueStatus
  | addLabel | removeLabel | assignIssue | closeIssue | reopenIssue | linkIssues
  | updateTitle.

#[global] Instance Tool_eq_dec : EqDecision Tool.
Proof. solve_decision. Defined.

(** The name given to [tool(...)]. *)
Definition toolName (t : Tool) : string :=
  match t with
  | getUserInfo => "slack_get_user_info"
  | searchIssues => "linear_search_issues"
  | createIssue => "linear_create_issue"
  | addComment => "linear_add_comment"
  | updateIssue => "linear_update_issue"
  | getIssue => "linear_get_issue"
  | uploadImageToLinear => "upload_slack_image_to_linear"
  | replyInThread => "slack_reply_in_thread"
  | addReaction => "slack_add_reaction"
  | updateIssueStatus => "linear_update_status"
  | addLabel => "linear_add_label"
  | removeLabel => "linear_remove_label"
  | assignIssue => "linear_assign_issue"
  | closeIssue => "linear_close_issue"
  | reopenIssue => "linear_reopen_issue"
  | linkIssues => "linear_link_issues"
  | updateTitle => "linear_update_title"
  end.

(** The entry points that run the agent. *)
Inductive EntryPoint :=
  | triageMessage | triageOrphanThreadReply | handleThreadReply
  | handleDeferredFollowup | handleDirectCommand | handleMessageEdit
  | handleMessageDelete.

#[global] Instance EntryPoint_eq_dec : EqDecision EntryPoint.
Proof. solve_decision. Defined.

(** The server an entry point passes as [mcpServers]: the key under which
    it is passed, and the tools of the server. *)
Definition server (e : EntryPoint) : string * list Tool :=
  match e with
  | triageMessage | triageOrphanThreadReply =>
      ("triage-tools",
       [getUserInfo; searchIssues; createIssue; addComment; replyInThread;
        uploadImageToLinear])
  | handleThreadReply =>
      ("followup-tools",
       [getUserInfo; getIssue; updateIssue; addComment; replyInThread; addReaction])
  | handleDeferredFollowup =>
      ("deferred-tools",
       [getUserInfo; searchIssues; createIssue; addComment; replyInThread])
  | handleDirectCommand =>
      ("command-tools",
       [getUserInfo; getIssue; updateIssue; addComment; replyInThread; searchIssues;
        createIssue; updateIssueStatus; addLabel; removeLabel; assignIssue;
        closeIssue; reopenIssue; linkIssues; updateTitle])
  | handleMessageEdit =>
      ("edit-handler-tools", [getUserInfo; getIssue; updateIssue; addComment])
  | handleMessageDelete => ("delete-handler-tools", [addComment])
  end.

(** The [allowedTools] of each entry point. *)
Definition allowedTools (e : EntryPoint) : list string :=
  match e with
  | triageMessage | triageOrphanThreadReply =>
      [ "mcp__triage-tools__slack_get_user_info";
        "mcp__triage-tools__linear_search_issues";
        "mcp__triage-tools__linear_create_issue";
        "mcp__triage-tools__linear_add_comment";
        "mcp__triage-tools__slack_reply_in_thread" ]
  | handleThreadReply =>
      [ "mcp__followup-tools__slack_get_user_info";
        "mcp__followup-tools__linear_get_issue";
        "mcp__followup-tools__linear_update_issue";
        "mcp__followup-tools__linear_add_comment";
        "mcp__followup-tools__slack_reply_in_thread";
        "mcp__followup-tools__slack_add_reaction" ]
  | handleDeferredFollowup =>
      [ "mcp__deferred-tools__slack_get_user_info";
        "mcp__deferred-tools__linear_search_issues";
        "mcp__deferred-tools__linear_create_issue";
        "mcp__deferred-tools__linear_add_comment";
        "mcp__deferred-tools__slack_reply_in_thread" ]
  | handleDirectCommand =>
      [ "mcp__command-tools__slack_get_user_info";
        "mcp__command-tools__linear_get_issue";
        "mcp__command-tools__linear_update_issue";
        "mcp__command-tools__linear_add_comment";
        "mcp__command-tools__slack_reply_in_thread";
        "mcp__command-tools__linear_search_issues";
        "mcp__command-tools__linear_create_issue";
        "mcp__command-tools__linear_update_status";
        "mcp__command-tools__linear_add_label";
        "mcp__command-tools__linear_remove_label";
        "mcp__command-tools__linear_assign_issue";
        "mcp__command-tools__linear_close_issue";
        "mcp__command-tools__linear_reopen_issue";
        "mcp__command-tools__linear_link_issues";
        "mcp__command-tools__linear_update_title" ]
  | handleMessageEdit =>
      [ "mcp__edit-handler-tools__slack_get_user_info";
        "mcp__edit-handler-tools__linear_get_issue";
        "mcp__edit-handler-tools__linear_update_issue";
        "mcp__edit-handler-tools__linear_add_comment" ]
  | handleMessageDelete => [ "mcp__delete-handler-tools__linear_add_comment" ]
  end.

(** The name under which the agent sees a tool of a server. *)
Definition qualified (serverName : string) (t : Tool) : string :=
  "mcp__" +:+ serverName +:+ "__" +:+ toolName t.

(** The tools an entry point may call: those of its server whose
    qualified name is allowed. *)
Definition callable (e : EntryPoint) : list Tool :=
  List.filter (λ t, existsb (String.eqb (qualified (fst (server e)) t)) (allowedTools e))
    (snd (server e)).

End Mcp.

(** What a handler has pushed when the loop over [files] is left, in
    the world [w]: what [pick] takes of the result of each upload of an
    image that succeeds, in the order of the files. *)
Definition uploadedBy {A : Type} (w : World) (pick : ImageUploadResult → A)
    (files : list SlackFile) : list A :=
  omap (λ file,
          match perform w (uploadImageToLinearCdn (f_url_private file) (f_name file)
                             (f_mimetype file)) with
          | Returned (Some r) => Some (pick r)
          | _ => None
          end)
       (List.filter isImage files).

(** A screenshot and a log file. *)
Definition sampleScreenshot : SlackFile :=
  {| f_id := "F01"; f_name := "login.png"; f_mimetype := "image/png";
     f_url_private := "files.slack.com/F01/login.png";
     f_permalink := "https://acme.slack.com/files/U1/F01/login.png" |}.

Definition sampleLogFile : SlackFile :=
  {| f_id := "F02"; f_name := "trace.log"; f_mimetype := "text/plain";
     f_url_private := "files.slack.com/F02/trace.log";
     f_permalink := "https://acme.slack.com/files/U1/F02/trace.log" |}.

(** A history in one page, newest message first: a plain message, a
    message with a log file and a screenshot, and the message that bears
    the marker. *)
Definition imageHistory : list HistoryPage :=
  [ {| h_messages :=
         Some [ userMessage "Export is slow" "U3" "1700000300.000100" None;
                {| text := Some "Login fails, see the screenshot"; user := Some "U1";
                   ts := Some "1700000100.000100"; channel := Some "C0FEEDBACK";
                   thread_ts := None; bot_id := None; subtype := Some "file_share";
                   files := Some [sampleLogFile; sampleScreenshot];
                   attachments := None; reactions := None; message := None;
                   previous_message := None; deleted_ts := None |};
                markedMessage "Typo on the home page" "U1" "1700000050.000100" ];
       h_next_cursor := None |} ].

(** A thread reply to the first message of [sampleEvents], with a log file
    and a screenshot, is being handled. *)
Definition sampleReplyData : ThreadReplyData :=
  {| tr_replyText := Some "any news?"; tr_userId := "U1"; tr_channel := "C0FEEDBACK";
     tr_threadTs := "1700000100.000100"; tr_messageTs := "1700000400.000100";
     tr_ticketId := "uuid-42"; tr_ticketIdentifier := "ENG-42";
     tr_isDuplicate := false; tr_isSameReporter := true;
     tr_files := Some [sampleLogFile; sampleScreenshot] |}.

Definition sampleReplying : Sys :=
  {| clock := 0; store := emptyStore; messageQueue := [];
     isProcessing := true;
     drains := [ {| current := QThreadReply sampleReplyData;
                    pending := processThreadReplyHandler sampleConfig sampleReplyData
                                 emptyStore |} ];
     immediates := 0;
     log := [Pushed (QThreadReply sampleReplyData);
             Started (QThreadReply sampleReplyData)] |}.

(** An optional string that is absent or not empty. *)
Definition captured_ok (v : option string) : Prop := v = None ∨ JS.truthy v = true.

(** No message of the list is a result message with a [result] field. *)
Definition noResultText (l : list Agent.SDKMessage) : Prop :=
  Forall (λ m, ∀ t, m ≠ Agent.result (Some t)) l.

(** What the loop of [triageMessage] keeps true of its variables: a
    capture is absent or not empty, and the verdict so far has a ticket
    action exactly when it carries a URL or an identifier, and carries
    nothing when its action is [skipped] or [deferred]. *)
Record TriageOk (st : Agent.TriageState) : Prop := {
  ok_id : captured_ok (Agent.capturedTicketId st);
  ok_url : captured_ok (Agent.capturedTicketUrl st);
  ok_identifier : captured_ok (Agent.capturedTicketIdentifier st);
  ok_result_id : captured_ok (r_ticketId (Agent.finalResult st));
  ok_result_url : captured_ok (r_ticketUrl (Agent.finalResult st));
  ok_result_identifier : captured_ok (r_ticketIdentifier (Agent.finalResult st));
  ok_result :
    if isTicketAction (r_action (Agent.finalResult st))
    then (JS.truthy (r_ticketUrl (Agent.finalResult st))
          || JS.truthy (r_ticketIdentifier (Agent.finalResult st)))%bool = true
    else (r_action (Agent.finalResult st) = skipped
          ∨ r_action (Agent.finalResult st) = deferred)
         ∧ r_ticketId (Agent.finalResult st) = None
         ∧ r_ticketUrl (Agent.finalResult st) = None
         ∧ r_ticketIdentifier (Agent.finalResult st) = None;
}.

(** What the loops of [triageOrphanThreadReply] and of
    [handleDeferredFollowup] keep true of their variables. *)
Definition OrphanOk (st : Agent.OrphanState) : Prop :=
  captured_ok (Agent.o_capturedTicketId st)
  ∧ captured_ok (Agent.o_capturedTicketIdentifier st)
  ∧ captured_ok (or_ticketId (Agent.o_finalResult st))
  ∧ or_action (Agent.o_finalResult st) ≠ o_error
  ∧ (or_action (Agent.o_finalResult st) = o_skipped →
     or_ticketId (Agent.o_finalResult st) = None
     ∧ or_ticketIdentifier (Agent.o_finalResult st) = None).

Definition DeferredOk (st : Agent.DeferredState) : Prop :=
  captured_ok (Agent.d_capturedTicketId st)
  ∧ captured_ok (Agent.d_capturedTicketIdentifier st)
  ∧ captured_ok (dr_ticketId (Agent.d_finalResult st))
  ∧ dr_action (Agent.d_finalResult st) ≠ d_error
  ∧ (dr_action (Agent.d_finalResult st) = d_no_action →
     dr_ticketId (Agent.d_finalResult st) = None
     ∧ dr_ticketIdentifier (Agent.d_finalResult st) = None).

(** An assistant message that the loop of [handleDirectCommand] takes as
    the list of the commands. *)
Definition isHelpMessage (m : Agent.SDKMessage) : Prop :=
  ∃ text, m = Agent.assistant text
          ∧ Agent.isSynthetic text = false ∧ Agent.listsCommands text = true.

(** The world in which the agent of each entry point with a verdict runs
    as [query] tells. *)
Definition agentWorld (query : Agent.Run) (w : World) : World :=
  {| slack_replies := slack_replies w;
     linear_upload := linear_upload w;
     agent_triage := λ _, Agent.triageMessage query;
     agent_thread_reply := agent_thread_reply w;
     agent_orphan := λ _, Agent.triageOrphanThreadReply query;
     agent_deferred := λ _, Agent.handleDeferredFollowup query;
     agent_direct := λ _, Agent.handleDirectCommand query;
     agent_edit := agent_edit w;
     agent_delete := agent_delete w |}.

(** A run in which the agent creates a ticket and answers in the thread. *)
Definition sampleRun : Agent.Run :=
  {| Agent.messages :=
       [ Agent.other;
         Agent.assistant ("{" +:+ Pattern.dq +:+ "id" +:+ Pattern.dq +:+ ": " +:+ Pattern.dq
                          +:+ "uuid-42" +:+ Pattern.dq +:+ ", " +:+ Pattern.dq +:+ "url"
                          +:+ Pattern.dq +:+ ": " +:+ Pattern.dq
                          +:+ "https://linear.app/acme/issue/ENG-42/login-fails"
                          +:+ Pattern.dq +:+ "}");
         Agent.assistant "Thanks! I created ENG-42 for this.";
         Agent.result (Some "Created ENG-42: https://linear.app/acme/issue/ENG-42/login-fails") ];
     Agent.failure := None |}.

(** * Theorems *)

(** ** The helpers on small inputs *)

Example normalizeText_collapses :
  normalizeText (Text.of_string ("  Login" +:+ newline +:+ "   fails  on Safari "))
  = Text.of_string "Login fails on Safari".
Proof. reflexivity. Qed.

Example normalizeText_blank : normalizeText (Text.of_string "   ") = [].
Proof. reflexivity. Qed.

(** An em space (U+2003) between two words and a byte order mark (U+FEFF)
    before them are white space like any other. *)
Example normalizeText_unicode :
  normalizeText (0xFEFF%N :: Text.of_string "Login" ++ 0x2003%N :: Text.of_string "fails")
  = Text.of_string "Login fails".
Proof. reflexivity. Qed.

(** On a string, the white space of the code units is the white space of
    the characters. *)
Lemma is_space_code_unit (c : ascii) : JS.is_space c = Text.isWhiteSpace (N_of_ascii c).
Proof. by destruct c as [[] [] [] [] [] [] [] []]. Qed.

Example message_link :
  JS.remove_first_dot "1700000100.000100" = "1700000100000100".
Proof. reflexivity. Qed.

Example includes_mention : JS.includes "<@U0BOT>" "hey <@U0BOT> close this" = true.
Proof. reflexivity. Qed.

Example includes_other : JS.includes "<@U0BOT>" "hey <@U0BOX> close this" = false.
Proof. reflexivity. Qed.

Example processable_user_message :
  isProcessableMessage (userMessage "Login fails" "U1" "1700000100.000100" None) = true.
Proof. reflexivity. Qed.

Example processable_thread_root :
  isProcessableMessage
    (userMessage "Login fails" "U1" "1700000100.000100" (Some "1700000100.000100")) = true.
Proof. reflexivity. Qed.

Example unprocessable_reply :
  isProcessableMessage
    (userMessage "same here" "U2" "1700000200.000100" (Some "1700000100.000100")) = false.
Proof. reflexivity. Qed.

Example unprocessable_bot :
  isProcessableMessage (botMessage "Created ENG-41" "1700000450.000100") = false.
Proof. reflexivity. Qed.

Example marker_seen :
  hasRobotReaction (markedMessage "Typo on the home page" "U1" "1700000050.000100") = true.
Proof. reflexivity. Qed.

Example remember_twice :
  rememberAll [] ["1700000100.000100"; "1700000100.000100"; "1700000200.000100"]
  = ["1700000100.000100"; "1700000200.000100"].
Proof. reflexivity. Qed.

Example sweep_boundary :
  cleanupOldThreadMappings (1700000100000 + 24 * 60 * 60 * 1000)
    {[ "1700000100.000100" := sampleThreadTicket ]} !! "1700000100.000100"
  = Some sampleThreadTicket.
Proof. vm_compute. reflexivity. Qed.

(** ** The thread table under the handlers' writes *)

Lemma truthy_Some (o : option string) :
  JS.truthy o = true → ∃ s, o = Some s ∧ s ≠ "".
Proof.
  destruct o as [s|]; simpl; [|done]. intros H. exists s. split; [done|].
  intros ->. done.
Qed.

Lemma eqb_empty_false (s : string) : String.eqb s "" = false → s ≠ "".
Proof. intros H ->. done. Qed.

Lemma or_truthy (a b : option string) :
  (JS.truthy a || JS.truthy b)%bool = true → default "" (JS.or a b) ≠ "".
Proof.
  unfold JS.or. destruct (JS.truthy a) eqn:Ha; simpl.
  - intros _. by destruct (truthy_Some a Ha) as (s & -> & Hs).
  - intros Hb. by destruct (truthy_Some b Hb) as (s & -> & Hs).
Qed.

Lemma exclusive_upgrade e ticketId ticketIdentifier :
  ticketId ≠ "" → exclusive (upgradeDeferred e ticketId ticketIdentifier).
Proof. intros H. exact H. Qed.

Lemma ThreadChange_exclusive now old new :
  ThreadChange now old new →
  (∀ e, old = Some e → exclusive e) → ∀ e, new = Some e → exclusive e.
Proof.
  intros [| |e0 _ Hc He|e0 e1 _ Hc He|e0 id ident Ho Hid] Hold e Hnew.
  - by apply Hold.
  - done.
  - by inversion Hnew; subst.
  - by inversion Hnew; subst.
  - inversion Hnew; subst. by apply exclusive_upgrade.
Qed.

Lemma threadWrites_ok now st st' : threadWrites now st st' → ThreadsOk st → ThreadsOk st'.
Proof.
  intros Hw Hok k e Hk.
  apply (ThreadChange_exclusive now _ _ (Hw k)); [|done]. intros e0. apply Hok.
Qed.

Lemma threadWrites_refl now st : threadWrites now st st.
Proof. intros k. constructor. Qed.

(** A sweep keeps or removes. *)
Lemma cleanup_thread_change now now' (m : gmap string ThreadTicket) k :
  ThreadChange now' (m !! k) (cleanupOldThreadMappings now m !! k).
Proof.
  unfold cleanupOldThreadMappings.
  destruct (filter _ m !! k) as [e|] eqn:E; [|constructor].
  apply map_lookup_filter_Some in E as [-> _]. constructor.
Qed.

Lemma maxAge_pos : (0 < maxAge)%Z.
Proof. reflexivity. Qed.

(** A newly built entry, put where there was none or in the place of the
    entry that was there. *)
Lemma ThreadChange_written now old e :
  t_createdAt e = now → exclusive e → ThreadChange now old (Some e).
Proof.
  intros Hc He. destruct old as [e0|] eqn:Hold.
  - by apply (entry_replaced now _ e0).
  - by apply entry_created.
Qed.

(** A write followed by the sweep at the same clock reading. *)
Lemma insert_cleanup_change now (m : gmap string ThreadTicket) key e k :
  t_createdAt e = now → exclusive e →
  ThreadChange now (m !! k) (cleanupOldThreadMappings now (<[key := e]> m) !! k).
Proof.
  intros Hc He. destruct (decide (key = k)) as [->|Hne].
  - unfold cleanupOldThreadMappings.
    assert (H : filter (λ kv : string * ThreadTicket,
                          ¬ (now - t_createdAt kv.2 > maxAge)%Z) (<[k := e]> m) !! k
                = Some e).
    { apply map_lookup_filter_Some. split; [apply lookup_insert_eq|].
      simpl. rewrite Hc. pose proof maxAge_pos. lia. }
    rewrite H. by apply ThreadChange_written.
  - pose proof (cleanup_thread_change now now (<[key := e]> m) k) as H.
    by rewrite lookup_insert_ne in H.
Qed.

Lemma recordTriage_writes data msg_ts result now st :
  threadWrites now st (recordTriage data msg_ts result now st).
Proof.
  intros k. unfold recordTriage. simpl.
  destruct (isTicketAction (r_action result)
            && (JS.truthy (r_ticketId result) || JS.truthy (r_ticketIdentifier result)))%bool
    eqn:Hticket; simpl.
  - apply andb_true_iff in Hticket as [_ Ht].
    apply insert_cleanup_change; [done|]. by apply or_truthy.
  - destruct (bool_decide (r_action result = deferred)); simpl.
    + by apply insert_cleanup_change.
    + constructor.
Qed.

Lemma recordOrphan_writes data result now st :
  threadWrites now st (recordOrphan data result now st).
Proof.
  intros k. unfold recordOrphan.
  destruct (or_action result), (or_ticketId result) as [ticketId|];
    try constructor;
    (destruct (String.eqb ticketId "") eqn:Hid; [constructor|]);
    apply eqb_empty_false in Hid; simpl;
    (destruct (decide (o_threadTs data = k)) as [->|Hne];
       [rewrite lookup_insert_eq; by apply ThreadChange_written
       |rewrite lookup_insert_ne by done; constructor]).
Qed.

Lemma recordDeferred_writes data result now st :
  threadWrites now st (recordDeferred data result now st).
Proof.
  intros k. unfold recordDeferred.
  destruct (dr_action result), (dr_ticketId result) as [ticketId|]; try constructor.
  destruct (String.eqb ticketId "") eqn:Hid; [constructor|].
  apply eqb_empty_false in Hid.
  destruct (threadTicketMap st !! d_threadTs data) as [existing|] eqn:Hex; [|constructor].
  simpl. destruct (decide (d_threadTs data = k)) as [<-|Hne].
  - rewrite lookup_insert_eq, Hex. by constructor.
  - rewrite lookup_insert_ne by done. constructor.
Qed.

Lemma forgetDeleted_threads data st :
  threadTicketMap (forgetDeleted data st)
  = if JS.truthy (x_threadTs data)
    then delete (default "" (x_threadTs data)) (threadTicketMap st)
    else threadTicketMap st.
Proof.
  unfold forgetDeleted. destruct (x_threadTs data) as [t|]; simpl; [|done].
  by destruct (String.eqb t "").
Qed.

Lemma forgetDeleted_messages data st :
  messageTicketMap (forgetDeleted data st)
  = delete (x_messageTs data) (messageTicketMap st).
Proof.
  unfold forgetDeleted. destruct (x_threadTs data) as [t|]; simpl; [|done].
  by destruct (String.eqb t "").
Qed.

Lemma forgetDeleted_processed data st :
  processedMessages (forgetDeleted data st) = processedMessages st.
Proof.
  unfold forgetDeleted. destruct (x_threadTs data) as [t|]; simpl; [|done].
  by destruct (String.eqb t "").
Qed.

Lemma forgetDeleted_writes data now st : threadWrites now st (forgetDeleted data st).
Proof.
  intros k. rewrite forgetDeleted_threads.
  destruct (JS.truthy (x_threadTs data)); [|constructor].
  destruct (decide (default "" (x_threadTs data) = k)) as [->|Hne].
  - rewrite lookup_delete_eq. constructor.
  - rewrite lookup_delete_ne by done. constructor.
Qed.

Lemma respects_Await R n {A} (c : Call A) write next :
  respects R (S n) (Await c write next) →
  ∀ r now st, R now st (write r now st) ∧ respects R n (next r now st).
Proof. intros H. exact H. Qed.

Lemma respects_mono R n m p : n ≤ m → respects R n p → respects R m p.
Proof.
  revert m p. induction n as [|n IH]; intros m p Hle H; [done|].
  destruct m as [|m]; [lia|]. destruct p as [| |A c write next]; try done.
  intros r now st. destruct (respects_Await _ _ _ _ _ H r now st) as [H1 H2].
  split; [done|]. apply (IH m); [lia|done].
Qed.

(** A handler within the bound of its item stays within it when it is
    resumed. *)
Lemma respects_resumed R item {A} (c : Call A) write next :
  respects R (resumptions item) (Await c write next) →
  ∀ r now st, R now st (write r now st) ∧ respects R (resumptions item) (next r now st).
Proof.
  intros H r now st.
  destruct (respects_Await R (2 + _) c write next H r now st) as [H1 H2].
  split; [done|]. apply (respects_mono _ _ _ _ (Nat.le_succ_diag_r _) H2).
Qed.

(** The upload loop writes nothing and adds one awaited call for each
    image. *)
Lemma respects_uploadLoop R {A} (pick : ImageUploadResult → A) n files :
  ∀ uploaded k,
    (∀ now st, R now st st) →
    (∀ pushed, respects R n (k pushed)) →
    respects R (n + length (List.filter isImage files)) (uploadLoop pick files uploaded k).
Proof.
  induction files as [|file rest IH]; intros uploaded k Hrefl Hk; simpl.
  - rewrite Nat.add_0_r. apply Hk.
  - destruct (isImage file); simpl.
    + rewrite Nat.add_succ_r. intros r now st. split; [apply Hrefl|]. by apply IH.
    + by apply IH.
Qed.

(** The part that looks for a forwarded message writes nothing and adds
    at most one awaited call. *)
Lemma respects_detectForwarded R cfg msg_attachments k n :
  (∀ now st, R now st st) →
  (∀ forwardedMessage, respects R n (k forwardedMessage)) →
  respects R (S n) (detectForwarded cfg msg_attachments k).
Proof.
  intros Hrefl Hk.
  assert (Hk' : ∀ forwardedMessage, respects R (S n) (k forwardedMessage)).
  { intros fw. apply (respects_mono _ n); [lia|apply Hk]. }
  unfold detectForwarded. repeat case_match; try apply Hk'.
  intros r now st. split; [apply Hrefl|apply Hk].
Qed.

(** Every handler ends within the bound of its item, and writes nothing
    but after the call of the triager has returned: the handler of a new
    message what [recordTriage] writes, that of an orphan thread what
    [recordOrphan] writes, that of a deferred follow-up what
    [recordDeferred] writes, and that of a deletion what [forgetDeleted]
    writes. *)
Lemma dispatch_writes cfg (R : QueuedMessage → Z → Store → Store → Prop) :
  (∀ item now st, R item now st st) →
  (∀ data msg_ts result now st,
     n_ts data = Some msg_ts →
     R (QNew data) now st (recordTriage data msg_ts result now st)) →
  (∀ data result now st, R (QOrphanThread data) now st (recordOrphan data result now st)) →
  (∀ data result now st,
     R (QDeferredFollowup data) now st (recordDeferred data result now st)) →
  (∀ data now st, R (QMessageDeleted data) now st (forgetDeleted data st)) →
  ∀ item st, respects (R item) (resumptions item) (dispatch cfg item st).
Proof.
  intros Hrefl Hnew Horphan Hdeferred Hdeleted item st.
  assert (Hlast : ∀ item' {A} (c : Call A) write,
    (∀ r now st', R item' now st' (write r now st')) →
    respects (R item') 2 (Await c write (λ _ _ _, Ret))).
  { intros item' A c write Hw r now st'. split; [apply Hw|exact I]. }
  destruct item as [data|data|data|data|data|data|data]; unfold resumptions;
    cbn [dispatch filesOf default].
  - unfold processNewMessage. destruct (n_ts data) as [msg_ts|] eqn:Hts; [|exact I].
    apply (respects_detectForwarded _ _ _ _ (2 + _)); [apply Hrefl|]. intros fw.
    apply respects_uploadLoop; [apply Hrefl|]. intros images.
    apply Hlast. intros r now st'. by apply Hnew.
  - apply respects_uploadLoop; [apply Hrefl|]. intros urls threadResult now st'.
    split; [apply Hrefl|]. apply Hlast. intros. apply Hrefl.
  - apply respects_uploadLoop; [apply Hrefl|]. intros urls threadResult now st'.
    split; [apply Hrefl|]. apply Hlast. intros. apply Horphan.
  - apply respects_uploadLoop; [apply Hrefl|]. intros urls threadResult now st'.
    split; [apply Hrefl|]. apply Hlast. intros. apply Hdeferred.
  - apply respects_uploadLoop; [apply Hrefl|]. intros urls. unfold directCommandWith.
    case_match.
    + intros threadResult now st'. split; [apply Hrefl|]. apply Hlast.
      intros. apply Hrefl.
    + apply (respects_mono _ 2); [lia|]. apply Hlast. intros. apply Hrefl.
  - unfold processEditedMessageHandler. repeat case_match; try exact I.
    apply (respects_mono _ 2); [lia|]. apply Hlast. intros. apply Hrefl.
  - unfold processDeletedMessageHandler. repeat case_match; try exact I.
    apply (respects_mono _ 2); [lia|]. apply Hlast. intros. apply Hdeleted.
Qed.

(** Each write of a handler creates, replaces, upgrades, removes or keeps
    each thread entry. *)
Lemma dispatch_respects cfg item st :
  respects threadWrites (resumptions item) (dispatch cfg item st).
Proof.
  apply (dispatch_writes cfg (λ _, threadWrites));
    auto using threadWrites_refl, recordTriage_writes, recordOrphan_writes,
      recordDeferred_writes, forgetDeleted_writes.
Qed.

(** ** The queue invariant *)

Lemma pushes_app l1 l2 : pushes (l1 ++ l2) = pushes l1 ++ pushes l2.
Proof. unfold pushes. apply omap_app. Qed.

Lemma starts_app l1 l2 : starts (l1 ++ l2) = starts l1 ++ starts l2.
Proof. unfold starts. apply omap_app. Qed.

Lemma serial_app l1 l2 b b' :
  serial b l1 = Some b' → serial b (l1 ++ l2) = serial b' l2.
Proof.
  revert b. induction l1 as [|o l1 IH]; intros b H; simpl in *.
  - by inversion H.
  - destruct o, b; try discriminate; by apply IH.
Qed.

Lemma serial_inFlight l : ∀ b b' n,
  serial b l = Some b' →
  (0 ≤ Z.b2z b + inFlight (take n l) ≤ 1)%Z.
Proof.
  induction l as [|o l IH]; intros b b' n H.
  - rewrite take_nil. simpl. destruct b; simpl; lia.
  - destruct n as [|n]; [simpl; destruct b; simpl; lia|].
    simpl in H. simpl take.
    destruct o, b; try discriminate; simpl inFlight;
      specialize (IH _ _ n H); simpl Z.b2z in *; lia.
Qed.

(** The goals of an invariant, field by field. *)
Ltac split_inv := split; [split; simpl; try done|try done].

Lemma Inv0_push item s : Inv0 s → Inv0 (push item s).
Proof.
  intros [H1 H2 H3 H4 H5 H6]. split; simpl; try done.
  - rewrite starts_app, pushes_app. simpl. rewrite app_nil_r, app_assoc. by f_equal.
  - rewrite (serial_app _ _ _ _ H4). done.
Qed.

Section Queue.

Context (cfg : Config).

Lemma Inv_processQueue s : Inv0 s → Inv (processQueue cfg s).
Proof.
  intros [H1 H2 H3 H4 H5 H6]. unfold processQueue.
  destruct (isProcessing s) eqn:Hp; simpl.
  { split; [split; rewrite ?Hp; done|]. rewrite Hp. done. }
  destruct (messageQueue s) as [|item rest] eqn:Hq; simpl.
  { split; [split; rewrite ?Hp, ?Hq; done|]. done. }
  unfold whileLoop. simpl. rewrite Hq. simpl.
  destruct (drains s) as [|? ?] eqn:Hd; [|done].
  split_inv.
  - rewrite starts_app, pushes_app. simpl. rewrite app_nil_r, <- H3, <- app_assoc. done.
  - rewrite (serial_app _ _ _ _ H4). done.
  - intros d Hin. apply list_elem_of_singleton in Hin as ->. apply dispatch_respects.
Qed.

Lemma Inv_Inv0 s : Inv s → Inv0 s.
Proof. by intros [? ?]. Qed.

Lemma Inv_enqueue item s : Inv0 s → Inv (enqueue cfg item s).
Proof. intros H. apply Inv_processQueue, Inv0_push, H. Qed.

Lemma Inv0_withStore st s :
  threadTicketMap st = threadTicketMap (store s) → Inv0 s → Inv0 (withStore st s).
Proof.
  intros Heq [H1 H2 H3 H4 H5 H6]. split; try done.
  intros k e. simpl. rewrite Heq. apply H5.
Qed.

(** The message listener leaves the two ticket maps as they are. *)
Lemma classify_store st msg item st' :
  classify cfg st msg = Some (item, st') →
  threadTicketMap st' = threadTicketMap st
  ∧ messageTicketMap st' = messageTicketMap st.
Proof.
  unfold classify. intros H.
  repeat (case_match; try discriminate); inversion H; subst; done.
Qed.

Lemma Inv_deliver msg s : Inv s → Inv (deliver cfg msg s).
Proof.
  intros H. unfold deliver.
  assert (H1 : Inv (onMessage cfg msg s)).
  { unfold onMessage.
    destruct (classify cfg (store s) msg) as [[item st']|] eqn:Hc; [|done].
    apply Inv_enqueue, Inv0_withStore, Inv_Inv0, H.
    apply (classify_store _ _ _ _ Hc). }
  assert (H2 : Inv (onMessageChanged cfg msg (onMessage cfg msg s))).
  { unfold onMessageChanged. destruct (classifyEdit cfg msg); [|done].
    apply Inv_enqueue, Inv_Inv0, H1. }
  unfold onMessageDeleted. destruct (classifyDelete cfg msg); [|done].
  apply Inv_enqueue, Inv_Inv0, H2.
Qed.

Lemma Inv0_pushAll items s : Inv0 s → Inv0 (foldl (λ acc item, push item acc) s items).
Proof.
  revert s. induction items as [|item items IH]; intros s H; simpl; [done|].
  apply IH, Inv0_push, H.
Qed.

Lemma Inv_recover history s : Inv s → Inv (recoverAtStartup cfg history s).
Proof.
  intros H. unfold recoverAtStartup, recoverMissedMessages.
  set (s' := foldl _ _ _).
  assert (H0 : Inv0 s') by (apply Inv0_pushAll, Inv_Inv0, H).
  destruct (Nat.ltb_spec 0 (length (messageQueue s'))).
  - by apply Inv_processQueue.
  - split; [done|]. intros _. destruct (messageQueue s'); [done|simpl in *; lia].
Qed.

(** After the handler awaited by the only invocation has settled, with the
    observation [o] of its end, the loop goes on. *)
Lemma Inv_continueLoop s d o :
  Inv s → drains s = [d] → isEnd o → Inv (continueLoop cfg 0 (observe o s)).
Proof.
  intros [[H1 H2 H3 H4 H5 H6] H7] Hd Ho.
  assert (Hp : isProcessing s = true).
  { destruct (isProcessing s); [done|]. rewrite Hd in H1. done. }
  unfold continueLoop, whileLoop. simpl.
  assert (Hst : starts (log s ++ [o]) = starts (log s)).
  { rewrite starts_app. destruct o; simpl; try done; by rewrite app_nil_r. }
  assert (Hpu : pushes (log s ++ [o]) = pushes (log s)).
  { rewrite pushes_app. destruct o; simpl; try done; by rewrite app_nil_r. }
  assert (Hse : serial false (log s ++ [o]) = Some false).
  { rewrite (serial_app _ _ _ _ H4), Hp. destruct o; simpl; done. }
  destruct (messageQueue s) as [|item rest] eqn:Hq; simpl.
  - rewrite Hd. split_inv.
    + by rewrite Hq.
    + by rewrite Hq, Hst, Hpu.
    + intros ? Hin. by apply elem_of_nil in Hin.
  - rewrite Hd, Hp. split_inv.
    + rewrite starts_app, pushes_app, Hst, Hpu. simpl.
      by rewrite app_nil_r, <- H3, <- app_assoc.
    + rewrite (serial_app _ _ _ _ Hse). done.
    + intros ? Hin. apply list_elem_of_singleton in Hin as ->. apply dispatch_respects.
Qed.

Lemma Inv_single s i d :
  Inv s → drains s !! i = Some d → i = 0 ∧ drains s = [d] ∧ isProcessing s = true.
Proof.
  intros [[H1 _ _ _ _ _] _] Hi.
  destruct (drains s) as [|d0 [|d1 ds]] eqn:Hd; destruct (isProcessing s);
    simpl in *; try done.
  destruct i as [|i]; simpl in *; [by inversion Hi|done].
Qed.

Lemma Inv_resume s d w : Inv s → drains s = [d] → Inv (resume cfg 0 d w s).
Proof.
  intros H Hd. unfold resume.
  destruct (pending d) as [|err|R c write next] eqn:Hpd.
  - by apply (Inv_continueLoop s d).
  - by apply (Inv_continueLoop s d).
  - destruct (perform w c) as [r|err].
    + destruct H as [[H1 H2 H3 H4 H5 H6] H7]. rewrite Hd. simpl.
      assert (Hb : respects threadWrites (resumptions (current d)) (pending d))
        by (apply H6; rewrite Hd; by left).
      rewrite Hpd in Hb.
      destruct (respects_resumed _ _ _ _ _ Hb r (clock s) (store s)) as [Hw Hn].
      split_inv.
      * by rewrite Hd in H1.
      * by apply (threadWrites_ok (clock s) (store s)).
      * intros d' Hin. by apply list_elem_of_singleton in Hin as ->.
    + by apply (Inv_continueLoop s d).
Qed.

Lemma Inv_step s ev s' : Inv s → step cfg s ev = Some s' → Inv s'.
Proof.
  intros H Hs. destruct ev as [msg|item| |history|i w| |now]; simpl in Hs.
  - inversion Hs. by apply Inv_deliver.
  - inversion Hs. apply Inv_enqueue, Inv_Inv0, H.
  - inversion Hs. apply Inv_processQueue, Inv_Inv0, H.
  - inversion Hs. by apply Inv_recover.
  - destruct (drains s !! i) as [d|] eqn:Hi; [|done]. inversion Hs.
    destruct (Inv_single s i d H Hi) as (-> & Hd & _). by apply Inv_resume.
  - destruct H as [[_ H2 _ _ _ _] _]. by rewrite H2 in Hs.
  - inversion Hs. destruct H as [[? ? ? ? ? ?] ?]. by split; [split|].
Qed.

Lemma Inv_initial : Inv initial.
Proof.
  split_inv.
  intros d Hin. by apply elem_of_nil in Hin.
Qed.

Lemma Inv_run evs : ∀ s s', Inv s → run cfg s evs = Some s' → Inv s'.
Proof.
  induction evs as [|ev evs IH]; intros s s' H Hr; simpl in Hr.
  - by inversion Hr; subst.
  - destruct (step cfg s ev) as [s1|] eqn:Hs; [|done].
    apply (IH s1); [|done]. by apply (Inv_step s ev).
Qed.

Lemma pushes_continueLoop s o :
  isEnd o → pushes (log (continueLoop cfg 0 (observe o s))) = pushes (log s).
Proof.
  intros Ho. unfold continueLoop, whileLoop. simpl.
  destruct (messageQueue s); simpl; rewrite ?pushes_app; destruct o; simpl; try done;
    by rewrite ?app_nil_r.
Qed.

Lemma pushes_resume s d w : pushes (log (resume cfg 0 d w s)) = pushes (log s).
Proof.
  unfold resume. destruct (pending d); [| |destruct (perform w c)];
    try (by apply pushes_continueLoop); done.
Qed.

(** The only invocation, resumed again and again, empties the queue: with
    [k] bounding what is left of the current handler, [k] resumptions and
    those of the bound of each queued item are enough. *)
Lemma drain_completes : ∀ m s d k ws,
  Inv s → drains s = [d] → respects threadWrites k (pending d) →
  k + sum_list_with resumptions (messageQueue s) ≤ m → m ≤ length ws →
  ∃ n s', n ≤ m
    ∧ run cfg s (map (EvSettle 0) (take n ws)) = Some s'
    ∧ isProcessing s' = false ∧ messageQueue s' = []
    ∧ pushes (log s') = pushes (log s).
Proof.
  induction m as [|m IH]; intros s d k ws H Hd Hb Hm Hws.
  { destruct k; [done|lia]. }
  destruct k as [|k]; [done|].
  destruct ws as [|w ws]; [simpl in Hws; lia|]. simpl in Hws.
  pose proof (Inv_resume s d w H Hd) as H1.
  pose proof (pushes_resume s d w) as Hpu.
  (* either the invocation ended, or it is suspended again with less to do *)
  assert (Hcases :
    (isProcessing (resume cfg 0 d w s) = false ∧ messageQueue (resume cfg 0 d w s) = [])
    ∨ ∃ d' k', drains (resume cfg 0 d w s) = [d'] ∧ respects threadWrites k' (pending d')
        ∧ k' + sum_list_with resumptions (messageQueue (resume cfg 0 d w s)) ≤ m).
  { assert (Hloop : ∀ o,
      (isProcessing (continueLoop cfg 0 (observe o s)) = false
       ∧ messageQueue (continueLoop cfg 0 (observe o s)) = [])
      ∨ ∃ d' k', drains (continueLoop cfg 0 (observe o s)) = [d']
          ∧ respects threadWrites k' (pending d')
          ∧ k' + sum_list_with resumptions
                   (messageQueue (continueLoop cfg 0 (observe o s))) ≤ m).
    { intros o. unfold continueLoop, whileLoop. simpl.
      destruct (messageQueue s) as [|item rest] eqn:Hq; simpl.
      - by left.
      - right. rewrite Hd. simpl. eexists _, (resumptions item). split; [done|]. simpl.
        split; [apply dispatch_respects|]. simpl in Hm. lia. }
    unfold resume. destruct (pending d) as [|err|R c write next] eqn:Hpd; try apply Hloop.
    destruct (perform w c) as [r|err]; [|apply Hloop].
    right. rewrite Hd. simpl. eexists _, k. split; [done|]. simpl.
    split; [apply (respects_Await _ _ _ _ _ Hb)|]. lia. }
  destruct Hcases as [[Hidle Hq]|(d' & k' & Hd' & Hb' & Hm')].
  - exists 1, (resume cfg 0 d w s). split; [lia|]. simpl. rewrite Hd. simpl. done.
  - destruct (IH _ d' k' ws H1 Hd' Hb' Hm' ltac:(lia)) as (n & s' & Hn & Hr & Hi & Hq & Hp).
    exists (S n), s'. split; [lia|]. simpl. rewrite Hd. simpl.
    split; [done|]. split; [done|]. split; [done|]. by rewrite Hp.
Qed.

(** C1. In every run, the handlers are invoked in the order in which the
    items were pushed; at every point of the run at most one handler is in
    flight and at most one invocation of [processQueue] is suspended,
    exactly when the latch is set, and none is scheduled with
    [setImmediate]; with the latch set, a call of
    [processQueue] changes nothing and an enqueue is a bare push; an idle
    queue is empty, every pushed item having been handled; and an active
    invocation, resumed often enough, handles all that is queued with no
    other call of [processQueue]: it takes at most three resumptions, and
    one more for each image to upload, for the item in hand and for each
    queued item. *)
Theorem queue_fifo_single_flight evs s :
  run cfg initial evs = Some s →
  starts (log s) ++ messageQueue s = pushes (log s)
  ∧ (∀ n, 0 ≤ inFlight (take n (log s)) ≤ 1)%Z
  ∧ length (drains s) = (if isProcessing s then 1 else 0)
  ∧ immediates s = 0
  ∧ (isProcessing s = true →
       processQueue cfg s = s ∧ ∀ item, enqueue cfg item s = push item s)
  ∧ (isProcessing s = false → messageQueue s = [] ∧ starts (log s) = pushes (log s))
  ∧ (∀ ws, sum_list_with resumptions (backlog s) ≤ length ws →
       ∃ n s', run cfg s (map (EvSettle 0) (take n ws)) = Some s'
               ∧ isProcessing s' = false
               ∧ starts (log s') = pushes (log s)).
Proof.
  intros Hr. pose proof (Inv_run evs _ _ Inv_initial Hr) as H.
  pose proof H as [[H1 H2 H3 H4 H5 H6] H7].
  split; [done|]. split.
  { intros n. pose proof (serial_inFlight _ _ _ n H4) as Hn. simpl in Hn. lia. }
  split; [done|]. split; [done|]. split.
  { intros Hp. unfold enqueue, processQueue. simpl. rewrite Hp. simpl. done. }
  split.
  { intros Hp. specialize (H7 Hp). split; [done|]. by rewrite H7, app_nil_r in H3. }
  intros ws Hws. destruct (isProcessing s) eqn:Hp.
  - destruct (drains s) as [|d [|]] eqn:Hd; try done.
    unfold backlog in Hws. rewrite Hd in Hws. simpl in Hws.
    destruct (drain_completes
                (resumptions (current d) + sum_list_with resumptions (messageQueue s))
                s d (resumptions (current d)) ws)
      as (n & s' & Hn & Hrun & Hidle & Hq & Hpu); try done; try lia.
    { apply H6. by left. }
    exists n, s'. split; [done|]. split; [done|].
    pose proof (Inv_run _ _ _ H Hrun) as [[_ _ H3' _ _ _] _].
    by rewrite Hq, app_nil_r, Hpu in H3'.
  - exists 0, s. simpl. split; [done|]. split; [done|].
    rewrite (H7 eq_refl), app_nil_r in H3. done.
Qed.

End Queue.

Lemma queue_fifo_single_flight_witness :
  run sampleConfig initial sampleEvents = Some sampleState
  ∧ starts (log sampleState) ++ messageQueue sampleState = pushes (log sampleState).
Proof.
  split; [vm_compute; reflexivity|].
  refine (proj1 (queue_fifo_single_flight sampleConfig sampleEvents sampleState _)).
  vm_compute; reflexivity.
Defined.

(** C2. Whenever the handler awaited by an invocation of [processQueue]
    throws, by itself or because the call it awaited failed, resuming the
    invocation is a step of the system whose result is known field by
    field: the failure is written to the console with the type of the
    item and goes no further, the store is as it was, and the loop goes
    on, invoking the handler of the next queued item if there is one and
    leaving through [finally], with the latch released, if not. *)
Theorem failing_handler_is_caught cfg s i d w err :
  drains s !! i = Some d →
  thrownBy w (pending d) = Some err →
  ∃ s', step cfg s (EvSettle i w) = Some s'
    ∧ store s' = store s
    ∧ log s' = log s
               ++ ConsoleError ("Error processing queued " +:+ type (current d)
                                +:+ " message:") err
               :: match messageQueue s with
                  | next :: _ => [Started next]
                  | [] => []
                  end
    ∧ messageQueue s' = tail (messageQueue s)
    ∧ clock s' = clock s
    ∧ immediates s' = immediates s
    ∧ match messageQueue s with
      | next :: _ =>
          isProcessing s' = isProcessing s
          ∧ drains s' = <[i := {| current := next;
                                  pending := dispatch cfg next (store s) |}]> (drains s)
      | [] =>
          isProcessing s' = false
          ∧ drains s' = delete i (drains s)
      end.
Proof.
  intros Hi Hthrow. exists (resume cfg i d w s). simpl. rewrite Hi.
  split; [done|].
  assert (Hres : resume cfg i d w s
                 = continueLoop cfg i (observe (ConsoleError (errorLine (current d)) err) s)).
  { unfold resume. unfold thrownBy in Hthrow.
    destruct (pending d) as [|e|R c write next]; [done| |].
    - by inversion Hthrow.
    - destruct (perform w c); [done|]. by inversion Hthrow. }
  rewrite Hres. unfold continueLoop, whileLoop, errorLine. simpl.
  destruct (messageQueue s) as [|next rest] eqn:Hq; simpl; rewrite ?Hq; simpl.
  - done.
  - rewrite <- app_assoc. done.
Qed.

Lemma failing_handler_is_caught_witness :
  drains sampleBusy !! 0
  = Some {| current := sampleOrphan;
            pending := dispatch sampleConfig sampleOrphan emptyStore |}
  ∧ thrownBy slackDown (dispatch sampleConfig sampleOrphan emptyStore)
    = Some "slack_webapi_platform_error"
  ∧ ∃ s', step sampleConfig sampleBusy (EvSettle 0 slackDown) = Some s'
          ∧ log s' = log sampleBusy
                     ++ [ConsoleError "Error processing queued orphan_thread message:"
                           "slack_webapi_platform_error";
                         Started sampleEdit]
          ∧ messageQueue s' = [].
Proof.
  split; [reflexivity|]. split; [reflexivity|].
  destruct (failing_handler_is_caught sampleConfig sampleBusy 0
              {| current := sampleOrphan;
                 pending := dispatch sampleConfig sampleOrphan emptyStore |}
              slackDown "slack_webapi_platform_error" eq_refl eq_refl)
    as (s' & Hstep & _ & Hlog & Hq & _).
  exists s'. split; [exact Hstep|]. split; [exact Hlog|exact Hq].
Defined.

(** ** The thread entries *)

Lemma cleanup_insert_same now (m : gmap string ThreadTicket) key e :
  t_createdAt e = now →
  cleanupOldThreadMappings now (<[key := e]> m) !! key = Some e.
Proof.
  intros Hc. apply map_lookup_filter_Some. split; [apply lookup_insert_eq|].
  simpl. rewrite Hc. pose proof maxAge_pos. lia.
Qed.

Lemma recordTriage_threads data msg_ts result now st :
  threadTicketMap (recordTriage data msg_ts result now st)
  = if (isTicketAction (r_action result)
        && (JS.truthy (r_ticketId result) || JS.truthy (r_ticketIdentifier result)))%bool
    then cleanupOldThreadMappings now (<[msg_ts :=
           {| t_ticketId :=
                default "" (JS.or (r_ticketId result) (r_ticketIdentifier result));
              t_ticketIdentifier :=
                default "" (JS.or (r_ticketIdentifier result) (r_ticketId result));
              t_createdAt := now;
              t_isDuplicate := bool_decide (r_action result = duplicate);
              t_isDeferred := false;
              t_originalContext := None;
              t_originalReporterId := n_user data |}]> (threadTicketMap st))
    else if bool_decide (r_action result = deferred)
    then cleanupOldThreadMappings now (<[msg_ts :=
           {| t_ticketId := "";
              t_ticketIdentifier := "";
              t_createdAt := now;
              t_isDuplicate := false;
              t_isDeferred := true;
              t_originalContext := n_text data;
              t_originalReporterId := n_user data |}]> (threadTicketMap st))
    else threadTicketMap st.
Proof. unfold recordTriage. by repeat case_match. Qed.

(** C10, as the code has it. Each path that creates a thread entry
    writes one that satisfies the exclusion, and writes it at its key
    whether or not an entry is there: a created or duplicate outcome with
    a ticket reference gives an entry that is not deferred and has a
    ticket id, a deferred outcome gives a deferred entry without one, an
    orphan thread that was created or updated gives an entry that is not
    deferred and has the ticket id; each is newly built, with the clock
    reading, the user of the item and, but for the deferred one, no
    original context, so that an entry that was there is replaced as a
    whole. The deferred follow-up puts the upgrade of the entry it finds:
    the ticket id of the outcome, its identifier or else its id, the
    deferred flag false, and the other fields of the entry. Every write
    of every handler keeps, removes, creates, replaces or upgrades each
    entry, and in every state of every run all entries of the thread
    table satisfy the exclusion. *)
Theorem thread_entries_exclusive cfg :
  (∀ data msg_ts result now st,
     isTicketAction (r_action result) = true →
     (JS.truthy (r_ticketId result) || JS.truthy (r_ticketIdentifier result))%bool = true →
     let e :=
       {| t_ticketId := default "" (JS.or (r_ticketId result) (r_ticketIdentifier result));
          t_ticketIdentifier :=
            default "" (JS.or (r_ticketIdentifier result) (r_ticketId result));
          t_createdAt := now;
          t_isDuplicate := bool_decide (r_action result = duplicate);
          t_isDeferred := false;
          t_originalContext := None;
          t_originalReporterId := n_user data |} in
     threadTicketMap (recordTriage data msg_ts result now st)
     = cleanupOldThreadMappings now (<[msg_ts := e]> (threadTicketMap st))
     ∧ threadTicketMap (recordTriage data msg_ts result now st) !! msg_ts = Some e
     ∧ t_ticketId e ≠ "")
  ∧ (∀ data msg_ts result now st,
       r_action result = deferred →
       let e :=
         {| t_ticketId := ""; t_ticketIdentifier := ""; t_createdAt := now;
            t_isDuplicate := false; t_isDeferred := true;
            t_originalContext := n_text data;
            t_originalReporterId := n_user data |} in
       threadTicketMap (recordTriage data msg_ts result now st)
       = cleanupOldThreadMappings now (<[msg_ts := e]> (threadTicketMap st))
       ∧ threadTicketMap (recordTriage data msg_ts result now st) !! msg_ts = Some e)
  ∧ (∀ data result now st ticketId,
       or_action result = o_created ∨ or_action result = o_updated →
       or_ticketId result = Some ticketId → ticketId ≠ "" →
       threadTicketMap (recordOrphan data result now st)
       = <[o_threadTs data :=
             {| t_ticketId := ticketId;
                t_ticketIdentifier := JS.or_default (or_ticketIdentifier result) ticketId;
                t_createdAt := now;
                t_isDuplicate := bool_decide (or_action result = o_updated);
                t_isDeferred := false;
                t_originalContext := None;
                t_originalReporterId := Some (o_userId data) |}]> (threadTicketMap st))
  ∧ (∀ data result now st ticketId existing,
       dr_action result = d_created →
       dr_ticketId result = Some ticketId → ticketId ≠ "" →
       threadTicketMap st !! d_threadTs data = Some existing →
       let upgraded :=
         upgradeDeferred existing ticketId
           (JS.or_default (dr_ticketIdentifier result) ticketId) in
       threadTicketMap (recordDeferred data result now st)
       = <[d_threadTs data := upgraded]> (threadTicketMap st)
       ∧ t_ticketId upgraded = ticketId
       ∧ t_ticketIdentifier upgraded = JS.or_default (dr_ticketIdentifier result) ticketId
       ∧ t_ticketIdentifier upgraded ≠ ""
       ∧ t_isDeferred upgraded = false
       ∧ t_createdAt upgraded = t_createdAt existing
       ∧ t_isDuplicate upgraded = t_isDuplicate existing
       ∧ t_originalContext upgraded = t_originalContext existing
       ∧ t_originalReporterId upgraded = t_originalReporterId existing)
  ∧ (∀ (data : DeferredFollowupData) result now st,
       dr_action result ≠ d_created ∨ JS.truthy (dr_ticketId result) = false
       ∨ threadTicketMap st !! d_threadTs data = None →
       recordDeferred data result now st = st)
  ∧ (∀ item st, respects threadWrites (resumptions item) (dispatch cfg item st))
  ∧ (∀ evs s k e,
       run cfg initial evs = Some s →
       threadTicketMap (store s) !! k = Some e →
       if t_isDeferred e then t_ticketId e = "" else t_ticketId e ≠ "").
Proof.
  split.
  { intros data msg_ts result now st Ha Ht e.
    assert (Hmap : threadTicketMap (recordTriage data msg_ts result now st)
                   = cleanupOldThreadMappings now (<[msg_ts := e]> (threadTicketMap st))).
    { rewrite recordTriage_threads, Ha, Ht. done. }
    split; [done|]. rewrite Hmap. split; [by apply cleanup_insert_same|].
    by apply or_truthy. }
  split.
  { intros data msg_ts result now st Ha e.
    assert (Hmap : threadTicketMap (recordTriage data msg_ts result now st)
                   = cleanupOldThreadMappings now (<[msg_ts := e]> (threadTicketMap st))).
    { rewrite recordTriage_threads, Ha. done. }
    split; [done|]. rewrite Hmap. by apply cleanup_insert_same. }
  split.
  { intros data result now st ticketId Ha Hid Hne. unfold recordOrphan.
    rewrite Hid.
    assert (Heqb : String.eqb ticketId "" = false).
    { destruct (String.eqb_spec ticketId ""); done. }
    destruct Ha as [Ha|Ha]; rewrite Ha, Heqb; done. }
  split.
  { intros data result now st ticketId existing Ha Hid Hne Hex. unfold recordDeferred.
    rewrite Ha, Hid, Hex.
    assert (Heqb : String.eqb ticketId "" = false).
    { destruct (String.eqb_spec ticketId ""); done. }
    rewrite Heqb. repeat split; try done.
    simpl. unfold JS.or_default. destruct (dr_ticketIdentifier result) as [t|]; [|done].
    by destruct (String.eqb_spec t ""). }
  split.
  { intros data result now st H. unfold recordDeferred.
    destruct (dr_action result), (dr_ticketId result) as [t|]; try done;
      destruct H as [H|[H|H]]; try done.
    - simpl in H. by destruct (String.eqb t "").
    - rewrite H. by destruct (String.eqb t ""). }
  split; [apply dispatch_respects|].
  intros evs s k e Hr Hk.
  pose proof (Inv_run cfg evs _ _ Inv_initial Hr) as [[_ _ _ _ H5 _] _].
  apply (H5 k e Hk).
Qed.

(** C10, as stated, fails: the upgrade of a deferred entry is not the
    only change of an entry that exists. A message is posted and, while
    its triage is pending, a reply in its thread is queued as a reply in a
    thread without entry. The triage ends with a deferral, which writes a
    deferred entry for the thread, with the text of the message as
    original context and its author as reporter. The handler of the reply
    then creates a ticket and writes its own entry at the key of the
    thread: the deferred entry is replaced by an entry that is not an
    upgrade of it, whatever the ticket, since the original context is
    gone, the reporter is the author of the reply and the creation time
    is that of the reply's handling. No deferred follow-up was ever
    queued. *)
Lemma thread_entry_replaced_counterexample :
  run sampleConfig initial deferralEvents = Some deferredState
  ∧ run sampleConfig deferredState replacementEvents = Some replacedState
  ∧ ∃ e1 e2,
      threadTicketMap (store deferredState) !! "1700000100.000100" = Some e1
      ∧ t_isDeferred e1 = true
      ∧ t_originalContext e1 = Some "Dark mode please"
      ∧ t_originalReporterId e1 = Some "U1"
      ∧ t_createdAt e1 = 1700000100000%Z
      ∧ threadTicketMap (store replacedState) !! "1700000100.000100" = Some e2
      ∧ t_isDeferred e2 = false
      ∧ t_ticketId e2 = "uuid-9"
      ∧ t_originalContext e2 = None
      ∧ t_originalReporterId e2 = Some "U2"
      ∧ t_createdAt e2 = 1700000400000%Z
      ∧ (∀ ticketId ticketIdentifier, e2 ≠ upgradeDeferred e1 ticketId ticketIdentifier)
      ∧ map type (starts (log replacedState)) = ["new"; "orphan_thread"].
Proof.
  split; [vm_compute; reflexivity|]. split; [vm_compute; reflexivity|].
  eexists _, _. split; [vm_compute; reflexivity|].
  repeat (split; [reflexivity|]).
  split; [|vm_compute; reflexivity].
  intros ticketId ticketIdentifier H. apply (f_equal t_originalContext) in H.
  discriminate H.
Qed.

(** ** Expiry *)

Lemma cleanup_thread_lookup now (m : gmap string ThreadTicket) k e :
  cleanupOldThreadMappings now m !! k = Some e
  ↔ m !! k = Some e ∧ (now - t_createdAt e ≤ maxAge)%Z.
Proof.
  unfold cleanupOldThreadMappings. rewrite map_lookup_filter_Some. simpl.
  split; intros [H1 H2]; (split; [done|lia]).
Qed.

Lemma cleanup_message_lookup now (m : gmap string MessageTicket) k e :
  cleanupOldMessageMappings now m !! k = Some e
  ↔ m !! k = Some e ∧ (now - m_createdAt e ≤ maxAge)%Z.
Proof.
  unfold cleanupOldMessageMappings. rewrite map_lookup_filter_Some. simpl.
  split; intros [H1 H2]; (split; [done|lia]).
Qed.

Lemma processQueue_store cfg s : store (processQueue cfg s) = store s.
Proof.
  unfold processQueue.
  destruct (isProcessing s || Nat.eqb (length (messageQueue s)) 0)%bool; [done|].
  unfold whileLoop. simpl. by destruct (messageQueue s).
Qed.

Lemma enqueue_store cfg item s : store (enqueue cfg item s) = store s.
Proof. unfold enqueue. by rewrite processQueue_store. Qed.

Lemma pushAll_store items : ∀ s, store (foldl (λ acc item, push item acc) s items) = store s.
Proof. induction items as [|item items IH]; intros s; simpl; [done|]. by rewrite IH. Qed.

Lemma recover_store cfg history s : store (recoverAtStartup cfg history s) = store s.
Proof.
  unfold recoverAtStartup, recoverMissedMessages.
  destruct (Nat.ltb 0 _); rewrite ?processQueue_store; apply pushAll_store.
Qed.

Lemma deliver_maps cfg msg s :
  threadTicketMap (store (deliver cfg msg s)) = threadTicketMap (store s)
  ∧ messageTicketMap (store (deliver cfg msg s)) = messageTicketMap (store s).
Proof.
  unfold deliver, onMessageDeleted, onMessageChanged, onMessage.
  destruct (classifyDelete cfg msg); destruct (classifyEdit cfg msg);
    destruct (classify cfg (store s) msg) as [[item st']|] eqn:Hc;
    rewrite ?enqueue_store; simpl; try done;
    apply (classify_store _ _ _ _ _ Hc).
Qed.

(** C3, as the code has it. The age bound is applied by the sweeps only:
    a sweep at the clock reading [now] keeps exactly the entries with
    [now - createdAt] at most twenty-four hours, so an entry written at
    [T] outlives a sweep at [T] plus 23 h 59 min and is removed by a sweep
    at [T] plus 24 h 01 min, in both tables. No event other than the
    resumption of a handler changes either table: neither the passing of
    time nor the lookups of the listeners and of the handlers at their
    start remove an entry. The message sweep runs at each write of
    [processNewMessage], with the clock reading of the write. *)
Theorem ttl_applies_at_sweep :
  (∀ now (m : gmap string ThreadTicket) k e,
     cleanupOldThreadMappings now m !! k = Some e
     ↔ m !! k = Some e ∧ (now - t_createdAt e ≤ 24 * 60 * 60 * 1000)%Z)
  ∧ (∀ now (m : gmap string MessageTicket) k e,
       cleanupOldMessageMappings now m !! k = Some e
       ↔ m !! k = Some e ∧ (now - m_createdAt e ≤ 24 * 60 * 60 * 1000)%Z)
  ∧ (∀ (m : gmap string ThreadTicket) k e,
       cleanupOldThreadMappings (t_createdAt e + (23 * 60 + 59) * 60 * 1000)
         (<[k := e]> m) !! k = Some e
       ∧ cleanupOldThreadMappings (t_createdAt e + (24 * 60 + 1) * 60 * 1000)
           (<[k := e]> m) !! k = None)
  ∧ (∀ (m : gmap string MessageTicket) k e,
       cleanupOldMessageMappings (m_createdAt e + (23 * 60 + 59) * 60 * 1000)
         (<[k := e]> m) !! k = Some e
       ∧ cleanupOldMessageMappings (m_createdAt e + (24 * 60 + 1) * 60 * 1000)
           (<[k := e]> m) !! k = None)
  ∧ (∀ cfg s ev s',
       step cfg s ev = Some s' →
       match ev with
       | EvSettle _ _ => True
       | _ => threadTicketMap (store s') = threadTicketMap (store s)
              ∧ messageTicketMap (store s') = messageTicketMap (store s)
       end)
  ∧ (∀ data msg_ts result now st,
       ∃ entry,
         m_createdAt entry = now
         ∧ messageTicketMap (recordTriage data msg_ts result now st)
           = cleanupOldMessageMappings now (<[msg_ts := entry]> (messageTicketMap st))).
Proof.
  split; [apply cleanup_thread_lookup|]. split; [apply cleanup_message_lookup|].
  split.
  { intros m k e. split.
    - apply cleanup_thread_lookup. split; [apply lookup_insert_eq|]. unfold maxAge. lia.
    - destruct (cleanupOldThreadMappings _ _ !! k) as [e'|] eqn:E; [|done].
      apply cleanup_thread_lookup in E as [E1 E2]. rewrite lookup_insert_eq in E1.
      inversion E1; subst. unfold maxAge in E2. lia. }
  split.
  { intros m k e. split.
    - apply cleanup_message_lookup. split; [apply lookup_insert_eq|]. unfold maxAge. lia.
    - destruct (cleanupOldMessageMappings _ _ !! k) as [e'|] eqn:E; [|done].
      apply cleanup_message_lookup in E as [E1 E2]. rewrite lookup_insert_eq in E1.
      inversion E1; subst. unfold maxAge in E2. lia. }
  split.
  { intros cfg s ev s' Hs. destruct ev as [msg|item| |history|i w| |now]; simpl in Hs;
      try done.
    - inversion Hs. apply deliver_maps.
    - inversion Hs. by rewrite enqueue_store.
    - inversion Hs. by rewrite processQueue_store.
    - inversion Hs. by rewrite recover_store.
    - destruct (immediates s); [done|]. inversion Hs. by rewrite processQueue_store.
    - by inversion Hs. }
  intros data msg_ts result now st. unfold recordTriage. eexists. split; [|simpl].
  2: { repeat case_match; reflexivity. }
  reflexivity.
Qed.

Lemma ttl_applies_at_sweep_witness :
  step sampleConfig sampleState (EvClock (1700000100000 + (24 * 60 + 1) * 60 * 1000))
  = Some (default sampleState
            (step sampleConfig sampleState (EvClock (1700000100000 + (24 * 60 + 1) * 60 * 1000))))
  ∧ threadTicketMap
      (store (default sampleState
                (step sampleConfig sampleState (EvClock (1700000100000 + (24 * 60 + 1) * 60 * 1000)))))
    = threadTicketMap (store sampleState).
Proof.
  split; [reflexivity|].
  exact (proj1 (proj1 (proj2 (proj2 (proj2 (proj2 ttl_applies_at_sweep))))
                  sampleConfig sampleState (EvClock (1700000100000 + (24 * 60 + 1) * 60 * 1000))
                  _ eq_refl)).
Defined.

(** C3, as stated, fails. A message is triaged when the clock reads
    1700000100000, which writes its thread entry and its message entry
    with that creation time; when the clock reads 24 h 01 min more, both
    entries are still in the tables, past the age bound, and a reply in
    the thread is classified against the thread entry as a reply to its
    ticket. *)
Lemma ttl_lookup_counterexample :
  run sampleConfig initial dayLaterEvents = Some dayLaterState
  ∧ clock dayLaterState = (1700000100000 + (24 * 60 + 1) * 60 * 1000)%Z
  ∧ (∃ e, threadTicketMap (store dayLaterState) !! "1700000100.000100" = Some e
          ∧ t_createdAt e = 1700000100000%Z
          ∧ (clock dayLaterState - t_createdAt e > maxAge)%Z)
  ∧ (∃ e, messageTicketMap (store dayLaterState) !! "1700000100.000100" = Some e
          ∧ m_createdAt e = 1700000100000%Z
          ∧ (clock dayLaterState - m_createdAt e > maxAge)%Z)
  ∧ (∃ data, classify sampleConfig (store dayLaterState)
               (userMessage "any news?" "U1" "1700086560.000100"
                  (Some "1700000100.000100"))
             = Some (QThreadReply data, store dayLaterState)
             ∧ tr_ticketIdentifier data = "ENG-42").
Proof.
  split; [vm_compute; reflexivity|]. split; [reflexivity|].
  split; [eexists; split; [vm_compute; reflexivity|split; reflexivity]|].
  split; [eexists; split; [vm_compute; reflexivity|split; reflexivity]|].
  eexists. split; [vm_compute; reflexivity|reflexivity].
Qed.

(** ** Recovery *)

Lemma scanPage_spec messages : ∀ missed,
  scanPage messages missed
  = (existsb hasRobotReaction messages,
     missed ++ List.filter isProcessableMessage (beforeMarker messages)).
Proof.
  induction messages as [|msg rest IH]; intros missed; simpl.
  - by rewrite app_nil_r.
  - destruct (hasRobotReaction msg); simpl; [by rewrite app_nil_r|].
    destruct (isProcessableMessage msg); simpl; rewrite IH; [|done].
    by rewrite <- app_assoc.
Qed.

Lemma beforeMarker_app l1 l2 :
  beforeMarker (l1 ++ l2)
  = if existsb hasRobotReaction l1 then beforeMarker l1 else l1 ++ beforeMarker l2.
Proof.
  induction l1 as [|msg l1 IH]; simpl; [done|].
  destruct (hasRobotReaction msg); simpl; [done|].
  rewrite IH. by destruct (existsb hasRobotReaction l1).
Qed.

Lemma beforeMarker_clean l : existsb hasRobotReaction l = false → beforeMarker l = l.
Proof.
  induction l as [|msg l IH]; simpl; [done|].
  destruct (hasRobotReaction msg); simpl; [done|]. intros H. by rewrite IH.
Qed.

(** The scan finds the marker exactly when a scanned message bears it, and
    collects the processable messages scanned before it. *)
Lemma scanHistory_spec pages : ∀ missed,
  scanHistory pages missed
  = (existsb hasRobotReaction (visited pages),
     missed ++ List.filter isProcessableMessage (beforeMarker (visited pages))).
Proof.
  induction pages as [|page more IH]; intros missed; simpl.
  - by rewrite app_nil_r.
  - rewrite scanPage_spec, existsb_app, beforeMarker_app.
    destruct (existsb hasRobotReaction (default [] (h_messages page))) eqn:Hfound; simpl.
    + done.
    + destruct (JS.truthy (h_next_cursor page)); simpl.
      * rewrite IH, List.filter_app, app_assoc.
        by rewrite (beforeMarker_clean _ Hfound).
      * by rewrite !app_nil_r, (beforeMarker_clean _ Hfound).
Qed.

Lemma messageQueue_pushAll items : ∀ s,
  messageQueue (foldl (λ acc item, push item acc) s items) = messageQueue s ++ items.
Proof.
  induction items as [|item items IH]; intros s; simpl; [by rewrite app_nil_r|].
  rewrite IH. simpl. by rewrite <- app_assoc.
Qed.

Lemma StronglySorted_filter {A} (R : relation A) (f : A → bool) l :
  StronglySorted R l → StronglySorted R (List.filter f l).
Proof.
  induction 1 as [|x l Hl IH Hx]; simpl; [constructor|].
  destruct (f x); [|done]. constructor; [done|].
  apply List.Forall_forall. intros y Hy. apply List.filter_In in Hy as [Hy _].
  by apply (proj1 (List.Forall_forall _ _) Hx).
Qed.

Lemma StronglySorted_beforeMarker (R : relation SlackMessage) l :
  StronglySorted R l → StronglySorted R (beforeMarker l).
Proof.
  induction 1 as [|x l Hl IH Hx]; simpl; [constructor|].
  destruct (hasRobotReaction x); [constructor|]. constructor; [done|].
  clear -Hx. induction Hx as [|y l Hy Hl IH]; simpl; [constructor|].
  destruct (hasRobotReaction y); by constructor.
Qed.

Lemma StronglySorted_rev {A} (R : relation A) l :
  StronglySorted (flip R) l → StronglySorted R (rev l).
Proof.
  induction 1 as [|x l Hl IH Hx]; simpl; [constructor|].
  apply StronglySorted_app. split; [|split; [done|repeat constructor]].
  intros x1 x2 H1 H2. apply list_elem_of_singleton in H2 as ->.
  apply list_elem_of_In, in_rev, list_elem_of_In in H1.
  rewrite Forall_forall in Hx. by apply Hx.
Qed.

(** C5. Let [scanned] be the messages the scan meets and [collected] the
    processable ones among those met before the marker. Without a marker
    and with a message collected, recovery produces nothing. With the
    marker, it produces one [new] item for each collected message, in the
    reverse of the order of the scan, and pushes them in that order at the
    end of the queue; so when the scan runs from the newest message to the
    oldest, the items go from the oldest to the newest. *)
Theorem recovery_scan cfg history now :
  let scanned := visited (history (sevenDaysAgo now)) in
  let collected := List.filter isProcessableMessage (beforeMarker scanned) in
  (existsb hasRobotReaction scanned = false → collected ≠ [] →
     recoveredItems cfg history now = [])
  ∧ (existsb hasRobotReaction scanned = true →
       recoveredItems cfg history now = map (recoveredItem cfg) (rev collected)
       ∧ length (recoveredItems cfg history now) = length collected
       ∧ Forall (λ item, type item = "new") (recoveredItems cfg history now)
       ∧ (∀ s, clock s = now →
               messageQueue (recoverMissedMessages cfg history s)
               = messageQueue s ++ map (recoveredItem cfg) (rev collected))
       ∧ (∀ before : relation SlackMessage,
            StronglySorted (flip before) scanned →
            StronglySorted before (rev collected))).
Proof.
  intros scanned collected.
  assert (Hscan : scanHistory (history (sevenDaysAgo now)) [] =
                  (existsb hasRobotReaction scanned, collected)).
  { by rewrite scanHistory_spec. }
  assert (Hitems : existsb hasRobotReaction scanned = true →
            recoveredItems cfg history now = map (recoveredItem cfg) (rev collected)).
  { intros Hfound. unfold recoveredItems. rewrite Hscan, Hfound. simpl.
    destruct collected; done. }
  split.
  { intros Hfound Hne. unfold recoveredItems. rewrite Hscan, Hfound. simpl.
    destruct collected; done. }
  intros Hfound. rewrite (Hitems Hfound).
  split; [done|]. split; [by rewrite length_map, length_rev|].
  split; [apply Forall_forall; intros item Hin;
          apply list_elem_of_fmap in Hin as (msg & -> & _); done|].
  split.
  { intros s Hclock. unfold recoverMissedMessages.
    rewrite messageQueue_pushAll, Hclock. by rewrite (Hitems Hfound). }
  intros before Hsorted. apply StronglySorted_rev.
  by apply StronglySorted_filter, StronglySorted_beforeMarker.
Qed.

Lemma sampleHistory_newest_first :
  StronglySorted (flip postedBefore) (visited sampleHistory).
Proof. repeat (constructor; [|repeat constructor; reflexivity]). constructor. Qed.

Lemma recovery_scan_witness :
  existsb hasRobotReaction (visited sampleHistory) = true
  ∧ existsb hasRobotReaction (visited unmarkedHistory) = false
  ∧ List.filter isProcessableMessage (beforeMarker (visited unmarkedHistory)) ≠ []
  ∧ recoveredItems sampleConfig (λ _, unmarkedHistory) 0 = []
  ∧ map (λ item, match item with QNew data => n_ts data | _ => None end)
      (recoveredItems sampleConfig (λ _, sampleHistory) 0)
    = [Some "1700000100.000100"; Some "1700000200.000100"; Some "1700000300.000100";
       Some "1700000400.000100"; Some "1700000500.000100"]
  ∧ StronglySorted postedBefore
      (rev (List.filter isProcessableMessage (beforeMarker (visited sampleHistory)))).
Proof.
  split; [reflexivity|]. split; [reflexivity|]. split; [discriminate|].
  split.
  { apply (proj1 (recovery_scan sampleConfig (λ _, unmarkedHistory) 0));
      [reflexivity|discriminate]. }
  destruct (proj2 (recovery_scan sampleConfig (λ _, sampleHistory) 0) eq_refl)
    as (Hitems & _ & _ & _ & Hsorted).
  split; [rewrite Hitems; reflexivity|].
  apply Hsorted. apply sampleHistory_newest_first.
Defined.

(** ** The set of processed timestamps *)

Lemma delete_absent (x : string) (l : list string) :
  x ∉ l → StringSet.delete l x = l.
Proof.
  unfold StringSet.delete. induction l as [|y l IH]; intros Hx; [reflexivity|].
  apply not_elem_of_cons in Hx as [Hxy Hl].
  rewrite filter_cons_True by congruence. f_equal. by apply IH.
Qed.

Lemma delete_fresh_head (x : string) (l : list string) :
  x ∉ l → StringSet.delete (x :: l) x = l.
Proof.
  intros Hx. unfold StringSet.delete.
  rewrite filter_cons_False by (intros H; by apply H).
  by apply delete_absent.
Qed.

(** Deleting the elements of a prefix one by one leaves the rest. *)
Lemma delete_prefix (a b : list string) :
  NoDup (a ++ b) → foldl StringSet.delete (a ++ b) a = b.
Proof.
  induction a as [|x a IH]; intros Hnd; [reflexivity|].
  simpl in *. apply NoDup_cons in Hnd as [Hx Hnd].
  rewrite delete_fresh_head by done. by apply IH.
Qed.

Lemma trimProcessed_small (s : list string) :
  length s ≤ 1000 → trimProcessed s = s.
Proof.
  intros H. unfold trimProcessed, StringSet.size.
  destruct (Nat.ltb_spec 1000 (length s)); [lia|done].
Qed.

Lemma trimProcessed_large (s : list string) :
  NoDup s → 1000 < length s → trimProcessed s = drop 500 s.
Proof.
  intros Hnd H. unfold trimProcessed, StringSet.size.
  destruct (Nat.ltb_spec 1000 (length s)); [|lia].
  rewrite <- (take_drop 500 s) at 1. apply delete_prefix. by rewrite take_drop.
Qed.

Lemma rememberAll_snoc s l x :
  rememberAll s (l ++ [x])
  = default (rememberAll s l) (rememberMessage (rememberAll s l) x).
Proof. unfold rememberAll. by rewrite foldl_app. Qed.

Lemma rememberMessage_fresh s x :
  x ∉ s → rememberMessage s x = Some (trimProcessed (s ++ [x])).
Proof.
  intros H. unfold rememberMessage, StringSet.add, StringSet.has.
  by rewrite bool_decide_eq_false_2.
Qed.

Lemma rememberAll_below (l : list string) :
  NoDup l → length l ≤ 1000 → rememberAll [] l = l.
Proof.
  induction l as [|x l IH] using rev_ind; intros Hnd Hlen; [reflexivity|].
  rewrite rememberAll_snoc. rewrite length_app in Hlen. simpl in Hlen.
  apply NoDup_app in Hnd as (Hl & Hx & _).
  rewrite IH by (done || lia).
  rewrite rememberMessage_fresh.
  - simpl. apply trimProcessed_small. rewrite length_app. simpl. lia.
  - intros Hin. apply (Hx x Hin). by left.
Qed.

Lemma distinctb_NoDup (l : list string) : distinctb l = true → NoDup l.
Proof.
  induction l as [|x l IH]; simpl; [constructor|].
  rewrite andb_true_iff, negb_true_iff. intros [Hx Hl].
  constructor; [|by apply IH].
  intros Hin. apply list_elem_of_In in Hin.
  assert (existsb (String.eqb x) l = true); [|congruence].
  apply existsb_exists. exists x. split; [done|apply String.eqb_refl].
Qed.

(** C6. After 1001 distinct timestamps have gone through the listener's
    insertion, starting from the empty set, the set holds the last 501 of
    them, in the order of their insertion: the timestamp inserted at
    position [i], counted from 0, is present exactly when [i] is at least
    500. *)
Theorem dedup_cap (l : list string) :
  NoDup l → length l = 1001 →
  rememberAll [] l = drop 500 l
  ∧ length (rememberAll [] l) = 501
  ∧ ∀ i ts, l !! i = Some ts →
      (StringSet.has (rememberAll [] l) ts = true ↔ 500 ≤ i).
Proof.
  intros Hnd Hlen.
  assert (Heq : rememberAll [] l = drop 500 l).
  { destruct (decide (l = [])) as [->|Hne]; [done|].
    destruct (exists_last Hne) as (l' & x & ->).
    rewrite length_app in Hlen. simpl in Hlen.
    rewrite rememberAll_snoc.
    pose proof Hnd as Hnd'. apply NoDup_app in Hnd' as (Hl & Hx & _).
    rewrite rememberAll_below by (done || lia).
    rewrite rememberMessage_fresh.
    - simpl. apply trimProcessed_large; [done|]. rewrite length_app. simpl. lia.
    - intros Hin. apply (Hx x Hin). by left. }
  rewrite Heq. split; [done|]. split; [rewrite length_drop; lia|].
  intros i ts Hi. unfold StringSet.has. rewrite bool_decide_eq_true.
  split.
  - intros Hin. apply list_elem_of_lookup in Hin as [j Hj].
    rewrite lookup_drop in Hj.
    pose proof (NoDup_lookup _ _ _ _ Hnd Hi Hj). lia.
  - intros Hge. apply list_elem_of_lookup. exists (i - 500).
    rewrite lookup_drop. by replace (500 + (i - 500)) with i by lia.
Qed.

Lemma dedup_cap_witness :
  NoDup sampleTimestamps
  ∧ length sampleTimestamps = 1001
  ∧ length (rememberAll [] sampleTimestamps) = 501.
Proof.
  assert (Hnd : NoDup sampleTimestamps).
  { apply distinctb_NoDup. vm_compute. reflexivity. }
  assert (Hlen : length sampleTimestamps = 1001) by (vm_compute; reflexivity).
  split; [exact Hnd|]. split; [exact Hlen|].
  exact (proj1 (proj2 (dedup_cap sampleTimestamps Hnd Hlen))).
Defined.

(** ** Classification of replies *)

Lemma truthy_false_eqb s : s ≠ "" → String.eqb s "" = false.
Proof. intros H. by destruct (String.eqb_spec s ""). Qed.

(** What the guards of the listener compute for an accepted message. *)
Lemma accepted_guards cfg msg msg_user msg_ts msg_channel :
  Accepted cfg msg msg_user msg_ts msg_channel →
  (negb (JS.truthy (text msg) || JS.nonempty (attachments msg) || JS.nonempty (files msg))
   || String.eqb msg_user "" || String.eqb msg_ts "" || String.eqb msg_channel "")%bool
  = false
  ∧ negb (String.eqb msg_channel (slackChannelId cfg)) = false
  ∧ (JS.truthy (subtype msg) && negb (JS.strict_eq (subtype msg) (Some "file_share")))%bool
    = false.
Proof.
  intros [Hu Ht Hc Hu' Ht' Hch Hch' Hcontent Hbot Hsub Hmention].
  rewrite Hcontent, !truthy_false_eqb by done. split; [done|]. split.
  - rewrite <- Hch, String.eqb_refl. done.
  - destruct Hsub as [->| ->]; [done|]. reflexivity.
Qed.

(** C7. A message that passes the guards of the listener, does not mention
    the bot and carries a thread key [root] different from its own
    timestamp is classified by the entry of [root] in the thread table: a
    deferred entry gives [deferred_followup] with the stored original
    context; an entry that is not deferred gives [thread_reply] with the
    stored ticket id and identifier, the duplicate flag, and the flag that
    tells whether the stored original reporter is the author of the
    reply; no entry gives [orphan_thread]. The store is left as it is. *)
Theorem reply_classification cfg st msg msg_user msg_ts msg_channel root :
  Accepted cfg msg msg_user msg_ts msg_channel →
  thread_ts msg = Some root → root ≠ "" → root ≠ msg_ts →
  classify cfg st msg
  = Some
      (match threadTicketMap st !! root with
       | Some ticketInfo =>
           if t_isDeferred ticketInfo then
             QDeferredFollowup
               {| d_replyText := text msg; d_userId := msg_user;
                  d_channel := msg_channel; d_threadTs := root;
                  d_messageTs := msg_ts; d_files := files msg;
                  d_originalContext := t_originalContext ticketInfo |}
           else
             QThreadReply
               {| tr_replyText := text msg; tr_userId := msg_user;
                  tr_channel := msg_channel; tr_threadTs := root;
                  tr_messageTs := msg_ts;
                  tr_ticketId := t_ticketId ticketInfo;
                  tr_ticketIdentifier := t_ticketIdentifier ticketInfo;
                  tr_isDuplicate := t_isDuplicate ticketInfo;
                  tr_isSameReporter :=
                    bool_decide (t_originalReporterId ticketInfo = Some msg_user);
                  tr_files := files msg |}
       | None =>
           QOrphanThread
             {| o_replyText := text msg; o_userId := msg_user;
                o_channel := msg_channel; o_threadTs := root;
                o_messageTs := msg_ts; o_files := files msg |}
       end, st).
Proof.
  intros Hacc Hroot Hroot' Hne.
  destruct (accepted_guards _ _ _ _ _ Hacc) as (G1 & G2 & G3).
  destruct Hacc as [Hu Ht Hc Hu' Ht' Hch Hch' Hcontent Hbot Hsub Hmention].
  unfold classify. rewrite Hu, Ht, Hc, G1, G2, Hbot, G3, Hmention, Hroot.
  rewrite (truthy_false_eqb root) by done.
  assert (Hts : String.eqb root msg_ts = false).
  { by destruct (String.eqb_spec root msg_ts). }
  rewrite Hts. simpl.
  destruct (threadTicketMap st !! root) as [ticketInfo|]; [|done].
  by destruct (t_isDeferred ticketInfo).
Qed.

Lemma reply_classification_witness :
  Accepted sampleConfig
    (userMessage "any news?" "U1" "1700000400.000100" (Some "1700000100.000100"))
    "U1" "1700000400.000100" "C0FEEDBACK"
  ∧ ∃ data,
      classify sampleConfig (store sampleState)
        (userMessage "any news?" "U1" "1700000400.000100" (Some "1700000100.000100"))
      = Some (QThreadReply data, store sampleState)
      ∧ tr_ticketIdentifier data = "ENG-42"
      ∧ tr_isSameReporter data = true.
Proof.
  assert (Hacc : Accepted sampleConfig
    (userMessage "any news?" "U1" "1700000400.000100" (Some "1700000100.000100"))
    "U1" "1700000400.000100" "C0FEEDBACK").
  { split; try reflexivity; try discriminate. by left. }
  split; [exact Hacc|].
  pose proof (reply_classification sampleConfig (store sampleState) _ _ _ _
                "1700000100.000100" Hacc eq_refl
                ltac:(discriminate) ltac:(discriminate)) as H.
  eexists. split; [exact H|]. split; reflexivity.
Defined.

(** ** Recovery and the set of processed timestamps *)




(** ** Deleted and edited messages *)

Lemma perform_delete_returns w input : perform w (handleMessageDelete input) = Returned tt.
Proof. simpl. unfold try_catch. by destruct (agent_delete w input) as [[]|]. Qed.

Lemma perform_edit_returns w input : perform w (handleMessageEdit input) = Returned tt.
Proof. simpl. unfold try_catch. by destruct (agent_edit w input) as [[]|]. Qed.

(** C8. For a deleted message without a message entry, or with an entry
    that was not triaged, the handler returns at once, and a handler that
    has returned leaves the store as it is. For a message whose entry was
    triaged, the handler awaits [handleMessageDelete] with the recorded
    ticket; that call always returns; when it has, the handler deletes the
    message entry and, if the event carried a thread key, the entry of
    that thread, and is done. Nothing else of the store changes. *)
Theorem deleted_message_handler cfg data st :
  (messageTicketMap st !! x_messageTs data = None →
     processDeletedMessageHandler data st = Ret)
  ∧ (∀ ticketInfo,
       messageTicketMap st !! x_messageTs data = Some ticketInfo →
       m_wasTriaged ticketInfo = false →
       processDeletedMessageHandler data st = Ret)
  ∧ (∀ s i w,
       drains s !! i = Some {| current := QMessageDeleted data; pending := Ret |} →
       ∃ s', step cfg s (EvSettle i w) = Some s' ∧ store s' = store s)
  ∧ (∀ ticketInfo,
       messageTicketMap st !! x_messageTs data = Some ticketInfo →
       m_wasTriaged ticketInfo = true →
       let input :=
         {| xi_ticketId := m_ticketId ticketInfo;
            xi_ticketIdentifier := m_ticketIdentifier ticketInfo;
            xi_messageTs := x_messageTs data;
            xi_action := m_action ticketInfo |} in
       processDeletedMessageHandler data st
       = Await (handleMessageDelete input)
           (λ _ _ st', forgetDeleted data st') (λ _ _ _, Ret)
       ∧ (∀ w, perform w (handleMessageDelete input) = Returned tt)
       ∧ (∀ s i w,
            drains s !! i
            = Some {| current := QMessageDeleted data;
                      pending := processDeletedMessageHandler data st |} →
            ∃ s', step cfg s (EvSettle i w) = Some s'
                  ∧ store s' = forgetDeleted data (store s)
                  ∧ drains s' !! i
                    = Some {| current := QMessageDeleted data; pending := Ret |}))
  ∧ (∀ st',
       messageTicketMap (forgetDeleted data st')
       = delete (x_messageTs data) (messageTicketMap st')
       ∧ threadTicketMap (forgetDeleted data st')
         = (if JS.truthy (x_threadTs data)
            then delete (default "" (x_threadTs data)) (threadTicketMap st')
            else threadTicketMap st')
       ∧ processedMessages (forgetDeleted data st') = processedMessages st').
Proof.
  split.
  { intros H. unfold processDeletedMessageHandler. by rewrite H. }
  split.
  { intros info H Hw. unfold processDeletedMessageHandler. by rewrite H, Hw. }
  split.
  { intros s i w Hi. simpl. rewrite Hi. eexists. split; [done|].
    unfold resume, continueLoop, whileLoop. simpl.
    by destruct (messageQueue s). }
  split.
  { intros info H Hw input.
    assert (Hp : processDeletedMessageHandler data st
                 = Await (handleMessageDelete input)
                     (λ _ _ st', forgetDeleted data st') (λ _ _ _, Ret)).
    { unfold processDeletedMessageHandler. by rewrite H, Hw. }
    split; [done|]. split; [intros w; apply perform_delete_returns|].
    intros s i w Hi. simpl. rewrite Hi. eexists. split; [done|].
    rewrite Hp. unfold resume. cbn [pending current].
    rewrite perform_delete_returns. simpl. split; [done|].
    apply list_lookup_insert_eq. by apply lookup_lt_Some in Hi. }
  intros st'. rewrite forgetDeleted_messages, forgetDeleted_threads, forgetDeleted_processed.
  done.
Qed.

Lemma deleted_message_handler_witness :
  messageTicketMap (store sampleState) !! x_messageTs sampleDeleted
  = Some sampleMessageTicket
  ∧ m_wasTriaged sampleMessageTicket = true
  ∧ perform sampleWorld
      (handleMessageDelete
         {| xi_ticketId := "uuid-42"; xi_ticketIdentifier := "ENG-42";
            xi_messageTs := "1700000100.000100"; xi_action := created |})
    = Returned tt.
Proof.
  assert (H : messageTicketMap (store sampleState) !! x_messageTs sampleDeleted
              = Some sampleMessageTicket) by (vm_compute; reflexivity).
  split; [exact H|]. split; [reflexivity|].
  destruct (proj1 (proj2 (proj2 (proj2
              (deleted_message_handler sampleConfig sampleDeleted (store sampleState)))))
              sampleMessageTicket H eq_refl) as (_ & Hcall & _).
  exact (Hcall sampleWorld).
Defined.

(** ** The normal form of a text *)

Lemma words_trimStart s : words (Text.trimStart s) = words s.
Proof.
  induction s as [|c rest IH]; [done|]. simpl.
  destruct (Text.isWhiteSpace c) eqn:Hc; [done|]. simpl. by rewrite Hc.
Qed.

Lemma headSpace_trimStart s : headSpace (Text.trimStart s) = false.
Proof.
  induction s as [|c rest IH]; [done|]. simpl.
  destruct (Text.isWhiteSpace c) eqn:Hc; [done|]. simpl. exact Hc.
Qed.

Lemma words_head c rest : Text.isWhiteSpace c = false → words (c :: rest) ≠ [].
Proof.
  intros Hc. simpl. rewrite Hc. destruct rest as [|d rest']; [done|].
  destruct (Text.isWhiteSpace d); [done|]. by destruct (words (d :: rest')).
Qed.

Lemma words_space c rest : Text.isWhiteSpace c = true → words (c :: rest) = words rest.
Proof. intros Hc. simpl. by rewrite Hc. Qed.

(** Trimming the end leaves nothing exactly when the text has no word. *)
Lemma trimEnd_nil s : Text.trimEnd s = [] ↔ words s = [].
Proof.
  induction s as [|c rest IH]; [done|].
  destruct (Text.isWhiteSpace c) eqn:Hc.
  - rewrite (words_space c rest Hc), <- IH. simpl. rewrite Hc.
    by destruct (Text.trimEnd rest).
  - split.
    + simpl. rewrite Hc. by destruct (Text.trimEnd rest).
    + intros H. by apply words_head in H.
Qed.

Lemma joinWords_cons c w more :
  joinWords ((c :: w) :: more) = c :: joinWords (w :: more).
Proof. by destruct more. Qed.

Lemma collapse_space b c s :
  Text.isWhiteSpace c = true →
  Text.collapse b (c :: s)
  = if b then Text.collapse true s else 32%N :: Text.collapse true s.
Proof. intros Hc. simpl. by rewrite Hc. Qed.

Lemma collapse_other b c s :
  Text.isWhiteSpace c = false → Text.collapse b (c :: s) = c :: Text.collapse false s.
Proof. intros Hc. simpl. by rewrite Hc. Qed.

(** The blanks that replace the runs of white space of a text trimmed at
    its end separate its words, after one blank for white space at its
    start. *)
Lemma collapse_trimEnd s :
  Text.collapse true (Text.trimEnd s) = joinWords (words s)
  ∧ Text.collapse false (Text.trimEnd s)
    = if headSpace s
      then match words s with
           | [] => []
           | _ => 32%N :: joinWords (words s)
           end
      else joinWords (words s).
Proof.
  induction s as [|c rest [IHt IHf]]; [done|].
  destruct (Text.isWhiteSpace c) eqn:Hc.
  - rewrite (words_space c rest Hc). cbn [headSpace]. rewrite Hc.
    assert (Hnil := trimEnd_nil rest).
    assert (Hend : Text.trimEnd (c :: rest)
                   = match Text.trimEnd rest with [] => [] | kept => c :: kept end).
    { simpl. rewrite Hc. by destruct (Text.trimEnd rest). }
    rewrite Hend. destruct (Text.trimEnd rest) as [|k kept] eqn:Hrest.
    + by rewrite (proj1 Hnil eq_refl).
    + split; [by rewrite collapse_space, IHt|].
      rewrite collapse_space, IHt by done.
      destruct (words rest); [|done]. discriminate (proj2 Hnil eq_refl).
  - assert (Hend : Text.trimEnd (c :: rest) = c :: Text.trimEnd rest).
    { simpl. rewrite Hc. by destruct (Text.trimEnd rest). }
    assert (Hwords : c :: Text.collapse false (Text.trimEnd rest)
                     = joinWords (words (c :: rest))).
    { rewrite IHf. simpl words. rewrite Hc. destruct rest as [|d rest']; [done|].
      cbn [headSpace]. destruct (Text.isWhiteSpace d) eqn:Hd.
      - by destruct (words (d :: rest')).
      - pose proof (words_head d rest' Hd) as Hne.
        destruct (words (d :: rest')) as [|w more]; [done|].
        by rewrite joinWords_cons. }
    rewrite Hend. cbn [headSpace]. rewrite Hc, !collapse_other by done. by split.
Qed.

(** The normal form of a text is its words, joined by single blanks. *)
Lemma normalizeText_words s : normalizeText s = joinWords (words s).
Proof.
  unfold normalizeText, Text.replace_spaces, Text.trim.
  rewrite (proj2 (collapse_trimEnd _)), headSpace_trimStart. by rewrite words_trimStart.
Qed.

Lemma words_are_words s : Forall isWord (words s).
Proof.
  induction s as [|c rest IH]; [constructor|]. simpl.
  destruct (Text.isWhiteSpace c) eqn:Hc; [done|].
  destruct rest as [|d rest']; [by repeat constructor|].
  destruct (Text.isWhiteSpace d) eqn:Hd; [constructor; [by repeat constructor|done]|].
  destruct (words (d :: rest')) as [|w more]; [by repeat constructor|].
  inversion IH as [|? ? [Hw1 Hw2] Hmore]; subst.
  constructor; [|done]. split; [done|]. by constructor.
Qed.

Lemma words_cons c c' s :
  Text.isWhiteSpace c = false → Text.isWhiteSpace c' = false →
  words (c :: c' :: s)
  = match words (c' :: s) with
    | w :: more => (c :: w) :: more
    | [] => [[c]]
    end.
Proof.
  intros Hc Hc'.
  change (words (c :: c' :: s))
    with (if Text.isWhiteSpace c then words (c' :: s)
          else if Text.isWhiteSpace c' then [c] :: words (c' :: s)
               else match words (c' :: s) with
                    | w :: more => (c :: w) :: more
                    | [] => [[c]]
                    end).
  by rewrite Hc, Hc'.
Qed.

(** The words of a word followed by nothing or by white space. *)
Lemma words_app w rest :
  isWord w → headSpace rest = true ∨ rest = [] → words (w ++ rest) = w :: words rest.
Proof.
  intros [Hne Hall] Hrest. induction Hall as [|c w' Hc Hall IH]; [done|].
  destruct w' as [|c' w''].
  - simpl. rewrite Hc. destruct rest as [|d rest']; [done|].
    destruct Hrest as [Hd|?]; [|done]. simpl in Hd. by rewrite Hd.
  - specialize (IH ltac:(done)). inversion Hall as [|? ? Hc' _]; subst.
    change ((c' :: w'') ++ rest) with (c' :: (w'' ++ rest)) in IH.
    change ((c :: c' :: w'') ++ rest) with (c :: c' :: (w'' ++ rest)).
    by rewrite words_cons, IH.
Qed.

Lemma words_joinWords ws : Forall isWord ws → words (joinWords ws) = ws.
Proof.
  induction 1 as [|w more Hw Hmore IH]; [done|].
  destruct more as [|w' more'].
  - simpl. rewrite <- (app_nil_r w) at 1. rewrite words_app; [done|done|by right].
  - change (joinWords (w :: w' :: more')) with (w ++ 32%N :: joinWords (w' :: more')).
    rewrite words_app; [|done|by left]. by rewrite words_space, IH.
Qed.

(** Two texts have the same normal form exactly when they have the same
    words. *)
Lemma normalizeText_same_words a b :
  normalizeText a = normalizeText b ↔ words a = words b.
Proof.
  rewrite !normalizeText_words. split; [|by intros ->].
  intros H. apply (f_equal words) in H.
  by rewrite !words_joinWords in H by apply words_are_words.
Qed.

(** C9. The edit handler returns at once, without calling the triager,
    when the message has no entry, when its entry was not triaged, and
    when the previous and the new text have the same normal form, as the
    texts [Login fails  ] and [Login fails] have. The normal form of a
    text is the text without the white space at its start and at its end
    and with one blank for each run of white space inside: it is the
    words of the text joined by single blanks, so that two texts have
    the same normal form exactly when they have the same words. White
    space is what the language takes as such, the tabulations, the line
    breaks and the blank as well as U+00A0, U+1680, U+2000 to U+200A,
    U+2028, U+2029, U+202F, U+205F, U+3000 and U+FEFF: a text with an em
    space between its two words has the normal form of the text with a
    blank there. Otherwise the handler awaits [handleMessageEdit] with the recorded
    ticket, the previous text as the original, the new text as the edited
    one, the author and the recorded action, and writes nothing when the
    call has returned. *)
Theorem edited_message_handler data st :
  normalizeText (Text.of_string "Login fails  ")
  = normalizeText (Text.of_string "Login fails")
  ∧ (∀ s, normalizeText s = joinWords (words s))
  ∧ (∀ a b, normalizeText a = normalizeText b ↔ words a = words b)
  ∧ (∀ c, Text.isWhiteSpace c = true
          ↔ (9 ≤ c ≤ 13 ∨ c = 32 ∨ c = 0xA0 ∨ c = 0x1680 ∨ 0x2000 ≤ c ≤ 0x200A
             ∨ c = 0x2028 ∨ c = 0x2029 ∨ c = 0x202F ∨ c = 0x205F ∨ c = 0x3000
             ∨ c = 0xFEFF)%N)
  ∧ normalizeText (Text.of_string "Login" ++ 0x2003%N :: Text.of_string "fails")
    = normalizeText (Text.of_string "Login fails")
  ∧ (messageTicketMap st !! e_messageTs data = None →
       processEditedMessageHandler data st = Ret)
  ∧ (∀ ticketInfo,
       messageTicketMap st !! e_messageTs data = Some ticketInfo →
       m_wasTriaged ticketInfo = false →
       processEditedMessageHandler data st = Ret)
  ∧ (normalizeText (e_previousText data) = normalizeText (e_newText data) →
       processEditedMessageHandler data st = Ret)
  ∧ (words (e_previousText data) = words (e_newText data) →
       processEditedMessageHandler data st = Ret)
  ∧ (e_previousText data = Text.of_string "Login fails  " →
     e_newText data = Text.of_string "Login fails" →
       processEditedMessageHandler data st = Ret)
  ∧ (∀ ticketInfo,
       messageTicketMap st !! e_messageTs data = Some ticketInfo →
       m_wasTriaged ticketInfo = true →
       normalizeText (e_previousText data) ≠ normalizeText (e_newText data) →
       processEditedMessageHandler data st
       = Await (handleMessageEdit
                  {| ei_ticketId := m_ticketId ticketInfo;
                     ei_ticketIdentifier := m_ticketIdentifier ticketInfo;
                     ei_originalText := e_previousText data;
                     ei_editedText := e_newText data;
                     ei_userId := e_userId data;
                     ei_action := m_action ticketInfo |})
           (λ _ _ st', st') (λ _ _ _, Ret)).
Proof.
  assert (Hsame : normalizeText (e_previousText data) = normalizeText (e_newText data) →
                  processEditedMessageHandler data st = Ret).
  { intros Heq. unfold processEditedMessageHandler.
    destruct (messageTicketMap st !! e_messageTs data) as [info|]; [|done].
    destruct (m_wasTriaged info); [|done]. simpl.
    by rewrite bool_decide_eq_true_2. }
  split; [reflexivity|]. split; [apply normalizeText_words|].
  split; [apply normalizeText_same_words|]. split.
  { intros c. unfold Text.isWhiteSpace.
    rewrite !orb_true_iff, !andb_true_iff, !N.eqb_eq, !N.leb_le. lia. }
  split; [reflexivity|]. split.
  { intros H. unfold processEditedMessageHandler. by rewrite H. }
  split.
  { intros info H Hw. unfold processEditedMessageHandler. by rewrite H, Hw. }
  split; [exact Hsame|]. split.
  { intros Hw. by apply Hsame, normalizeText_same_words. }
  split.
  { intros Hp Hn. apply Hsame. by rewrite Hp, Hn. }
  intros info H Hw Hne. unfold processEditedMessageHandler. rewrite H, Hw. simpl.
  by rewrite bool_decide_eq_false_2.
Qed.

Lemma edited_message_handler_witness :
  messageTicketMap (store sampleState) !! e_messageTs sampleEdited
  = Some sampleMessageTicket
  ∧ normalizeText (e_previousText sampleEdited) ≠ normalizeText (e_newText sampleEdited)
  ∧ processEditedMessageHandler sampleEdited (store sampleState)
    = Await (handleMessageEdit
               {| ei_ticketId := "uuid-42"; ei_ticketIdentifier := "ENG-42";
                  ei_originalText := Text.of_string "Login fails";
                  ei_editedText := Text.of_string "Login fails on Safari";
                  ei_userId := "U1"; ei_action := created |})
        (λ _ _ st', st') (λ _ _ _, Ret).
Proof.
  assert (H : messageTicketMap (store sampleState) !! e_messageTs sampleEdited
              = Some sampleMessageTicket) by (vm_compute; reflexivity).
  assert (Hne : normalizeText (e_previousText sampleEdited)
                ≠ normalizeText (e_newText sampleEdited)) by (vm_compute; discriminate).
  split; [exact H|]. split; [exact Hne|].
  exact (proj2 (proj2 (proj2 (proj2 (proj2 (proj2 (proj2 (proj2 (proj2 (proj2
           (edited_message_handler sampleEdited (store sampleState)))))))))))
           sampleMessageTicket H eq_refl Hne).
Defined.

Lemma thread_entries_exclusive_witness :
  run sampleConfig initial sampleEvents = Some sampleState
  ∧ threadTicketMap (store sampleState) !! "1700000100.000100" = Some sampleThreadTicket
  ∧ t_ticketId sampleThreadTicket ≠ "".
Proof.
  assert (Hr : run sampleConfig initial sampleEvents = Some sampleState)
    by (vm_compute; reflexivity).
  assert (Hk : threadTicketMap (store sampleState) !! "1700000100.000100"
               = Some sampleThreadTicket) by (vm_compute; reflexivity).
  split; [exact Hr|]. split; [exact Hk|].
  exact (proj2 (proj2 (proj2 (proj2 (proj2 (proj2
           (thread_entries_exclusive sampleConfig))))))
           sampleEvents sampleState "1700000100.000100" sampleThreadTicket Hr Hk).
Defined.

(** * Further properties of the code *)

(** ** What the handlers and the listeners may write *)

Lemma respects_impl (R R' : Z → Store → Store → Prop) n p :
  (∀ now st st', R now st st' → R' now st st') → respects R n p → respects R' n p.
Proof.
  intros HR. revert p. induction n as [|n IH]; intros p H; [done|].
  destruct p as [| |A c write next]; try done.
  intros r now st. destruct (respects_Await _ _ _ _ _ H r now st) as [H1 H2].
  split; [by apply HR|by apply IH].
Qed.

Section Pending.

Context (cfg : Config) (R : QueuedMessage → Z → Store → Store → Prop).
Hypothesis dispatch_R :
  ∀ item st, respects (R item) (resumptions item) (dispatch cfg item st).

Lemma PendingOk_processQueue s : PendingOk R s → PendingOk R (processQueue cfg s).
Proof.
  intros H. unfold processQueue.
  destruct (isProcessing s || Nat.eqb (length (messageQueue s)) 0)%bool; [done|].
  unfold whileLoop. simpl. destruct (messageQueue s) as [|item rest]; simpl.
  - intros d Hd. rewrite app_nil_r in Hd. by apply H.
  - intros d Hd. apply elem_of_app in Hd as [Hd|Hd]; [by apply H|].
    apply list_elem_of_singleton in Hd as ->. apply dispatch_R.
Qed.

Lemma PendingOk_enqueue item s : PendingOk R s → PendingOk R (enqueue cfg item s).
Proof. intros H. by apply PendingOk_processQueue. Qed.

Lemma PendingOk_deliver msg s : PendingOk R s → PendingOk R (deliver cfg msg s).
Proof.
  intros H. unfold deliver, onMessageDeleted, onMessageChanged, onMessage.
  destruct (classifyDelete cfg msg); destruct (classifyEdit cfg msg);
    destruct (classify cfg (store s) msg) as [[item st']|];
    repeat apply PendingOk_enqueue; done.
Qed.

Lemma PendingOk_pushAll items : ∀ s,
  PendingOk R s → PendingOk R (foldl (λ acc item, push item acc) s items).
Proof.
  induction items as [|item items IH]; intros s H; simpl; [done|]. by apply IH.
Qed.

Lemma PendingOk_recover history s :
  PendingOk R s → PendingOk R (recoverAtStartup cfg history s).
Proof.
  intros H. unfold recoverAtStartup, recoverMissedMessages.
  destruct (Nat.ltb 0 _); [apply PendingOk_processQueue|]; by apply PendingOk_pushAll.
Qed.

Lemma PendingOk_continueLoop s d o :
  drains s = [d] → PendingOk R (continueLoop cfg 0 (observe o s)).
Proof.
  intros Hd. unfold continueLoop, whileLoop. simpl.
  destruct (messageQueue s) as [|item rest]; simpl; rewrite Hd; simpl.
  - intros d' Hin. by apply elem_of_nil in Hin.
  - intros d' Hin. apply list_elem_of_singleton in Hin as ->. apply dispatch_R.
Qed.

Lemma PendingOk_resume s d w :
  PendingOk R s → drains s = [d] → PendingOk R (resume cfg 0 d w s).
Proof.
  intros H Hd. unfold resume.
  destruct (pending d) as [|err|A c write next] eqn:Hpd;
    try by apply (PendingOk_continueLoop s d).
  destruct (perform w c) as [r|err]; [|by apply (PendingOk_continueLoop s d)].
  rewrite Hd. simpl. intros d' Hin. apply list_elem_of_singleton in Hin as ->. simpl.
  assert (Hb : respects (R (current d)) (resumptions (current d)) (pending d))
    by (apply H; rewrite Hd; by left).
  rewrite Hpd in Hb.
  by destruct (respects_resumed _ _ _ _ _ Hb r (clock s) (store s)) as [_ Hn].
Qed.

Lemma PendingOk_step s ev s' :
  Inv s → PendingOk R s → step cfg s ev = Some s' → PendingOk R s'.
Proof.
  intros HI H Hs. destruct ev as [msg|item| |history|i w| |now]; simpl in Hs.
  - inversion Hs. by apply PendingOk_deliver.
  - inversion Hs. by apply PendingOk_enqueue.
  - inversion Hs. by apply PendingOk_processQueue.
  - inversion Hs. by apply PendingOk_recover.
  - destruct (drains s !! i) as [d|] eqn:Hi; [|done]. inversion Hs.
    destruct (Inv_single s i d HI Hi) as (-> & Hd & _). by apply PendingOk_resume.
  - destruct (immediates s); [done|]. inversion Hs. by apply PendingOk_processQueue.
  - by inversion Hs.
Qed.

(** In every run, the handlers that are suspended respect [R]. *)
Lemma PendingOk_run evs : ∀ s s',
  Inv s → PendingOk R s → run cfg s evs = Some s' → PendingOk R s'.
Proof.
  induction evs as [|ev evs IH]; intros s s' HI H Hr; simpl in Hr.
  - by inversion Hr; subst.
  - destruct (step cfg s ev) as [s1|] eqn:Hs; [|done].
    apply (IH s1); [by apply (Inv_step cfg s ev)|by apply (PendingOk_step s ev)|done].
Qed.

(** What the resumption of a handler does to the store, when the
    suspended handlers respect a reflexive [R]. *)
Lemma resume_relates s i d w :
  (∀ item now st, R item now st st) →
  PendingOk R s → drains s !! i = Some d →
  R (current d) (clock s) (store s) (store (resume cfg i d w s)).
Proof.
  intros Hrefl H Hi.
  assert (Hloop : ∀ o, store (continueLoop cfg i (observe o s)) = store s).
  { intros o. unfold continueLoop, whileLoop. simpl. by destruct (messageQueue s). }
  unfold resume. destruct (pending d) as [|err|A c write next] eqn:Hpd;
    rewrite ?Hloop; try apply Hrefl.
  destruct (perform w c) as [r|err]; rewrite ?Hloop; try apply Hrefl.
  simpl. assert (Hb : respects (R (current d)) (resumptions (current d)) (pending d)).
  { apply H. by apply list_elem_of_lookup_2 in Hi. }
  rewrite Hpd in Hb. apply (respects_resumed _ _ _ _ _ Hb).
Qed.

End Pending.

(** A property of the store that holds at the start, that the message
    listener preserves and that every write of every handler preserves,
    holds in every state of every run. *)
Lemma store_invariant cfg (P : Store → Prop) :
  P emptyStore →
  (∀ st msg item st', P st → classify cfg st msg = Some (item, st') → P st') →
  (∀ item st, respects (keeps P) (resumptions item) (dispatch cfg item st)) →
  ∀ evs s, run cfg initial evs = Some s → P (store s).
Proof.
  intros H0 Hclassify Hdispatch.
  assert (Hgen : ∀ evs s s',
    Inv s → PendingOk (λ _, keeps P) s → P (store s) →
    run cfg s evs = Some s' → P (store s')).
  { induction evs as [|ev evs IH]; intros s s' HI Hpend HP Hr; simpl in Hr.
    - by inversion Hr; subst.
    - destruct (step cfg s ev) as [s1|] eqn:Hs; [|done].
      apply (IH s1 s'); [by apply (Inv_step cfg s ev)
                         |by apply (PendingOk_step cfg (λ _, keeps P) Hdispatch s ev)| |done].
      destruct ev as [msg|item| |history|i w| |now]; simpl in Hs.
      + inversion Hs. unfold deliver, onMessageDeleted, onMessageChanged, onMessage.
        destruct (classifyDelete cfg msg); destruct (classifyEdit cfg msg);
          destruct (classify cfg (store s) msg) as [[item st']|] eqn:Hc;
          rewrite ?enqueue_store; simpl; try done;
          by apply (Hclassify _ _ _ _ HP Hc).
      + inversion Hs. by rewrite enqueue_store.
      + inversion Hs. by rewrite processQueue_store.
      + inversion Hs. by rewrite recover_store.
      + destruct (drains s !! i) as [d|] eqn:Hi; [|done]. inversion Hs.
        by apply (resume_relates cfg (λ _, keeps P) s i d w (λ _ _ _ H, H) Hpend Hi).
      + destruct (immediates s); [done|]. inversion Hs. by rewrite processQueue_store.
      + by inversion Hs. }
  intros evs s Hr. apply (Hgen evs initial s); try done.
  - apply Inv_initial.
  - intros d Hd. by apply elem_of_nil in Hd.
Qed.

Lemma recordTriage_processed data msg_ts result now st :
  processedMessages (recordTriage data msg_ts result now st) = processedMessages st.
Proof. unfold recordTriage. by repeat case_match. Qed.

Lemma recordOrphan_processed data result now st :
  processedMessages (recordOrphan data result now st) = processedMessages st.
Proof. unfold recordOrphan. by repeat case_match. Qed.

Lemma recordDeferred_processed data result now st :
  processedMessages (recordDeferred data result now st) = processedMessages st.
Proof. unfold recordDeferred. by repeat case_match. Qed.

(** No write of a handler touches the set of processed timestamps. *)
Lemma dispatch_sameProcessed cfg item st :
  respects sameProcessed (resumptions item) (dispatch cfg item st).
Proof.
  apply (dispatch_writes cfg (λ _, sameProcessed)); unfold sameProcessed;
    auto using recordTriage_processed, recordOrphan_processed,
      recordDeferred_processed, forgetDeleted_processed.
Qed.

(** What the message listener does to the store: nothing, or the
    insertion of the timestamp of a top-level message it queues. *)
Lemma classify_processed cfg st msg item st' :
  classify cfg st msg = Some (item, st') →
  st' = st
  ∨ ∃ msg_ts processed',
      ts msg = Some msg_ts
      ∧ rememberMessage (processedMessages st) msg_ts = Some processed'
      ∧ st' = setProcessed (λ _, processed') st.
Proof.
  unfold classify. intros H.
  repeat (case_match; try discriminate); inversion H; subst;
    try (by left); right; eauto.
Qed.

Lemma rememberMessage_bounded processed msg_ts processed' :
  NoDup processed → length processed ≤ 1000 →
  rememberMessage processed msg_ts = Some processed' →
  NoDup processed' ∧ length processed' ≤ 1000 ∧ msg_ts ∈ processed'.
Proof.
  intros Hnd Hlen. unfold rememberMessage, StringSet.add, StringSet.has.
  destruct (bool_decide_reflect (msg_ts ∈ processed)) as [|Hfresh]; [done|].
  intros H. inversion H; subst. clear H.
  assert (Hnd' : NoDup (processed ++ [msg_ts])).
  { apply NoDup_app. split; [done|]. split; [|apply NoDup_singleton].
    intros x Hx Hx'. apply list_elem_of_singleton in Hx' as ->. done. }
  destruct (decide (length processed = 1000)) as [Hfull|Hroom].
  - rewrite trimProcessed_large; [|done|rewrite length_app; simpl; lia].
    split; [apply (sublist_NoDup _ _ Hnd'), sublist_drop|].
    split; [rewrite length_drop, length_app; simpl; lia|].
    rewrite drop_app_le by lia. apply elem_of_app. right. by left.
  - rewrite trimProcessed_small by (rewrite length_app; simpl; lia).
    split; [done|]. split; [rewrite length_app; simpl; lia|].
    apply elem_of_app. right. by left.
Qed.

(** In every state of every run the set of processed timestamps is
    duplicate-free and within its bound. *)
Lemma BoundedSet_run cfg evs s :
  run cfg initial evs = Some s → BoundedSet (store s).
Proof.
  apply (store_invariant cfg BoundedSet).
  - split; [constructor|simpl; lia].
  - intros st msg item st' [Hnd Hlen] Hc.
    destruct (classify_processed _ _ _ _ _ Hc) as [->|(msg_ts & p' & _ & Hr & ->)];
      [done|].
    destruct (rememberMessage_bounded _ _ _ Hnd Hlen Hr) as (H1 & H2 & _). by split.
  - intros item st. apply (respects_impl sameProcessed); [|apply dispatch_sameProcessed].
    intros now st1 st2 Hsame HP. unfold BoundedSet. by rewrite Hsame.
Qed.

(** X1. In every state of every run, the set of processed timestamps holds
    no timestamp twice and never more than 1000 timestamps. *)
Theorem dedup_set_bounded cfg evs s :
  run cfg initial evs = Some s →
  NoDup (processedMessages (store s)) ∧ length (processedMessages (store s)) ≤ 1000.
Proof.
  apply (store_invariant cfg BoundedSet).
  - split; [constructor|simpl; lia].
  - intros st msg item st' [Hnd Hlen] Hc.
    destruct (classify_processed _ _ _ _ _ Hc) as [->|(msg_ts & p' & _ & Hr & ->)];
      [done|].
    destruct (rememberMessage_bounded _ _ _ Hnd Hlen Hr) as (H1 & H2 & _). by split.
  - intros item st. apply (respects_impl sameProcessed); [|apply dispatch_sameProcessed].
    intros now st1 st2 Hsame HP. unfold BoundedSet. by rewrite Hsame.
Qed.

Lemma dedup_set_bounded_witness :
  run sampleConfig initial sampleEvents = Some sampleState
  ∧ length (processedMessages (store sampleState)) ≤ 1000.
Proof.
  assert (Hr : run sampleConfig initial sampleEvents = Some sampleState)
    by (vm_compute; reflexivity).
  split; [exact Hr|].
  exact (proj2 (dedup_set_bounded sampleConfig sampleEvents sampleState Hr)).
Defined.

(** ** The message table *)

Lemma recordTriage_messages data msg_ts result now st :
  messageTicketMap (recordTriage data msg_ts result now st)
  = cleanupOldMessageMappings now (<[msg_ts :=
      {| m_ticketId := JS.or_default (r_ticketId result) "";
         m_ticketIdentifier := JS.or_default (r_ticketIdentifier result) "";
         m_ticketUrl := r_ticketUrl result;
         m_createdAt := now;
         m_wasTriaged := isTicketAction (r_action result);
         m_action := r_action result |}]> (messageTicketMap st)).
Proof. unfold recordTriage. by repeat case_match. Qed.

Lemma recordOrphan_messages data result now st :
  messageTicketMap (recordOrphan data result now st) = messageTicketMap st.
Proof. unfold recordOrphan. by repeat case_match. Qed.

Lemma recordDeferred_messages data result now st :
  messageTicketMap (recordDeferred data result now st) = messageTicketMap st.
Proof. unfold recordDeferred. by repeat case_match. Qed.

Lemma dispatch_keeps_flag cfg item st :
  respects (keeps TriagedFlagOk) (resumptions item) (dispatch cfg item st).
Proof.
  apply (dispatch_writes cfg (λ _, keeps TriagedFlagOk));
    unfold keeps, TriagedFlagOk; try done.
  - intros data msg_ts result now st' _ HP k e.
    rewrite recordTriage_messages, cleanup_message_lookup. intros [Hk _].
    destruct (decide (k = msg_ts)) as [->|Hne].
    + rewrite lookup_insert_eq in Hk. by inversion Hk.
    + rewrite lookup_insert_ne in Hk by done. by apply (HP k).
  - intros data result now st' HP k e. rewrite recordOrphan_messages. apply HP.
  - intros data result now st' HP k e. rewrite recordDeferred_messages. apply HP.
  - intros data now st' HP k e. rewrite forgetDeleted_messages. intros Hk.
    apply lookup_delete_Some in Hk as [_ Hk]. by apply (HP k).
Qed.

(** X2. In every state of every run, each entry of the message table is
    marked as triaged exactly when its recorded action is [created] or
    [duplicate]. *)
Theorem message_entries_flag cfg evs s k e :
  run cfg initial evs = Some s →
  messageTicketMap (store s) !! k = Some e →
  m_wasTriaged e = true ↔ (m_action e = created ∨ m_action e = duplicate).
Proof.
  intros Hr Hk.
  assert (H : TriagedFlagOk (store s)).
  { apply (store_invariant cfg TriagedFlagOk) with (evs := evs); [| | |done].
    - intros k' e' Hk'. simpl in Hk'. by rewrite lookup_empty in Hk'.
    - intros st msg item st' HP Hc k' e'.
      destruct (classify_store cfg _ _ _ _ Hc) as [_ ->]. apply HP.
    - apply dispatch_keeps_flag. }
  rewrite (H k e Hk). unfold isTicketAction. by rewrite bool_decide_eq_true.
Qed.

Lemma message_entries_flag_witness :
  m_wasTriaged sampleMessageTicket = true
  ↔ (m_action sampleMessageTicket = created ∨ m_action sampleMessageTicket = duplicate).
Proof.
  refine (message_entries_flag sampleConfig sampleEvents sampleState
            "1700000100.000100" sampleMessageTicket _ _); vm_compute; reflexivity.
Defined.

(** ** The entries a handler writes *)

Lemma ownWrites_refl item now st : ownWrites item now st st.
Proof. split; [done|]. by destruct item. Qed.

Lemma recordTriage_own data msg_ts result now st :
  n_ts data = Some msg_ts →
  ownWrites (QNew data) now st (recordTriage data msg_ts result now st).
Proof.
  intros Hts. split; [apply recordTriage_processed|]. simpl. intros k Hk.
  assert (Hne : msg_ts ≠ k) by (intros ->; by rewrite Hts in Hk).
  assert (Ht : ∀ e,
    (threadTicketMap (recordTriage data msg_ts result now st) !! k = Some e →
     threadTicketMap st !! k = Some e)
    ∧ (threadTicketMap st !! k = Some e → (now - t_createdAt e ≤ maxAge)%Z →
       threadTicketMap (recordTriage data msg_ts result now st) !! k = Some e)).
  { intros e. unfold recordTriage. repeat case_match; simpl;
      rewrite ?cleanup_thread_lookup, ?lookup_insert_ne by done; tauto. }
  assert (Hm : ∀ e,
    (messageTicketMap (recordTriage data msg_ts result now st) !! k = Some e →
     messageTicketMap st !! k = Some e)
    ∧ (messageTicketMap st !! k = Some e → (now - m_createdAt e ≤ maxAge)%Z →
       messageTicketMap (recordTriage data msg_ts result now st) !! k = Some e)).
  { intros e. rewrite recordTriage_messages, cleanup_message_lookup,
      lookup_insert_ne by done. tauto. }
  repeat split; intros e; [apply Ht|apply Ht|apply Hm|apply Hm].
Qed.

Lemma recordOrphan_own data result now st :
  ownWrites (QOrphanThread data) now st (recordOrphan data result now st).
Proof.
  split; [apply recordOrphan_processed|]. split; [apply recordOrphan_messages|].
  intros k Hk. unfold recordOrphan. repeat case_match; simpl; try done;
    by rewrite lookup_insert_ne.
Qed.

Lemma recordDeferred_own data result now st :
  ownWrites (QDeferredFollowup data) now st (recordDeferred data result now st).
Proof.
  split; [apply recordDeferred_processed|]. split; [apply recordDeferred_messages|].
  intros k Hk. unfold recordDeferred. repeat case_match; simpl; try done;
    by rewrite lookup_insert_ne.
Qed.

Lemma forgetDeleted_own data now st :
  ownWrites (QMessageDeleted data) now st (forgetDeleted data st).
Proof.
  split; [apply forgetDeleted_processed|]. split.
  - intros k Hk. rewrite forgetDeleted_messages. by rewrite lookup_delete_ne.
  - intros k Hk. rewrite forgetDeleted_threads.
    destruct (x_threadTs data) as [t|]; simpl; [|done].
    destruct (String.eqb t ""); simpl; [done|].
    rewrite lookup_delete_ne; [done|]. intros ->. done.
Qed.

Lemma dispatch_ownWrites cfg item st :
  respects (ownWrites item) (resumptions item) (dispatch cfg item st).
Proof.
  apply (dispatch_writes cfg ownWrites);
    auto using ownWrites_refl, recordTriage_own, recordOrphan_own,
      recordDeferred_own, forgetDeleted_own.
Qed.

(** X3. In every run, the resumption of a handler writes at most the
    entries of the item it handles. It never changes the set of processed
    timestamps. The handlers of thread replies, direct commands and edits
    leave the whole store as it is; the handler of an orphan thread or of
    a deferred follow-up leaves the message table and every thread entry
    but that of its thread; the handler of a deletion leaves every entry
    but that of the deleted message and that of the thread key of the
    event; the handler of a new message leaves every entry of another
    timestamp in place unless it is older than twenty-four hours, and adds
    none. *)
Theorem handlers_write_their_own cfg evs s i d w s' :
  run cfg initial evs = Some s →
  drains s !! i = Some d →
  step cfg s (EvSettle i w) = Some s' →
  ownWrites (current d) (clock s) (store s) (store s').
Proof.
  intros Hr Hi Hs. simpl in Hs. rewrite Hi in Hs. inversion Hs; subst.
  apply (resume_relates cfg ownWrites); [apply ownWrites_refl| |done].
  apply (PendingOk_run cfg ownWrites (dispatch_ownWrites cfg) evs initial);
    [apply Inv_initial| |done].
  intros d' Hd'. by apply elem_of_nil in Hd'.
Qed.

Lemma handlers_write_their_own_witness :
  ∃ s d s',
    run sampleConfig initial busyEvents = Some s
    ∧ drains s !! 0 = Some d
    ∧ step sampleConfig s (EvSettle 0 sampleWorld) = Some s'
    ∧ processedMessages (store s') = processedMessages (store s).
Proof.
  eexists _, _, _. split; [reflexivity|]. split; [reflexivity|]. split; [reflexivity|].
  refine (proj1 (handlers_write_their_own sampleConfig busyEvents _ 0 _ sampleWorld _
                   _ _ _)); reflexivity.
Defined.

(** ** The listeners *)

Lemma pushes_processQueue cfg s : pushes (log (processQueue cfg s)) = pushes (log s).
Proof.
  unfold processQueue.
  destruct (isProcessing s || Nat.eqb (length (messageQueue s)) 0)%bool; [done|].
  unfold whileLoop. simpl. destruct (messageQueue s); simpl; [done|].
  rewrite pushes_app. simpl. by rewrite app_nil_r.
Qed.

Lemma pushes_enqueue cfg item s :
  pushes (log (enqueue cfg item s)) = pushes (log s) ++ [item].
Proof. unfold enqueue. rewrite pushes_processQueue. simpl. by rewrite pushes_app. Qed.

Lemma rememberMessage_None processed msg_ts :
  rememberMessage processed msg_ts = None ↔ msg_ts ∈ processed.
Proof.
  unfold rememberMessage, StringSet.has.
  destruct (bool_decide_reflect (msg_ts ∈ processed)); split; done.
Qed.

(** What the message listener has checked when it queues an item. *)
Lemma classify_guards cfg st msg item st' :
  classify cfg st msg = Some (item, st') →
  ∃ msg_user msg_ts msg_channel,
    user msg = Some msg_user ∧ ts msg = Some msg_ts ∧ channel msg = Some msg_channel
    ∧ msg_user ≠ "" ∧ msg_ts ≠ "" ∧ msg_channel ≠ ""
    ∧ msg_channel = slackChannelId cfg
    ∧ (JS.truthy (text msg) || JS.nonempty (attachments msg)
       || JS.nonempty (files msg))%bool = true
    ∧ JS.truthy (bot_id msg) = false
    ∧ (JS.truthy (subtype msg) = false ∨ subtype msg = Some "file_share").
Proof.
  unfold classify. intros H.
  destruct (user msg) as [msg_user|]; [|done].
  destruct (ts msg) as [msg_ts|]; [|done].
  destruct (channel msg) as [msg_channel|]; [|done].
  destruct (JS.truthy (text msg) || JS.nonempty (attachments msg)
            || JS.nonempty (files msg))%bool eqn:Hcontent; [|done].
  destruct (String.eqb msg_user "") eqn:Hu; [done|].
  destruct (String.eqb msg_ts "") eqn:Ht; [done|].
  destruct (String.eqb msg_channel "") eqn:Hc; [done|]. simpl in H.
  destruct (String.eqb_spec msg_channel (slackChannelId cfg)) as [Hch|]; [|done].
  simpl in H. destruct (JS.truthy (bot_id msg)) eqn:Hbot; [done|].
  destruct (JS.truthy (subtype msg)) eqn:Hsub.
  - unfold JS.strict_eq in H.
    destruct (bool_decide_reflect (subtype msg = Some "file_share")) as [Hfs|]; [|done].
    exists msg_user, msg_ts, msg_channel.
    repeat split; auto using eqb_empty_false.
  - exists msg_user, msg_ts, msg_channel.
    repeat split; auto using eqb_empty_false.
Qed.

Lemma classifyEdit_subtype cfg msg item :
  classifyEdit cfg msg = Some item → subtype msg = Some "message_changed".
Proof.
  unfold classifyEdit, JS.strict_eq.
  by destruct (bool_decide_reflect (subtype msg = Some "message_changed")).
Qed.

Lemma classifyDelete_subtype cfg msg item :
  classifyDelete cfg msg = Some item → subtype msg = Some "message_deleted".
Proof.
  unfold classifyDelete, JS.strict_eq.
  by destruct (bool_decide_reflect (subtype msg = Some "message_deleted")).
Qed.

(** X4. A Slack event is queued by at most one of the three listeners:
    the item of the message listener, of the edit listener or of the
    delete listener is pushed, alone, or the event leaves the whole state
    as it is. *)
Theorem one_listener_per_event cfg msg s :
  match classify cfg (store s) msg, classifyEdit cfg msg, classifyDelete cfg msg with
  | Some (item, _), None, None | None, Some item, None | None, None, Some item =>
      pushes (log (deliver cfg msg s)) = pushes (log s) ++ [item]
  | None, None, None => deliver cfg msg s = s
  | _, _, _ => False
  end.
Proof.
  unfold deliver, onMessageDeleted, onMessageChanged, onMessage.
  destruct (classify cfg (store s) msg) as [[item st']|] eqn:Hc;
    destruct (classifyEdit cfg msg) as [edited|] eqn:He;
    destruct (classifyDelete cfg msg) as [deleted|] eqn:Hd;
    try apply classifyEdit_subtype in He; try apply classifyDelete_subtype in Hd;
    try (rewrite He in Hd; discriminate);
    try (apply classify_guards in Hc
           as (?&?&?&_&_&_&_&_&_&_&_&_&[Hs|Hs]);
         [rewrite ?He, ?Hd in Hs; discriminate
         |rewrite ?He, ?Hd in Hs; discriminate]);
    rewrite ?pushes_enqueue; done.
Qed.

(** X5. The message listener queues nothing for an event without content,
    user, timestamp or channel, for an event of another channel than the
    monitored one, for a message of a bot, or for a subtype other than
    [file_share]; the edit listener queues only a [message_changed] event
    of the monitored channel whose changed message has a user and a
    timestamp and is not a bot's; the delete listener queues only a
    [message_deleted] event of the monitored channel with the timestamp of
    the deleted message. Each listener queues an item of its own types. *)
Theorem listener_guards cfg st msg :
  (∀ item st',
     classify cfg st msg = Some (item, st') →
     channel msg = Some (slackChannelId cfg)
     ∧ JS.truthy (user msg) = true ∧ JS.truthy (ts msg) = true
     ∧ JS.truthy (channel msg) = true
     ∧ (JS.truthy (text msg) || JS.nonempty (attachments msg)
        || JS.nonempty (files msg))%bool = true
     ∧ JS.truthy (bot_id msg) = false
     ∧ (JS.truthy (subtype msg) = false ∨ subtype msg = Some "file_share")
     ∧ type item ∈ ["new"; "thread_reply"; "orphan_thread"; "deferred_followup";
                    "direct_command"])
  ∧ (∀ item,
       classifyEdit cfg msg = Some item →
       subtype msg = Some "message_changed"
       ∧ channel msg = Some (slackChannelId cfg)
       ∧ JS.truthy (channel msg) = true
       ∧ (∃ changed, message msg = Some changed
                     ∧ JS.truthy (c_user changed) = true
                     ∧ JS.truthy (c_ts changed) = true
                     ∧ JS.truthy (c_bot_id changed) = false)
       ∧ previous_message msg ≠ None
       ∧ type item = "message_edited")
  ∧ (∀ item,
       classifyDelete cfg msg = Some item →
       subtype msg = Some "message_deleted"
       ∧ channel msg = Some (slackChannelId cfg)
       ∧ JS.truthy (deleted_ts msg) = true
       ∧ type item = "message_deleted").
Proof.
  split; [|split].
  - intros item st' Hc.
    destruct (classify_guards _ _ _ _ _ Hc)
      as (u & t & c & Hu & Ht & Hch & Hu' & Ht' & Hc' & Hmon & Hcontent & Hbot & Hsub).
    rewrite Hu, Ht, Hch. simpl. rewrite !truthy_false_eqb by done.
    repeat split; try done; [by rewrite Hmon|].
    clear - Hc. unfold classify in Hc. repeat (case_match; try discriminate);
      inversion Hc; subst; simpl; set_solver.
  - intros item He. pose proof (classifyEdit_subtype _ _ _ He) as Hs.
    unfold classifyEdit in He. rewrite Hs in He. simpl in He.
    destruct (message msg) as [changed|]; [|done].
    destruct (previous_message msg) as [previous|]; [|done].
    destruct (c_user changed) as [cu|] eqn:Hcu; [|done].
    destruct (c_ts changed) as [ct|] eqn:Hct; [|done].
    destruct (channel msg) as [ch|]; [|done].
    destruct (String.eqb cu "") eqn:Hcu'; [done|].
    destruct (String.eqb ct "") eqn:Hct'; [done|]. simpl in He.
    destruct (String.eqb ch "") eqn:Hch'; [done|]. simpl in He.
    destruct (String.eqb_spec ch (slackChannelId cfg)) as [->|]; [|done]. simpl in He.
    destruct (JS.truthy (c_bot_id changed)) eqn:Hbot; [done|]. inversion He; subst.
    simpl. rewrite Hch'. repeat split; try done.
    exists changed. rewrite Hcu, Hct. simpl. by rewrite Hcu', Hct'.
  - intros item Hd. pose proof (classifyDelete_subtype _ _ _ Hd) as Hs.
    unfold classifyDelete in Hd. rewrite Hs in Hd. simpl in Hd.
    destruct (deleted_ts msg) as [dt|]; [|done].
    destruct (channel msg) as [ch|]; [|done].
    destruct (String.eqb dt "") eqn:Hdt; [done|].
    destruct (String.eqb ch "") eqn:Hch; [done|]. simpl in Hd.
    destruct (String.eqb_spec ch (slackChannelId cfg)) as [->|]; [|done].
    inversion Hd; subst. simpl. by rewrite Hdt.
Qed.

(** The message listener queues a [new] item only for an accepted
    top-level message whose timestamp it had not recorded. *)
Lemma classify_new_inv cfg st msg data st' :
  classify cfg st msg = Some (QNew data, st') →
  ∃ msg_user msg_ts msg_channel processed',
    Accepted cfg msg msg_user msg_ts msg_channel
    ∧ (JS.truthy (thread_ts msg) = false ∨ thread_ts msg = Some msg_ts)
    ∧ rememberMessage (processedMessages st) msg_ts = Some processed'
    ∧ st' = setProcessed (λ _, processed') st
    ∧ data = {| n_text := text msg; n_user := user msg; n_ts := ts msg;
                n_channel := msg_channel; n_files := files msg;
                n_attachments := attachments msg |}.
Proof.
  intros H.
  destruct (classify_guards _ _ _ _ _ H)
    as (u & t & c & Hu & Ht & Hch & Hu' & Ht' & Hc' & Hmon & Hcontent & Hbot & Hsub).
  exists u, t, c. rewrite Hu, Ht.
  assert (G3 : (JS.truthy (subtype msg)
                && negb (JS.strict_eq (subtype msg) (Some "file_share")))%bool = false).
  { destruct Hsub as [->| ->]; done. }
  unfold classify in H.
  rewrite Hu, Ht, Hch, Hcontent, !truthy_false_eqb in H by done. simpl in H.
  rewrite <- Hmon, String.eqb_refl, Hbot, G3 in H. simpl in H.
  destruct (match text msg with
            | Some t0 => JS.includes ("<@" +:+ botUserId cfg +:+ ">") t0
            | None => false
            end) eqn:Hmention; [done|].
  assert (Hacc : Accepted cfg msg u t c) by (by split).
  assert (Htop : match rememberMessage (processedMessages st) t with
                 | Some s' =>
                     Some (QNew {| n_text := text msg; n_user := Some u; n_ts := Some t;
                                   n_channel := c; n_files := files msg;
                                   n_attachments := attachments msg |},
                           setProcessed (λ _, s') st)
                 | None => None
                 end = Some (QNew data, st') →
                 ∃ processed',
                   rememberMessage (processedMessages st) t = Some processed'
                   ∧ st' = setProcessed (λ _, processed') st
                   ∧ data = {| n_text := text msg; n_user := Some u; n_ts := Some t;
                               n_channel := c; n_files := files msg;
                               n_attachments := attachments msg |}).
  { destruct (rememberMessage (processedMessages st) t) as [p'|]; [|done].
    intros Heq. inversion Heq. by exists p'. }
  destruct (thread_ts msg) as [root|] eqn:Hroot.
  - destruct (String.eqb_spec root "") as [->|Hroot'].
    + simpl in H. destruct (Htop H) as (p' & ? & ? & ?). exists p'. repeat split; auto.
    + destruct (String.eqb_spec root t) as [->|Hne].
      * simpl in H. destruct (Htop H) as (p' & ? & ? & ?). exists p'. repeat split; auto.
      * simpl in H. repeat (case_match; try discriminate).
  - destruct (Htop H) as (p' & ? & ? & ?). exists p'. repeat split; auto.
Qed.

(** What the message listener does with an accepted top-level message. *)
Lemma classify_toplevel cfg st msg msg_user msg_ts msg_channel :
  Accepted cfg msg msg_user msg_ts msg_channel →
  JS.truthy (thread_ts msg) = false ∨ thread_ts msg = Some msg_ts →
  classify cfg st msg
  = match rememberMessage (processedMessages st) msg_ts with
    | Some processed' =>
        Some (QNew {| n_text := text msg; n_user := user msg; n_ts := ts msg;
                      n_channel := msg_channel; n_files := files msg;
                      n_attachments := attachments msg |},
              setProcessed (λ _, processed') st)
    | None => None
    end.
Proof.
  intros Hacc Hroot.
  destruct (accepted_guards _ _ _ _ _ Hacc) as (G1 & G2 & G3).
  destruct Hacc as [Hu Ht Hc Hu' Ht' Hch Hch' Hcontent Hbot Hsub Hmention].
  unfold classify. rewrite Hu, Ht, Hc, G1, G2, Hbot, G3, Hmention.
  destruct Hroot as [Hroot|Hroot].
  - destruct (thread_ts msg) as [root|]; [|done].
    simpl in Hroot. destruct (String.eqb root ""); done.
  - rewrite Hroot, String.eqb_refl. by rewrite andb_false_r.
Qed.

(** X6. In every run, a top-level message that the message listener
    queues is recorded: the store the listener leaves holds its timestamp
    among the processed ones, and the same event delivered again, at once
    or at any later point at which the timestamp is still recorded, is
    dropped by the three listeners, which leave the state as it is. *)
Theorem redelivery_is_dropped cfg evs s msg data st' :
  run cfg initial evs = Some s →
  classify cfg (store s) msg = Some (QNew data, st') →
  store (deliver cfg msg s) = st'
  ∧ (∃ msg_ts, ts msg = Some msg_ts ∧ msg_ts ∈ processedMessages st')
  ∧ deliver cfg msg (deliver cfg msg s) = deliver cfg msg s
  ∧ (∀ s2 msg_ts, ts msg = Some msg_ts → msg_ts ∈ processedMessages (store s2) →
                  deliver cfg msg s2 = s2).
Proof.
  intros Hr Hc.
  destruct (classify_new_inv _ _ _ _ _ Hc)
    as (u & t & c & p' & Hacc & Hroot & Hrem & -> & ->).
  destruct (BoundedSet_run cfg evs s Hr) as [Hnd Hlen].
  destruct (rememberMessage_bounded _ _ _ Hnd Hlen Hrem) as (_ & _ & Hin).
  assert (Hsub : JS.truthy (subtype msg) = false ∨ subtype msg = Some "file_share")
    by (by destruct Hacc).
  assert (He : classifyEdit cfg msg = None).
  { destruct (classifyEdit cfg msg) eqn:He; [|done].
    apply classifyEdit_subtype in He. destruct Hsub as [Hs|Hs]; by rewrite He in Hs. }
  assert (Hd : classifyDelete cfg msg = None).
  { destruct (classifyDelete cfg msg) eqn:Hd; [|done].
    apply classifyDelete_subtype in Hd. destruct Hsub as [Hs|Hs]; by rewrite Hd in Hs. }
  assert (Hdrop : ∀ s2, t ∈ processedMessages (store s2) → deliver cfg msg s2 = s2).
  { intros s2 Hin2. unfold deliver, onMessageDeleted, onMessageChanged, onMessage.
    rewrite Hd, He, (classify_toplevel cfg (store s2) msg u t c Hacc Hroot).
    by rewrite (proj2 (rememberMessage_None _ _) Hin2). }
  assert (Hst : store (deliver cfg msg s) = setProcessed (λ _, p') (store s)).
  { unfold deliver, onMessageDeleted, onMessageChanged, onMessage.
    by rewrite Hd, He, Hc, enqueue_store. }
  split; [done|]. split; [|split].
  - exists t. split; [by destruct Hacc|done].
  - apply Hdrop. by rewrite Hst.
  - intros s2 t2 Ht2 Hin2. apply Hdrop.
    destruct Hacc as [_ Ht _ _ _ _ _ _ _ _ _]. rewrite Ht in Ht2. by inversion Ht2.
Qed.

Lemma redelivery_is_dropped_witness :
  classify sampleConfig (store initial)
    (userMessage "Login fails" "U1" "1700000100.000100" None)
  = Some (QNew {| n_text := Some "Login fails"; n_user := Some "U1";
                  n_ts := Some "1700000100.000100"; n_channel := "C0FEEDBACK";
                  n_files := None; n_attachments := None |},
          setProcessed (λ _, ["1700000100.000100"]) emptyStore)
  ∧ store (deliver sampleConfig
             (userMessage "Login fails" "U1" "1700000100.000100" None) initial)
    = setProcessed (λ _, ["1700000100.000100"]) emptyStore.
Proof.
  assert (Hc : classify sampleConfig (store initial)
                 (userMessage "Login fails" "U1" "1700000100.000100" None)
               = Some (QNew {| n_text := Some "Login fails"; n_user := Some "U1";
                               n_ts := Some "1700000100.000100";
                               n_channel := "C0FEEDBACK";
                               n_files := None; n_attachments := None |},
                       setProcessed (λ _, ["1700000100.000100"]) emptyStore))
    by reflexivity.
  split; [exact Hc|].
  exact (proj1 (redelivery_is_dropped sampleConfig [] initial _ _ _ eq_refl Hc)).
Defined.

(** X7. A message that the live listener queues as a [new] item is one
    that the recovery scan collects, and the item recovery pushes for it
    is the item the listener queues. *)
Theorem live_message_is_recoverable cfg st msg data st' :
  classify cfg st msg = Some (QNew data, st') →
  isProcessableMessage msg = true ∧ recoveredItem cfg msg = QNew data.
Proof.
  intros Hc.
  destruct (classify_new_inv _ _ _ _ _ Hc)
    as (u & t & c & p' & Hacc & Hroot & Hrem & -> & ->).
  destruct Hacc as [Hu Ht Hch Hu' Ht' Hmon Hch' Hcontent Hbot Hsub Hmention].
  split.
  - unfold isProcessableMessage. rewrite Hbot.
    assert (Hthread : (JS.truthy (thread_ts msg)
                       && negb (JS.strict_eq (thread_ts msg) (ts msg)))%bool = false).
    { destruct Hroot as [->|Hroot]; [done|]. rewrite Hroot, Ht.
      unfold JS.strict_eq. rewrite bool_decide_eq_true_2 by done. apply andb_false_r. }
    assert (Hcontent' : (JS.truthy (text msg) || JS.nonempty (files msg)
                         || JS.nonempty (attachments msg))%bool = true).
    { revert Hcontent. destruct (JS.truthy (text msg)), (JS.nonempty (files msg)),
        (JS.nonempty (attachments msg)); done. }
    rewrite Hthread, Hcontent'. destruct Hsub as [Hs|Hs]; rewrite Hs; [|done].
    unfold JS.strict_eq. destruct (subtype msg) as [sub|]; [|done].
    simpl in Hs. rewrite bool_decide_eq_false_2; [done|].
    intros Heq. inversion Heq; subst. done.
  - unfold recoveredItem. rewrite Hch. simpl. by rewrite truthy_false_eqb.
Qed.

Lemma live_message_is_recoverable_witness :
  isProcessableMessage (userMessage "Login fails" "U1" "1700000100.000100" None) = true.
Proof.
  refine (proj1 (live_message_is_recoverable sampleConfig emptyStore
                   (userMessage "Login fails" "U1" "1700000100.000100" None) _ _ _)).
  reflexivity.
Defined.

(** ** Direct commands *)

Lemma or_default_nonempty (a : option string) (d : string) :
  d ≠ "" → JS.or_default a d ≠ "".
Proof.
  intros Hd. unfold JS.or_default. destruct a as [s|]; [|done].
  by destruct (String.eqb_spec s "").
Qed.

Lemma IdentifierOk_insert k e st :
  (if t_isDeferred e then t_ticketIdentifier e = "" else t_ticketIdentifier e ≠ "") →
  IdentifierOk st → IdentifierOk (setThreads (<[k := e]>) st).
Proof.
  intros He HP k' e'. simpl. destruct (decide (k' = k)) as [->|Hne].
  - rewrite lookup_insert_eq. intros Hk. by inversion Hk; subst.
  - rewrite lookup_insert_ne by done. apply HP.
Qed.

Lemma IdentifierOk_sweep k e now st :
  (if t_isDeferred e then t_ticketIdentifier e = "" else t_ticketIdentifier e ≠ "") →
  IdentifierOk st →
  IdentifierOk (setThreads (λ m, cleanupOldThreadMappings now (<[k := e]> m)) st).
Proof.
  intros He HP k' e'. simpl. rewrite cleanup_thread_lookup. intros [Hk _].
  by apply (IdentifierOk_insert k e st He HP k' e').
Qed.

Lemma IdentifierOk_messages f st :
  IdentifierOk st → IdentifierOk (setMessages f st).
Proof. intros HP k e. apply HP. Qed.

Lemma IdentifierOk_delete k st :
  IdentifierOk st → IdentifierOk (setThreads (delete k) st).
Proof.
  intros HP k' e'. simpl. intros Hk. apply lookup_delete_Some in Hk as [_ Hk].
  by apply (HP k').
Qed.

Lemma dispatch_keeps_identifier cfg item st :
  respects (keeps IdentifierOk) (resumptions item) (dispatch cfg item st).
Proof.
  apply (dispatch_writes cfg (λ _, keeps IdentifierOk)); unfold keeps; try done.
  - intros data msg_ts r now st' _ HP. unfold recordTriage. apply IdentifierOk_messages.
    destruct (isTicketAction (r_action r)
              && (JS.truthy (r_ticketId r) || JS.truthy (r_ticketIdentifier r)))%bool
      eqn:Hticket; [|destruct (bool_decide (r_action r = deferred)); [|done]];
      apply IdentifierOk_sweep; simpl; try done.
    apply andb_true_iff in Hticket as [_ Hticket]. apply or_truthy.
    by rewrite orb_comm.
  - intros data r now st' HP. unfold recordOrphan. repeat case_match; try done;
      apply IdentifierOk_insert; try done; simpl;
      apply or_default_nonempty; by apply eqb_empty_false.
  - intros data r now st' HP. unfold recordDeferred. repeat case_match; try done.
    apply IdentifierOk_insert; [|done]. simpl.
    apply or_default_nonempty. by apply eqb_empty_false.
  - intros data now st' HP. unfold forgetDeleted. repeat case_match;
      repeat first [apply IdentifierOk_delete|apply IdentifierOk_messages]; done.
Qed.

Lemma IdentifierOk_run cfg evs s :
  run cfg initial evs = Some s → IdentifierOk (store s).
Proof.
  apply (store_invariant cfg IdentifierOk).
  - intros k e Hk. simpl in Hk. by rewrite lookup_empty in Hk.
  - intros st msg item st' HP Hc k e.
    destruct (classify_store cfg _ _ _ _ Hc) as [-> _]. apply HP.
  - apply dispatch_keeps_identifier.
Qed.

(** X8. In every run, a message that the listener queues as a direct
    command is one that mentions the bot, and the store is left as it is:
    the timestamp of a command is not recorded among the processed ones.
    The command carries the text, the timestamp of the message and, as
    its thread key, the thread key of the message or else its own
    timestamp. Its ticket context is the identifier of the entry of that
    thread when the entry is not deferred; a deferred entry, no entry and
    no thread key give no ticket context. *)
Theorem command_ticket_context cfg evs s msg data st' :
  run cfg initial evs = Some s →
  classify cfg (store s) msg = Some (QDirectCommand data, st') →
  st' = store s
  ∧ isBotMentioned cfg msg = true
  ∧ dc_commandText data = text msg
  ∧ ts msg = Some (dc_messageTs data)
  ∧ dc_threadTs data = JS.or_default (thread_ts msg) (dc_messageTs data)
  ∧ dc_ticketContext data
    = match thread_ts msg with
      | Some root =>
          if String.eqb root "" then None
          else match threadTicketMap (store s) !! root with
               | Some ticketInfo =>
                   if t_isDeferred ticketInfo then None
                   else Some (t_ticketIdentifier ticketInfo)
               | None => None
               end
      | None => None
      end.
Proof.
  intros Hr Hc. pose proof (IdentifierOk_run cfg evs s Hr) as Hid.
  unfold classify in Hc. unfold isBotMentioned.
  destruct (user msg) as [u|]; [|done]. destruct (ts msg) as [t|]; [|done].
  destruct (channel msg) as [c|]; [|done].
  repeat (match type of Hc with
          | (if ?b then _ else _) = _ => destruct b eqn:?; try discriminate
          end).
  - inversion Hc; subst. simpl. repeat split.
    destruct (thread_ts msg) as [root|]; [|done].
    destruct (String.eqb root ""); [done|].
    destruct (threadTicketMap (store s) !! root) as [e|] eqn:He; [|done].
    specialize (Hid root e He). destruct (t_isDeferred e).
    + by rewrite Hid.
    + by rewrite truthy_false_eqb.
  - repeat (case_match; try discriminate).
Qed.

Lemma command_ticket_context_witness :
  run sampleConfig initial sampleEvents = Some sampleState
  ∧ ∃ data,
      classify sampleConfig (store sampleState) sampleCommand
      = Some (QDirectCommand data, store sampleState)
      ∧ dc_ticketContext data = Some "ENG-42".
Proof.
  assert (Hr : run sampleConfig initial sampleEvents = Some sampleState)
    by (vm_compute; reflexivity).
  split; [exact Hr|]. eexists.
  assert (Hc : classify sampleConfig (store sampleState) sampleCommand
               = Some (QDirectCommand
                         {| dc_commandText := Some "<@U0BOT> close this one";
                            dc_userId := "U7"; dc_channel := "C0FEEDBACK";
                            dc_threadTs := "1700000100.000100";
                            dc_messageTs := "1700000450.000100";
                            dc_ticketContext := Some "ENG-42";
                            dc_files := None |}, store sampleState))
    by (vm_compute; reflexivity).
  split; [exact Hc|].
  rewrite (proj2 (proj2 (proj2 (proj2 (proj2
             (command_ticket_context sampleConfig sampleEvents sampleState
                sampleCommand _ _ Hr Hc)))))).
  vm_compute. reflexivity.
Defined.

(** ** From one handler to the next event *)

(** The classification of an accepted reply by the entry of its thread. *)
Lemma classify_in_thread cfg st msg msg_user msg_ts msg_channel root :
  Accepted cfg msg msg_user msg_ts msg_channel →
  thread_ts msg = Some root → root ≠ "" → root ≠ msg_ts →
  classify cfg st msg
  = Some
      (match threadTicketMap st !! root with
       | Some ticketInfo =>
           if t_isDeferred ticketInfo then
             QDeferredFollowup
               {| d_replyText := text msg; d_userId := msg_user;
                  d_channel := msg_channel; d_threadTs := root;
                  d_messageTs := msg_ts; d_files := files msg;
                  d_originalContext := t_originalContext ticketInfo |}
           else
             QThreadReply
               {| tr_replyText := text msg; tr_userId := msg_user;
                  tr_channel := msg_channel; tr_threadTs := root;
                  tr_messageTs := msg_ts;
                  tr_ticketId := t_ticketId ticketInfo;
                  tr_ticketIdentifier := t_ticketIdentifier ticketInfo;
                  tr_isDuplicate := t_isDuplicate ticketInfo;
                  tr_isSameReporter :=
                    bool_decide (t_originalReporterId ticketInfo = Some msg_user);
                  tr_files := files msg |}
       | None =>
           QOrphanThread
             {| o_replyText := text msg; o_userId := msg_user;
                o_channel := msg_channel; o_threadTs := root;
                o_messageTs := msg_ts; o_files := files msg |}
       end, st).
Proof.
  intros Hacc Hroot Hroot' Hne.
  destruct (accepted_guards _ _ _ _ _ Hacc) as (G1 & G2 & G3).
  destruct Hacc as [Hu Ht Hc Hu' Ht' Hch Hch' Hcontent Hbot Hsub Hmention].
  unfold classify. rewrite Hu, Ht, Hc, G1, G2, Hbot, G3, Hmention, Hroot.
  rewrite (truthy_false_eqb root) by done.
  assert (Hts : String.eqb root msg_ts = false).
  { by destruct (String.eqb_spec root msg_ts). }
  rewrite Hts. simpl.
  destruct (threadTicketMap st !! root) as [ticketInfo|]; [|done].
  by destruct (t_isDeferred ticketInfo).
Qed.

(** X9. After the triage of a message has been recorded, an accepted reply
    in the thread of that message is classified by the outcome: a created
    or duplicate outcome with a ticket id or identifier makes it a
    [thread_reply] that carries the id (or else the identifier) as ticket
    id, the identifier (or else the id) as ticket identifier, the
    duplicate flag of the outcome and the flag that tells whether the
    reply's author is the user of the message; a deferred outcome makes
    it a [deferred_followup] that carries the text of the message as the
    original context; any other outcome leaves the thread table as it was,
    so that a reply in a thread without entry is an [orphan_thread]. *)
Theorem triage_then_reply cfg data root result now st reply msg_user msg_ts msg_channel :
  Accepted cfg reply msg_user msg_ts msg_channel →
  thread_ts reply = Some root → root ≠ "" → root ≠ msg_ts →
  let st' := recordTriage data root result now st in
  (isTicketAction (r_action result) = true →
   (JS.truthy (r_ticketId result) || JS.truthy (r_ticketIdentifier result))%bool = true →
   classify cfg st' reply
   = Some (QThreadReply
             {| tr_replyText := text reply; tr_userId := msg_user;
                tr_channel := msg_channel; tr_threadTs := root;
                tr_messageTs := msg_ts;
                tr_ticketId :=
                  default "" (JS.or (r_ticketId result) (r_ticketIdentifier result));
                tr_ticketIdentifier :=
                  default "" (JS.or (r_ticketIdentifier result) (r_ticketId result));
                tr_isDuplicate := bool_decide (r_action result = duplicate);
                tr_isSameReporter := bool_decide (n_user data = Some msg_user);
                tr_files := files reply |}, st'))
  ∧ (r_action result = deferred →
     classify cfg st' reply
     = Some (QDeferredFollowup
               {| d_replyText := text reply; d_userId := msg_user;
                  d_channel := msg_channel; d_threadTs := root;
                  d_messageTs := msg_ts; d_files := files reply;
                  d_originalContext := n_text data |}, st'))
  ∧ ((isTicketAction (r_action result)
      && (JS.truthy (r_ticketId result) || JS.truthy (r_ticketIdentifier result)))%bool
     = false →
     r_action result ≠ deferred →
     threadTicketMap st' = threadTicketMap st
     ∧ (threadTicketMap st !! root = None →
        classify cfg st' reply
        = Some (QOrphanThread
                  {| o_replyText := text reply; o_userId := msg_user;
                     o_channel := msg_channel; o_threadTs := root;
                     o_messageTs := msg_ts; o_files := files reply |}, st'))).
Proof.
  intros Hacc Hroot Hroot' Hne st'.
  pose proof (recordTriage_threads data root result now st) as Ht.
  change (recordTriage data root result now st) with st' in Ht. clearbody st'.
  pose proof (classify_in_thread cfg st' reply _ _ _ root Hacc Hroot Hroot' Hne) as Hc.
  split; [|split].
  - intros Ha Hid. rewrite Ha, Hid in Ht. simpl in Ht.
    rewrite Hc, Ht, cleanup_insert_same by done. done.
  - intros Ha. rewrite Ha in Ht. simpl in Ht.
    rewrite Hc, Ht, cleanup_insert_same by done. done.
  - intros Hno Hnd. rewrite Hno, bool_decide_eq_false_2 in Ht by done.
    split; [done|]. intros Hnone. by rewrite Hc, Ht, Hnone.
Qed.

Lemma triage_then_reply_witness :
  ∃ d st',
    classify sampleConfig st'
      (userMessage "any news?" "U1" "1700000400.000100" (Some "1700000100.000100"))
    = Some (QDeferredFollowup d, st')
    ∧ d_originalContext d = Some "Login fails".
Proof.
  assert (Hacc : Accepted sampleConfig
    (userMessage "any news?" "U1" "1700000400.000100" (Some "1700000100.000100"))
    "U1" "1700000400.000100" "C0FEEDBACK").
  { split; try reflexivity; try discriminate. by left. }
  eexists _, _. split.
  - refine (proj1 (proj2 (triage_then_reply sampleConfig
      {| n_text := Some "Login fails"; n_user := Some "U1";
         n_ts := Some "1700000100.000100"; n_channel := "C0FEEDBACK";
         n_files := None; n_attachments := None |}
      "1700000100.000100"
      {| r_action := deferred; r_ticketId := None; r_ticketUrl := None;
         r_ticketIdentifier := None; r_message := "Let the team chime in" |}
      1700000100000%Z emptyStore _ "U1" "1700000400.000100" "C0FEEDBACK"
      Hacc eq_refl _ _)) eq_refl); discriminate.
  - reflexivity.
Defined.

Lemma cleanup_message_same now (m : gmap string MessageTicket) key e :
  m_createdAt e = now →
  cleanupOldMessageMappings now (<[key := e]> m) !! key = Some e.
Proof.
  intros Hnow. apply cleanup_message_lookup. split; [by rewrite lookup_insert_eq|].
  rewrite Hnow. pose proof maxAge_pos. lia.
Qed.

(** X10. After the triage of a message has been recorded, the outcome
    decides what a later edit or deletion of that message does. Unless
    the outcome is [created] or [duplicate], the edit handler and the
    delete handler return at once. For a [created] or [duplicate]
    outcome, an edit that changes the words of the text (the white space
    apart, whichever it is) is forwarded to [handleMessageEdit], and an
    edit that keeps them is not; a deletion is forwarded to
    [handleMessageDelete], with the recorded ticket id and identifier,
    each the empty string when the outcome carried none, and with the
    recorded action. *)
Theorem triage_then_edit_or_delete data msg_ts result now st :
  let st' := recordTriage data msg_ts result now st in
  (∀ edit, e_messageTs edit = msg_ts →
     processEditedMessageHandler edit st'
     = if (negb (isTicketAction (r_action result))
           || bool_decide (words (e_previousText edit) = words (e_newText edit)))%bool
       then Ret
       else Await (handleMessageEdit
                     {| ei_ticketId := JS.or_default (r_ticketId result) "";
                        ei_ticketIdentifier :=
                          JS.or_default (r_ticketIdentifier result) "";
                        ei_originalText := e_previousText edit;
                        ei_editedText := e_newText edit;
                        ei_userId := e_userId edit;
                        ei_action := r_action result |})
              (λ _ _ st1, st1) (λ _ _ _, Ret))
  ∧ (∀ deleted, x_messageTs deleted = msg_ts →
       processDeletedMessageHandler deleted st'
       = if negb (isTicketAction (r_action result)) then Ret
         else Await (handleMessageDelete
                       {| xi_ticketId := JS.or_default (r_ticketId result) "";
                          xi_ticketIdentifier :=
                            JS.or_default (r_ticketIdentifier result) "";
                          xi_messageTs := msg_ts;
                          xi_action := r_action result |})
                (λ _ _ st1, forgetDeleted deleted st1) (λ _ _ _, Ret)).
Proof.
  intros st'. split.
  - intros edit He. unfold processEditedMessageHandler, st'.
    rewrite He, recordTriage_messages, cleanup_message_same by done. simpl.
    rewrite (bool_decide_ext _ _ (normalizeText_same_words _ _)).
    by destruct (isTicketAction (r_action result)).
  - intros deleted Hd. unfold processDeletedMessageHandler, st'.
    rewrite Hd, recordTriage_messages, cleanup_message_same by done. simpl.
    by destruct (isTicketAction (r_action result)).
Qed.

(** X11. After the delete handler has forgotten a message, a further
    deletion or an edit of that message makes the handler return at
    once, forgetting is idempotent, and an accepted reply in the thread
    whose key the deletion carried is an [orphan_thread]. *)
Theorem deleted_message_is_forgotten cfg data st :
  let st' := forgetDeleted data st in
  processDeletedMessageHandler data st' = Ret
  ∧ (∀ edit, e_messageTs edit = x_messageTs data →
             processEditedMessageHandler edit st' = Ret)
  ∧ forgetDeleted data st' = st'
  ∧ (∀ reply msg_user msg_ts msg_channel root,
       Accepted cfg reply msg_user msg_ts msg_channel →
       thread_ts reply = Some root → root ≠ "" → root ≠ msg_ts →
       x_threadTs data = Some root →
       classify cfg st' reply
       = Some (QOrphanThread
                 {| o_replyText := text reply; o_userId := msg_user;
                    o_channel := msg_channel; o_threadTs := root;
                    o_messageTs := msg_ts; o_files := files reply |}, st')).
Proof.
  intros st'.
  assert (Hm : messageTicketMap st' !! x_messageTs data = None).
  { unfold st'. rewrite forgetDeleted_messages. apply lookup_delete_eq. }
  split; [|split; [|split]].
  - unfold processDeletedMessageHandler. by rewrite Hm.
  - intros edit He. unfold processEditedMessageHandler. by rewrite He, Hm.
  - unfold st', forgetDeleted. destruct st as [threads messages processed].
    destruct (x_threadTs data) as [t|]; [destruct (String.eqb t "")|];
      unfold setThreads, setMessages; simpl; f_equal;
      by rewrite ?delete_delete_eq.
  - intros reply u t c root Hacc Hroot Hroot' Hne Hx.
    rewrite (classify_in_thread cfg st' reply u t c root Hacc Hroot Hroot' Hne).
    unfold st'. rewrite forgetDeleted_threads, Hx. simpl.
    rewrite truthy_false_eqb by done. simpl. by rewrite lookup_delete_eq.
Qed.

(** X12. After the outcome of an orphan thread or of a deferred follow-up
    has been recorded, an accepted reply in that thread is classified by
    the outcome. An orphan outcome [created] or [updated] with a ticket id
    makes it a [thread_reply] with that id, with the identifier of the
    outcome or else the id, with the duplicate flag set exactly for
    [updated], and with the same-reporter flag set exactly when the
    author of the reply is the author of the orphan reply. A follow-up
    outcome [created] with a ticket id, in a thread that has an entry,
    makes it a [thread_reply] with that id, and with the duplicate flag
    and the original reporter of the entry that was upgraded. Without a
    ticket id, whatever the action, both handlers leave the store as it
    is, and so does the follow-up handler in a thread without entry. *)
Theorem outcome_then_reply cfg reply msg_user msg_ts msg_channel root :
  Accepted cfg reply msg_user msg_ts msg_channel →
  thread_ts reply = Some root → root ≠ "" → root ≠ msg_ts →
  (∀ data result now st ticketId,
     o_threadTs data = root →
     or_action result = o_created ∨ or_action result = o_updated →
     or_ticketId result = Some ticketId → ticketId ≠ "" →
     let st' := recordOrphan data result now st in
     classify cfg st' reply
     = Some (QThreadReply
               {| tr_replyText := text reply; tr_userId := msg_user;
                  tr_channel := msg_channel; tr_threadTs := root;
                  tr_messageTs := msg_ts;
                  tr_ticketId := ticketId;
                  tr_ticketIdentifier :=
                    JS.or_default (or_ticketIdentifier result) ticketId;
                  tr_isDuplicate := bool_decide (or_action result = o_updated);
                  tr_isSameReporter := bool_decide (o_userId data = msg_user);
                  tr_files := files reply |}, st'))
  ∧ (∀ data result now st ticketId existing,
       d_threadTs data = root →
       dr_action result = d_created →
       dr_ticketId result = Some ticketId → ticketId ≠ "" →
       threadTicketMap st !! root = Some existing →
       let st' := recordDeferred data result now st in
       classify cfg st' reply
       = Some (QThreadReply
                 {| tr_replyText := text reply; tr_userId := msg_user;
                    tr_channel := msg_channel; tr_threadTs := root;
                    tr_messageTs := msg_ts;
                    tr_ticketId := ticketId;
                    tr_ticketIdentifier :=
                      JS.or_default (dr_ticketIdentifier result) ticketId;
                    tr_isDuplicate := t_isDuplicate existing;
                    tr_isSameReporter :=
                      bool_decide (t_originalReporterId existing = Some msg_user);
                    tr_files := files reply |}, st'))
  ∧ (∀ (data : OrphanThreadData) result now st,
       JS.truthy (or_ticketId result) = false →
       recordOrphan data result now st = st)
  ∧ (∀ (data : DeferredFollowupData) result now st,
       JS.truthy (dr_ticketId result) = false
       ∨ threadTicketMap st !! d_threadTs data = None →
       recordDeferred data result now st = st).
Proof.
  intros Hacc Hroot Hroot' Hne. split; [|split; [|split]].
  - intros data result now st ticketId Hkey Haction Hid Hid' st'.
    rewrite (classify_in_thread cfg st' reply _ _ _ root Hacc Hroot Hroot' Hne).
    unfold st', recordOrphan. rewrite Hid, truthy_false_eqb by done.
    destruct Haction as [Ha|Ha]; rewrite Ha, Hkey; simpl;
      rewrite lookup_insert_eq; simpl; repeat f_equal;
      apply bool_decide_ext; split; congruence.
  - intros data result now st ticketId existing Hkey Haction Hid Hid' Hex st'.
    rewrite (classify_in_thread cfg st' reply _ _ _ root Hacc Hroot Hroot' Hne).
    unfold st', recordDeferred. rewrite Haction, Hid, truthy_false_eqb, Hkey, Hex by done.
    simpl. by rewrite lookup_insert_eq.
  - intros data result now st Hid. unfold recordOrphan.
    destruct (or_action result), (or_ticketId result) as [t|]; try done;
      simpl in Hid; destruct (String.eqb t ""); done.
  - intros data result now st Hid. unfold recordDeferred.
    destruct (dr_action result), (dr_ticketId result) as [t|]; try done.
    destruct Hid as [Hid| ->]; [|by destruct (String.eqb t "")].
    simpl in Hid. by destruct (String.eqb t "").
Qed.

Lemma outcome_then_reply_witness :
  ∃ d st',
    classify sampleConfig st'
      (userMessage "any news?" "U1" "1700000400.000100" (Some "1700000000.000100"))
    = Some (QThreadReply d, st')
    ∧ tr_ticketId d = "uuid-7" ∧ tr_isDuplicate d = true.
Proof.
  assert (Hacc : Accepted sampleConfig
    (userMessage "any news?" "U1" "1700000400.000100" (Some "1700000000.000100"))
    "U1" "1700000400.000100" "C0FEEDBACK").
  { split; try reflexivity; try discriminate. by left. }
  eexists _, _. split.
  - refine (proj1 (outcome_then_reply sampleConfig _ "U1" "1700000400.000100"
                     "C0FEEDBACK" "1700000000.000100" Hacc eq_refl _ _)
              {| o_replyText := Some "same here"; o_userId := "U2";
                 o_channel := "C0FEEDBACK"; o_threadTs := "1700000000.000100";
                 o_messageTs := "1700000200.000100"; o_files := None |}
              {| or_action := o_updated; or_ticketId := Some "uuid-7";
                 or_ticketIdentifier := Some "ENG-7"; or_message := "Added a comment" |}
              1700000200000%Z emptyStore "uuid-7" eq_refl _ eq_refl _);
      first [discriminate|by right].
  - split; reflexivity.
Defined.

(** ** The sweeps *)

(** X13. A later sweep subsumes an earlier one, in both tables: sweeping
    at [now] and then at a clock reading [now'] that is not before [now]
    leaves what the sweep at [now'] alone leaves, so a sweep repeated at
    the same clock reading changes nothing. A sweep adds no entry and
    changes none, and it leaves a table as it is when no entry is older
    than twenty-four hours. *)
Theorem sweeps_compose now now' :
  (∀ m : gmap string ThreadTicket,
     ((now ≤ now')%Z →
      cleanupOldThreadMappings now' (cleanupOldThreadMappings now m)
      = cleanupOldThreadMappings now' m)
     ∧ cleanupOldThreadMappings now m ⊆ m
     ∧ ((∀ k e, m !! k = Some e → (now - t_createdAt e ≤ 24 * 60 * 60 * 1000)%Z) →
        cleanupOldThreadMappings now m = m))
  ∧ (∀ m : gmap string MessageTicket,
       ((now ≤ now')%Z →
        cleanupOldMessageMappings now' (cleanupOldMessageMappings now m)
        = cleanupOldMessageMappings now' m)
       ∧ cleanupOldMessageMappings now m ⊆ m
       ∧ ((∀ k e, m !! k = Some e → (now - m_createdAt e ≤ 24 * 60 * 60 * 1000)%Z) →
          cleanupOldMessageMappings now m = m)).
Proof.
  assert (Hmax : maxAge = (24 * 60 * 60 * 1000)%Z) by reflexivity.
  split; intros m; (split; [|split]).
  - intros Hle. apply map_eq. intros k. apply option_eq. intros e.
    rewrite !cleanup_thread_lookup. intuition lia.
  - apply map_subseteq_spec. intros k e. rewrite cleanup_thread_lookup. tauto.
  - intros Hall. apply map_eq. intros k. apply option_eq. intros e.
    rewrite cleanup_thread_lookup, Hmax. specialize (Hall k e). tauto.
  - intros Hle. apply map_eq. intros k. apply option_eq. intros e.
    rewrite !cleanup_message_lookup. intuition lia.
  - apply map_subseteq_spec. intros k e. rewrite cleanup_message_lookup. tauto.
  - intros Hall. apply map_eq. intros k. apply option_eq. intros e.
    rewrite cleanup_message_lookup, Hmax. specialize (Hall k e). tauto.
Qed.

(** ** The normal form of an edited text *)

(** X14. The normal form that the edit handler compares is a normal form:
    normalising a text that is normalised already changes nothing, and
    the normal form of a text has the words of the text. So an edit from
    a text to its normal form, or between two texts with the same normal
    form, is never forwarded. *)
Theorem normalizeText_idempotent s :
  normalizeText (normalizeText s) = normalizeText s
  ∧ words (normalizeText s) = words s
  ∧ ∀ data st,
      e_newText data = normalizeText (e_previousText data) →
      processEditedMessageHandler data st = Ret.
Proof.
  assert (Hwords : ∀ t, words (normalizeText t) = words t).
  { intros t. rewrite normalizeText_words. apply words_joinWords, words_are_words. }
  assert (Hidem : ∀ t, normalizeText (normalizeText t) = normalizeText t).
  { intros t. by apply normalizeText_same_words. }
  split; [apply Hidem|]. split; [apply Hwords|].
  intros data st He. unfold processEditedMessageHandler.
  rewrite He, Hidem, bool_decide_eq_true_2 by done. by repeat case_match.
Qed.

(** ** The ticket of a thread *)

(** X15. [extractTicketFromThread] returns the identifier of the first
    message of the thread whose text has a match of the Linear issue
    pattern, and nothing when no message has one; messages without text
    are passed over. *)
Theorem extract_first_match cfg :
  (∀ before msg after ticketIdentifier,
     Forall (λ m, JS.truthy (tm_text m) = false
                  ∨ linearIssueMatch cfg (default "" (tm_text m)) = None) before →
     JS.truthy (tm_text msg) = true →
     linearIssueMatch cfg (default "" (tm_text msg)) = Some ticketIdentifier →
     extractTicketFromThread cfg (before ++ msg :: after) = Some ticketIdentifier)
  ∧ (∀ messages,
       extractTicketFromThread cfg messages = None
       ↔ Forall (λ m, JS.truthy (tm_text m) = false
                      ∨ linearIssueMatch cfg (default "" (tm_text m)) = None) messages).
Proof.
  split.
  - intros before msg after id Hbefore Htext Hmatch.
    induction Hbefore as [|m before [Hm|Hm] _ IH]; simpl.
    + by rewrite Htext, Hmatch.
    + by rewrite Hm.
    + rewrite Hm. by destruct (negb (JS.truthy (tm_text m))).
  - intros messages. induction messages as [|m rest IH]; simpl.
    + split; [constructor|done].
    + destruct (JS.truthy (tm_text m)) eqn:Htext; simpl.
      * destruct (linearIssueMatch cfg (default "" (tm_text m))) eqn:Hmatch.
        -- split; [done|]. intros Hall. inversion Hall as [|? ? [?|?]]; congruence.
        -- rewrite IH. split; [intros; constructor; auto|]. by inversion 1.
      * rewrite IH. split; [intros; constructor; auto|]. by inversion 1.
Qed.

(** ** Recovery, from the scan to the last handler *)

Lemma pushes_pushAll items : ∀ s,
  pushes (log (foldl (λ acc item, push item acc) s items)) = pushes (log s) ++ items.
Proof.
  induction items as [|item items IH]; intros s; simpl; [by rewrite app_nil_r|].
  rewrite IH. simpl. rewrite pushes_app. simpl. by rewrite <- app_assoc.
Qed.

Lemma pushes_recover cfg history s :
  pushes (log (recoverAtStartup cfg history s))
  = pushes (log s) ++ recoveredItems cfg history (clock s).
Proof.
  unfold recoverAtStartup, recoverMissedMessages.
  destruct (Nat.ltb 0 _); rewrite ?pushes_processQueue; apply pushes_pushAll.
Qed.

(** Resumptions alone leave the set of processed timestamps as it is. *)
Lemma settles_processed cfg ws : ∀ s s',
  Inv s → PendingOk (λ _, sameProcessed) s →
  run cfg s (map (EvSettle 0) ws) = Some s' →
  processedMessages (store s') = processedMessages (store s).
Proof.
  induction ws as [|w ws IH]; intros s s' HI HP Hr; simpl in Hr.
  - by inversion Hr.
  - destruct (drains s !! 0) as [d|] eqn:Hd; [|done].
    assert (Hs : step cfg s (EvSettle 0 w) = Some (resume cfg 0 d w s))
      by (simpl; by rewrite Hd).
    rewrite (IH (resume cfg 0 d w s) s');
      [|by apply (Inv_step cfg s (EvSettle 0 w))
       |by apply (PendingOk_step cfg (λ _, sameProcessed)
                    (dispatch_sameProcessed cfg) s (EvSettle 0 w))
       |done].
    by apply (resume_relates cfg (λ _, sameProcessed) s 0 d w).
Qed.

Lemma pushAll_latch items : ∀ s,
  isProcessing (foldl (λ acc item, push item acc) s items) = isProcessing s
  ∧ drains (foldl (λ acc item, push item acc) s items) = drains s
  ∧ starts (log (foldl (λ acc item, push item acc) s items)) = starts (log s).
Proof.
  induction items as [|item items IH]; intros s; simpl; [done|].
  destruct (IH (push item s)) as (-> & -> & ->). simpl.
  rewrite starts_app. simpl. by rewrite app_nil_r.
Qed.

(** After recovery at an idle point, the recovered items are the backlog:
    the first is in hand, the others are queued. *)
Lemma backlog_recover cfg history s :
  Inv s → isProcessing s = false →
  backlog (recoverAtStartup cfg history s) = recoveredItems cfg history (clock s)
  ∧ (isProcessing (recoverAtStartup cfg history s) = false →
     recoveredItems cfg history (clock s) = []).
Proof.
  intros [HI0 HIq] Hidle. pose proof (inv_latch _ HI0) as Hlen. rewrite Hidle in Hlen.
  assert (Hd : drains s = []) by (by destruct (drains s)).
  unfold recoverAtStartup, recoverMissedMessages, backlog.
  generalize (recoveredItems cfg history (clock s)). intros items.
  pose proof (messageQueue_pushAll items s) as Hq0. rewrite (HIq Hidle) in Hq0.
  simpl in Hq0.
  destruct (pushAll_latch items s) as (Hl0 & Hd0 & _).
  rewrite Hidle in Hl0. rewrite Hd in Hd0.
  set (s0 := foldl _ s items) in *. clearbody s0.
  destruct s0 as [c st q p ds im lg]. simpl in Hq0, Hl0, Hd0. subst q p ds.
  by destruct items as [|item rest].
Qed.

(** X16. Recovery at an idle point of a run, followed by the resumptions
    of the bound of each recovered item (three, and one more for each
    image of the message): the whole backlog is handled. The handlers of
    the recovered items are invoked one after the other in the order in
    which recovery pushed them, after those of all items pushed before;
    the queue is empty and the latch released at the end; and the set of
    processed timestamps is the one from before recovery. *)
Theorem recovery_handles_backlog cfg evs s history ws :
  run cfg initial evs = Some s →
  isProcessing s = false →
  sum_list_with resumptions (recoveredItems cfg history (clock s)) ≤ length ws →
  ∃ n s',
    run cfg (recoverAtStartup cfg history s) (map (EvSettle 0) (take n ws)) = Some s'
    ∧ isProcessing s' = false
    ∧ messageQueue s' = []
    ∧ starts (log s') = starts (log s) ++ recoveredItems cfg history (clock s)
    ∧ processedMessages (store s') = processedMessages (store s).
Proof.
  intros Hr Hidle Hws.
  pose proof (Inv_run cfg evs initial s Inv_initial Hr) as HI.
  assert (HP : PendingOk (λ _, sameProcessed) s).
  { apply (PendingOk_run cfg (λ _, sameProcessed) (dispatch_sameProcessed cfg)
             evs initial); [apply Inv_initial| |done].
    intros d Hd. by apply elem_of_nil in Hd. }
  assert (Hq : messageQueue s = []) by (by apply HI).
  assert (Hfifo : starts (log s) = pushes (log s)).
  { destruct HI as [[_ _ Hf _ _ _] _]. by rewrite Hq, app_nil_r in Hf. }
  set (s1 := recoverAtStartup cfg history s).
  assert (HI1 : Inv s1) by (by apply Inv_recover).
  assert (HP1 : PendingOk (λ _, sameProcessed) s1).
  { by apply (PendingOk_recover cfg (λ _, sameProcessed) (dispatch_sameProcessed cfg)). }
  assert (Hpush1 : pushes (log s1) = pushes (log s) ++ recoveredItems cfg history (clock s))
    by apply pushes_recover.
  assert (Hstore1 : store s1 = store s) by apply recover_store.
  assert (Hend : ∀ n s',
    run cfg s1 (map (EvSettle 0) (take n ws)) = Some s' →
    isProcessing s' = false → messageQueue s' = [] →
    pushes (log s') = pushes (log s1) →
    starts (log s') = starts (log s) ++ recoveredItems cfg history (clock s)
    ∧ processedMessages (store s') = processedMessages (store s)).
  { intros n s' Hrun Hlatch Hempty Hpushes. split.
    - pose proof (Inv_run cfg _ s1 s' HI1 Hrun) as [[_ _ Hf _ _ _] _].
      rewrite Hempty, app_nil_r in Hf. by rewrite Hf, Hpushes, Hpush1, Hfifo.
    - rewrite (settles_processed cfg _ s1 s' HI1 HP1 Hrun). by rewrite Hstore1. }
  destruct (backlog_recover cfg history s HI Hidle) as [Hback _]. fold s1 in Hback.
  destruct (isProcessing s1) eqn:Hlatch1.
  - destruct HI1 as [HI0 HIq]. pose proof (inv_latch _ HI0) as Hlen.
    rewrite Hlatch1 in Hlen.
    destruct (drains s1) as [|d [|]] eqn:Hd; try done.
    unfold backlog in Hback. rewrite Hd in Hback. simpl in Hback.
    destruct (drain_completes cfg
                (sum_list_with resumptions (recoveredItems cfg history (clock s)))
                s1 d (resumptions (current d)) ws) as (n & s' & _ & Hrun & Hl & Hq' & Hp');
      [by split| done | apply (inv_pending _ HI0); rewrite Hd; by left
      | rewrite <- Hback; simpl; lia | done |].
    exists n, s'. destruct (Hend n s' Hrun Hl Hq' Hp'). done.
  - exists 0, s1. simpl.
    assert (Hq1 : messageQueue s1 = []) by (by apply HI1).
    destruct (Hend 0 s1); try done.
Qed.

Lemma recovery_handles_backlog_witness :
  sum_list_with resumptions (recoveredItems sampleConfig (λ _, imageHistory) 0) = 7
  ∧ ∃ n s',
      run sampleConfig (recoverAtStartup sampleConfig (λ _, imageHistory) initial)
        (map (EvSettle 0) (take n (replicate 7 uploadingWorld))) = Some s'
      ∧ isProcessing s' = false
      ∧ length (starts (log s')) = 2.
Proof.
  split; [reflexivity|].
  destruct (recovery_handles_backlog sampleConfig [] initial (λ _, imageHistory)
              (replicate 7 uploadingWorld) eq_refl eq_refl)
    as (n & s' & Hrun & Hlatch & _ & Hstarts & _).
  - vm_compute. lia.
  - exists n, s'. split; [exact Hrun|]. split; [exact Hlatch|].
    rewrite Hstarts. reflexivity.
Defined.

(** ** Start-up: the connection to Linear *)

Lemma connectLoop_spec viewer maxRetries initialDelayMs :
  ∀ fuel attempt sleeps,
    attempt + fuel = S maxRetries → 1 ≤ attempt →
    ∃ last,
      attempt ≤ last
      ∧ (∀ j, attempt ≤ j < last →
              ∃ e, viewer j = Some e ∧ isNetworkError e = true)
      ∧ snd (connectLoop viewer maxRetries initialDelayMs fuel attempt sleeps)
        = sleeps ++ map (λ j, (initialDelayMs * 2 ^ (Z.of_nat j - 1))%Z)
                        (seq attempt (last - attempt))
      ∧ match fst (connectLoop viewer maxRetries initialDelayMs fuel attempt sleeps) with
        | Connected k => k = last ∧ last ≤ maxRetries ∧ viewer last = None
        | Exit1 k =>
            k = last ∧ last ≤ maxRetries
            ∧ ∃ e, viewer last = Some e
                   ∧ (isNetworkError e = false ∨ last = maxRetries)
        | LoopLeft => attempt = S maxRetries
        end.
Proof.
  induction fuel as [|fuel IH]; intros attempt sleeps Hfuel Hpos; simpl.
  - exists attempt. rewrite Nat.sub_diag. simpl. rewrite app_nil_r.
    repeat split; try done; lia.
  - destruct (viewer attempt) as [e|] eqn:Hv.
    + destruct (isNetworkError e) eqn:Hnet; simpl.
      * destruct (Nat.ltb_spec attempt maxRetries) as [Hlt|Hge].
        -- destruct (IH (S attempt) (sleeps ++ [(initialDelayMs * 2 ^ (Z.of_nat attempt - 1))%Z]))
             as (last & Hle & Hall & Hsl & Hend); [lia|lia|].
           exists last. split; [lia|]. split; [|split].
           ++ intros j Hj. destruct (decide (j = attempt)) as [->|]; [by exists e|].
              apply Hall. lia.
           ++ rewrite Hsl, <- app_assoc. f_equal.
              replace (last - attempt) with (S (last - S attempt)) by lia. done.
           ++ destruct (fst _); [done|done|]. lia.
        -- exists attempt. rewrite Nat.sub_diag. simpl. rewrite app_nil_r.
           repeat split; try done; try lia. exists e. split; [done|]. right. lia.
      * exists attempt. rewrite Nat.sub_diag. simpl. rewrite app_nil_r.
        repeat split; try done; try lia. exists e. split; [done|]. by left.
    + exists attempt. rewrite Nat.sub_diag. simpl. rewrite app_nil_r.
      repeat split; try done; lia.
Qed.

(** X17. [connectToLinearWithRetry] reads the viewer at most five times.
    It goes on to the next attempt only after a network error at an
    attempt before the fifth, and sleeps 2, 4, 8 and 16 seconds between
    the attempts, at most thirty seconds in all. It returns at the first
    attempt that succeeds, and it ends the process with exit code 1 at
    the first failure that is not a network error, or at the fifth
    failure; it never returns without a connection. *)
Theorem linear_connection_retry viewer :
  ∃ last,
    1 ≤ last ≤ 5
    ∧ (∀ j, 1 ≤ j < last → ∃ e, viewer j = Some e ∧ isNetworkError e = true)
    ∧ snd (connectToLinearWithRetry viewer)
      = take (last - 1) [2000; 4000; 8000; 16000]%Z
    ∧ (foldr Z.add 0 (snd (connectToLinearWithRetry viewer)) ≤ 30000)%Z
    ∧ (fst (connectToLinearWithRetry viewer) = Connected last ∧ viewer last = None
       ∨ fst (connectToLinearWithRetry viewer) = Exit1 last
         ∧ ∃ e, viewer last = Some e ∧ (isNetworkError e = false ∨ last = 5)).
Proof.
  destruct (connectLoop_spec viewer 5 2000 5 1 []) as (last & Hle & Hall & Hsl & Hend);
    [lia|lia|].
  fold (connectToLinearWithRetry viewer) in Hsl, Hend.
  assert (Hlast : last ≤ 5).
  { destruct (fst (connectToLinearWithRetry viewer)); [lia|lia|lia]. }
  exists last. split; [lia|]. split; [done|].
  assert (Hsleeps : snd (connectToLinearWithRetry viewer)
                    = take (last - 1) [2000; 4000; 8000; 16000]%Z).
  { rewrite Hsl.
    destruct last as [|[|[|[|[|[|]]]]]]; try lia; reflexivity. }
  split; [done|]. split.
  - rewrite Hsleeps. destruct last as [|[|[|[|[|[|]]]]]]; try lia; simpl; lia.
  - destruct (fst (connectToLinearWithRetry viewer)) as [k|k|].
    + left. destruct Hend as (-> & _ & Hv). done.
    + right. destruct Hend as (-> & _ & Hv). done.
    + lia.
Qed.

(** ** The verdicts of the triager *)

Lemma firstMatch_elim (P : string → Prop) atStart :
  (∀ s m, atStart s = Some m → P m) →
  ∀ s m, Pattern.firstMatch atStart s = Some m → P m.
Proof.
  intros Hat s. induction s as [|c rest IH]; intros m; simpl.
  - destruct (atStart "") eqn:H0; [|done]. intros Hm. inversion Hm; subst.
    by apply (Hat "").
  - destruct (atStart (String c rest)) eqn:H0; [|apply IH].
    intros Hm. inversion Hm; subst. by apply (Hat (String c rest)).
Qed.

Lemma append_nonempty (a b : string) : a ≠ "" → a +:+ b ≠ "".
Proof. by destruct a. Qed.

(** What the three patterns capture is never the empty string. *)
Lemma matchIdentifier_nonempty s m : Agent.matchIdentifier s = Some m → m ≠ "".
Proof.
  revert s m. apply (firstMatch_elim (λ m, m ≠ "")). intros s m.
  unfold Agent.identifierAt.
  destruct (Pattern.span Pattern.isUpper s) as [letters rest].
  destruct (String.eqb_spec letters ""); [done|].
  destruct rest as [|c rest']; [done|].
  destruct (Ascii.eqb_spec c "-"); [|by repeat case_match].
  subst. destruct (Pattern.span Pattern.isDigit rest') as [digits ?].
  destruct (String.eqb digits ""); [done|].
  intros Hm. inversion Hm. by apply append_nonempty.
Qed.

Lemma matchUrl_nonempty s m : Agent.matchUrl s = Some m → m ≠ "".
Proof.
  revert s m. apply (firstMatch_elim (λ m, m ≠ "")). intros s m. unfold Agent.urlAt.
  destruct (Pattern.after _ s) as [rest|]; [|done].
  destruct (Pattern.span Agent.isUrlChar rest) as [path ?].
  destruct (String.eqb path ""); [done|]. intros Hm. by inversion Hm.
Qed.

Lemma matchId_nonempty s m : Agent.matchId s = Some m → m ≠ "".
Proof.
  revert s m. apply (firstMatch_elim (λ m, m ≠ "")). intros s m. unfold Agent.idAt.
  repeat (case_match; try discriminate). intros Hm. inversion Hm; subst.
  by apply eqb_empty_false.
Qed.

Lemma captured_ok_truthy v : captured_ok v → (JS.truthy v = true ↔ v ≠ None).
Proof. intros [->|H]; [done|]. rewrite H. by destruct v. Qed.

Lemma capture_ok captured m :
  captured_ok captured → (∀ x, m = Some x → x ≠ "") →
  captured_ok (Agent.capture captured m).
Proof.
  intros Hc Hm. unfold Agent.capture. destruct m as [x|]; [|done].
  destruct (JS.truthy captured) eqn:Ht; [by right|].
  right. simpl. rewrite truthy_false_eqb; [done|]. by apply Hm.
Qed.

(** The first capture stays. *)
Lemma capture_first captured m :
  JS.truthy captured = true → Agent.capture captured m = captured.
Proof. intros H. unfold Agent.capture. rewrite H. by destruct m. Qed.

Ltac capture_tac :=
  apply capture_ok;
  [assumption
  |intros ? ?;
   first [eapply matchId_nonempty; eassumption
         |eapply matchUrl_nonempty; eassumption
         |eapply matchIdentifier_nonempty; eassumption]].

Lemma triageStep_ok st message : TriageOk st → TriageOk (Agent.triageStep st message).
Proof.
  intros [Hid Hurl Hident Hrid Hrurl Hrident Hres].
  destruct message as [text|[resultText|]|]; simpl; try by split.
  - destruct (Agent.isSynthetic text); split; simpl; try done; capture_tac.
  - assert (Hu : captured_ok (Agent.capture (Agent.capturedTicketUrl st)
                                (Agent.matchUrl resultText)))
      by capture_tac.
    assert (Hi : captured_ok (Agent.capture (Agent.capturedTicketIdentifier st)
                                (Agent.matchIdentifier resultText)))
      by capture_tac.
    destruct (JS.truthy (Agent.capture (Agent.capturedTicketUrl st)
                           (Agent.matchUrl resultText))
              || JS.truthy (Agent.capture (Agent.capturedTicketIdentifier st)
                              (Agent.matchIdentifier resultText)))%bool eqn:Hticket.
    + split; simpl; try done. by destruct (Agent.linkedToExisting st).
    + destruct (Agent.isDeferred st); split; simpl; try done; try (by left);
        auto.
Qed.

Lemma triage_fold_ok l : ∀ st, TriageOk st → TriageOk (foldl Agent.triageStep st l).
Proof.
  induction l as [|m l IH]; intros st H; simpl; [done|].
  by apply IH, triageStep_ok.
Qed.

Lemma triageStart_ok : TriageOk Agent.triageStart.
Proof. split; simpl; try (by left). auto. Qed.

(** Messages without result text leave the verdict so far as it is. *)
Lemma triage_fold_noResult l : ∀ st,
  noResultText l →
  Agent.finalResult (foldl Agent.triageStep st l) = Agent.finalResult st.
Proof.
  induction l as [|m l IH]; intros st H; simpl; [done|].
  inversion H as [|? ? Hm Hl]; subst. rewrite IH by done.
  destruct m as [text|[t|]|]; simpl; try done.
  - by destruct (Agent.isSynthetic text).
  - by destruct (Hm t).
Qed.

(** X18. The verdict of [triageMessage]. When the iteration over the
    stream fails, the body of the [try] throws the failure; otherwise it
    returns a verdict that is never [error], that is [created] or
    [duplicate] exactly when it carries a ticket URL or identifier, that
    carries no id, URL or identifier when it is [skipped] or [deferred],
    and whose id, URL and identifier are never the empty string. Without
    a result message with text, the verdict is [skipped] with the message
    [No action taken]. The last result message with text decides: with a
    URL or an identifier captured up to and in its text, the verdict is
    [duplicate] if an assistant text before spoke of an existing ticket
    and [created] if not, with the id captured so far; else it is
    [deferred] if a deferral was detected, and [skipped] if not. *)
Theorem triage_verdict run :
  match Agent.triageMessage run with
  | Threw e => Agent.failure run = Some e
  | Returned r =>
      Agent.failure run = None
      ∧ r_action r ≠ error
      ∧ (r_action r = created ∨ r_action r = duplicate
         ↔ r_ticketUrl r ≠ None ∨ r_ticketIdentifier r ≠ None)
      ∧ (r_action r = skipped ∨ r_action r = deferred →
         r_ticketId r = None ∧ r_ticketUrl r = None ∧ r_ticketIdentifier r = None)
      ∧ r_ticketId r ≠ Some "" ∧ r_ticketUrl r ≠ Some ""
      ∧ r_ticketIdentifier r ≠ Some ""
  end
  ∧ (Agent.failure run = None → noResultText (Agent.messages run) →
     Agent.triageMessage run
     = Returned {| r_action := skipped; r_ticketId := None; r_ticketUrl := None;
                   r_ticketIdentifier := None; r_message := "No action taken" |})
  ∧ (∀ before resultText after,
       Agent.failure run = None →
       Agent.messages run = before ++ Agent.result (Some resultText) :: after →
       noResultText after →
       let st := foldl Agent.triageStep Agent.triageStart before in
       let url := Agent.capture (Agent.capturedTicketUrl st) (Agent.matchUrl resultText) in
       let identifier :=
         Agent.capture (Agent.capturedTicketIdentifier st)
           (Agent.matchIdentifier resultText) in
       Agent.triageMessage run
       = Returned
           (if (JS.truthy url || JS.truthy identifier)%bool then
              {| r_action := if Agent.linkedToExisting st then duplicate else created;
                 r_ticketId := Agent.capturedTicketId st;
                 r_ticketUrl := url;
                 r_ticketIdentifier := identifier;
                 r_message := resultText |}
            else
              {| r_action := if Agent.isDeferred st then deferred else skipped;
                 r_ticketId := None; r_ticketUrl := None;
                 r_ticketIdentifier := None; r_message := resultText |})).
Proof.
  split; [|split].
  - unfold Agent.triageMessage. destruct (Agent.failure run) as [e|]; [done|].
    pose proof (triage_fold_ok (Agent.messages run) _ triageStart_ok)
      as [_ _ _ Hrid Hrurl Hrident Hres].
    set (r := Agent.finalResult _) in *. split; [done|].
    assert (Hne : ∀ v, captured_ok v → v ≠ Some "").
    { intros v [->|Hv]; [done|]. intros ->. done. }
    assert (Htruthy : (JS.truthy (r_ticketUrl r) || JS.truthy (r_ticketIdentifier r))%bool
                      = true
                      ↔ r_ticketUrl r ≠ None ∨ r_ticketIdentifier r ≠ None).
    { rewrite orb_true_iff, !captured_ok_truthy by done. done. }
    assert (Hfields : r_ticketId r ≠ Some "" ∧ r_ticketUrl r ≠ Some ""
                      ∧ r_ticketIdentifier r ≠ Some "") by auto.
    unfold isTicketAction in Hres.
    destruct (r_action r) eqn:Ha; simpl in Hres.
    + split; [done|]. split; [split; [intros _; by apply Htruthy|by left]|].
      split; [intros [?|?]; done|done].
    + split; [done|]. split; [split; [intros _; by apply Htruthy|by right]|].
      split; [intros [?|?]; done|done].
    + destruct Hres as (_ & Hi & Hu & Hid). split; [done|].
      split; [split; [intros [?|?]; done|rewrite Hu, Hid; intros [?|?]; done]|].
      split; [done|done].
    + destruct Hres as (_ & Hi & Hu & Hid). split; [done|].
      split; [split; [intros [?|?]; done|rewrite Hu, Hid; intros [?|?]; done]|].
      split; [done|done].
    + destruct Hres as ([?|?] & _); done.
  - intros Hf Hno. unfold Agent.triageMessage. rewrite Hf.
    by rewrite triage_fold_noResult.
  - intros before resultText after Hf Hm Hno st url identifier.
    unfold Agent.triageMessage. rewrite Hf, Hm, foldl_app. simpl.
    rewrite triage_fold_noResult by done. simpl. fold st. fold url. fold identifier.
    destruct (JS.truthy url || JS.truthy identifier)%bool; [done|].
    by destruct (Agent.isDeferred st).
Qed.

(** A capture that a loop keeps once it is made: [get] reads it from the
    variables of the loop, [step] is the body of the loop. *)
Lemma kept_capture {S : Type} (step : S → Agent.SDKMessage → S) (get : S → option string) :
  (∀ st m, captured_ok (get st) → captured_ok (get (step st m))) →
  (∀ st m, JS.truthy (get st) = true → get (step st m) = get st) →
  ∀ start before after,
    captured_ok (get start) →
    get (foldl step start before) ≠ None →
    get (foldl step start (before ++ after)) = get (foldl step start before).
Proof.
  intros Hok Hkeep start before after Hstart Hsome. rewrite foldl_app.
  assert (Hb : captured_ok (get (foldl step start before))).
  { clear Hsome. revert start Hstart.
    induction before as [|m l IH]; intros start Hstart; simpl; [done|].
    by apply IH, Hok. }
  assert (Ht : JS.truthy (get (foldl step start before)) = true)
    by (by apply captured_ok_truthy).
  clear Hsome Hb. revert Ht. generalize (foldl step start before). clear start before Hstart.
  induction after as [|m l IH]; intros st Ht; simpl; [done|].
  rewrite IH by (by rewrite Hkeep). by apply Hkeep.
Qed.

(** A flag that a loop never lowers. *)
Lemma kept_flag {S : Type} (step : S → Agent.SDKMessage → S) (get : S → bool) :
  (∀ st m, get st = true → get (step st m) = true) →
  ∀ start before after,
    get (foldl step start before) = true →
    get (foldl step start (before ++ after)) = true.
Proof.
  intros Hkeep start before after. rewrite foldl_app.
  generalize (foldl step start before). clear start before.
  induction after as [|m l IH]; intros st Ht; simpl; [done|]. by apply IH, Hkeep.
Qed.

(** X19. In the loops of [triageMessage], [triageOrphanThreadReply] and
    [handleDeferredFollowup], the first capture wins: once a ticket id, a
    ticket URL or a ticket identifier is captured, no later message
    changes it. The flags for an existing ticket, for a deferral and for
    an added comment, once raised, stay raised; and the deferral flag is
    not raised any more once a ticket id or a ticket URL is captured. *)
Theorem first_capture_wins before after :
  (let st := foldl Agent.triageStep Agent.triageStart before in
   let st' := foldl Agent.triageStep Agent.triageStart (before ++ after) in
   (Agent.capturedTicketId st ≠ None →
    Agent.capturedTicketId st' = Agent.capturedTicketId st)
   ∧ (Agent.capturedTicketUrl st ≠ None →
      Agent.capturedTicketUrl st' = Agent.capturedTicketUrl st)
   ∧ (Agent.capturedTicketIdentifier st ≠ None →
      Agent.capturedTicketIdentifier st' = Agent.capturedTicketIdentifier st)
   ∧ (Agent.linkedToExisting st = true → Agent.linkedToExisting st' = true)
   ∧ (Agent.isDeferred st = true → Agent.isDeferred st' = true)
   ∧ (Agent.capturedTicketId st ≠ None ∨ Agent.capturedTicketUrl st ≠ None →
      Agent.isDeferred st' = Agent.isDeferred st))
  ∧ (let st := foldl Agent.orphanStep Agent.orphanStart before in
     let st' := foldl Agent.orphanStep Agent.orphanStart (before ++ after) in
     (Agent.o_capturedTicketId st ≠ None →
      Agent.o_capturedTicketId st' = Agent.o_capturedTicketId st)
     ∧ (Agent.o_capturedTicketUrl st ≠ None →
        Agent.o_capturedTicketUrl st' = Agent.o_capturedTicketUrl st)
     ∧ (Agent.o_capturedTicketIdentifier st ≠ None →
        Agent.o_capturedTicketIdentifier st' = Agent.o_capturedTicketIdentifier st)
     ∧ (Agent.o_addedComment st = true → Agent.o_addedComment st' = true))
  ∧ (let st := foldl Agent.deferredStep Agent.deferredStart before in
     let st' := foldl Agent.deferredStep Agent.deferredStart (before ++ after) in
     (Agent.d_capturedTicketId st ≠ None →
      Agent.d_capturedTicketId st' = Agent.d_capturedTicketId st)
     ∧ (Agent.d_capturedTicketIdentifier st ≠ None →
        Agent.d_capturedTicketIdentifier st' = Agent.d_capturedTicketIdentifier st)).
Proof.
  split; [|split]; cbv zeta.
  - split; [|split; [|split; [|split; [|split]]]].
    + apply (kept_capture Agent.triageStep Agent.capturedTicketId); [| |by left].
      * intros st [text|[t|]|] Hok; simpl; try done.
        destruct (Agent.isSynthetic text); [done|]. simpl. capture_tac.
      * intros st [text|[t|]|] Ht; simpl; try done.
        destruct (Agent.isSynthetic text); [done|]. simpl. by apply capture_first.
    + apply (kept_capture Agent.triageStep Agent.capturedTicketUrl); [| |by left].
      * intros st [text|[t|]|] Hok; simpl; try done; [|capture_tac].
        destruct (Agent.isSynthetic text); [done|]. simpl. capture_tac.
      * intros st [text|[t|]|] Ht; simpl; try done; [|by apply capture_first].
        destruct (Agent.isSynthetic text); [done|]. simpl. by apply capture_first.
    + apply (kept_capture Agent.triageStep Agent.capturedTicketIdentifier); [| |by left].
      * intros st [text|[t|]|] Hok; simpl; try done; [|capture_tac].
        destruct (Agent.isSynthetic text); [done|]. simpl. capture_tac.
      * intros st [text|[t|]|] Ht; simpl; try done; [|by apply capture_first].
        destruct (Agent.isSynthetic text); [done|]. simpl. by apply capture_first.
    + apply (kept_flag Agent.triageStep Agent.linkedToExisting).
      intros st [text|[t|]|] Ht; simpl; try done.
      destruct (Agent.isSynthetic text); [done|]. simpl. rewrite Ht. by case_match.
    + apply (kept_flag Agent.triageStep Agent.isDeferred).
      intros st [text|[t|]|] Ht; simpl; try done.
      destruct (Agent.isSynthetic text); [done|]. simpl. rewrite Ht. by case_match.
    + intros Hsome. rewrite foldl_app.
      pose proof (triage_fold_ok before _ triageStart_ok) as [Hid Hurl _ _ _ _ _].
      assert (Ht : JS.truthy (Agent.capturedTicketId
                                (foldl Agent.triageStep Agent.triageStart before)) = true
                   ∨ JS.truthy (Agent.capturedTicketUrl
                                  (foldl Agent.triageStep Agent.triageStart before)) = true).
      { destruct Hsome as [H|H]; [left|right]; by apply captured_ok_truthy. }
      clear Hsome Hid Hurl. revert Ht.
      generalize (foldl Agent.triageStep Agent.triageStart before).
      induction after as [|m l IH]; intros st Ht; simpl; [done|].
      assert (Hstep : Agent.isDeferred (Agent.triageStep st m) = Agent.isDeferred st
                      ∧ (JS.truthy (Agent.capturedTicketId (Agent.triageStep st m)) = true
                         ∨ JS.truthy (Agent.capturedTicketUrl (Agent.triageStep st m))
                           = true)).
      { destruct m as [text|[t|]|]; simpl; try done.
        - destruct (Agent.isSynthetic text); [done|]. simpl.
          destruct Ht as [Ht|Ht]; rewrite (capture_first _ _ Ht), Ht; simpl;
            rewrite ?andb_false_r; auto.
        - destruct Ht as [Ht|Ht]; [by auto|]. rewrite (capture_first _ _ Ht). auto. }
      destruct Hstep as [Hd Ht']. rewrite IH by done. done.
  - split; [|split; [|split]].
    + apply (kept_capture Agent.orphanStep Agent.o_capturedTicketId); [| |by left].
      * intros st [text|[t|]|] Hok; simpl; try done.
        destruct (Agent.isSynthetic text); [done|]. simpl. capture_tac.
      * intros st [text|[t|]|] Ht; simpl; try done.
        destruct (Agent.isSynthetic text); [done|]. simpl. by apply capture_first.
    + apply (kept_capture Agent.orphanStep Agent.o_capturedTicketUrl); [| |by left].
      * intros st [text|[t|]|] Hok; simpl; try done.
        destruct (Agent.isSynthetic text); [done|]. simpl. capture_tac.
      * intros st [text|[t|]|] Ht; simpl; try done.
        destruct (Agent.isSynthetic text); [done|]. simpl. by apply capture_first.
    + apply (kept_capture Agent.orphanStep Agent.o_capturedTicketIdentifier); [| |by left].
      * intros st [text|[t|]|] Hok; simpl; try done.
        destruct (Agent.isSynthetic text); [done|]. simpl. capture_tac.
      * intros st [text|[t|]|] Ht; simpl; try done.
        destruct (Agent.isSynthetic text); [done|]. simpl. by apply capture_first.
    + apply (kept_flag Agent.orphanStep Agent.o_addedComment).
      intros st [text|[t|]|] Ht; simpl; try done.
      destruct (Agent.isSynthetic text); [done|]. simpl. rewrite Ht. by case_match.
  - split.
    + apply (kept_capture Agent.deferredStep Agent.d_capturedTicketId); [| |by left].
      * intros st [text|[t|]|] Hok; simpl; try done.
        destruct (Agent.isSynthetic text); [done|]. simpl. capture_tac.
      * intros st [text|[t|]|] Ht; simpl; try done.
        destruct (Agent.isSynthetic text); [done|]. simpl. by apply capture_first.
    + apply (kept_capture Agent.deferredStep Agent.d_capturedTicketIdentifier); [| |by left].
      * intros st [text|[t|]|] Hok; simpl; try done.
        destruct (Agent.isSynthetic text); [done|]. simpl. capture_tac.
      * intros st [text|[t|]|] Ht; simpl; try done.
        destruct (Agent.isSynthetic text); [done|]. simpl. by apply capture_first.
Qed.

(** X20. What [processNewMessage] records for a run of the agent. The
    call of [triageMessage] always returns. Whatever the verdict, the
    message gets an entry with the action, the URL and the clock reading,
    marked as triaged exactly for [created] and [duplicate]. A failed run
    gives the action [error], and like a [skipped] verdict it leaves the
    thread table as it is. A [deferred] verdict gives the thread a
    deferred entry with the text of the message. A [created] or
    [duplicate] verdict gives the thread an entry with the captured id,
    or else the captured identifier, as ticket id; when the run showed a
    URL but neither an id nor an identifier, the thread gets no entry,
    though the message is marked as triaged. *)
Theorem triage_run_recorded query w input data msg_ts now st :
  ∃ r,
    perform (agentWorld query w) (triageMessage input) = Returned r
    ∧ (Agent.failure query ≠ None ↔ r_action r = error)
    ∧ (∃ e, messageTicketMap (recordTriage data msg_ts r now st) !! msg_ts = Some e
            ∧ m_action e = r_action r
            ∧ m_wasTriaged e = isTicketAction (r_action r)
            ∧ m_ticketUrl e = r_ticketUrl r
            ∧ m_createdAt e = now)
    ∧ (r_action r = error ∨ r_action r = skipped →
       threadTicketMap (recordTriage data msg_ts r now st) = threadTicketMap st)
    ∧ (r_action r = deferred →
       ∃ e, threadTicketMap (recordTriage data msg_ts r now st) !! msg_ts = Some e
            ∧ t_isDeferred e = true ∧ t_ticketId e = ""
            ∧ t_originalContext e = n_text data)
    ∧ (r_action r = created ∨ r_action r = duplicate →
       match JS.or (r_ticketId r) (r_ticketIdentifier r) with
       | Some ticket =>
           ∃ e, threadTicketMap (recordTriage data msg_ts r now st) !! msg_ts = Some e
                ∧ t_isDeferred e = false ∧ t_ticketId e = ticket ∧ ticket ≠ ""
                ∧ t_isDuplicate e = bool_decide (r_action r = duplicate)
       | None =>
           r_ticketUrl r ≠ None
           ∧ threadTicketMap (recordTriage data msg_ts r now st) = threadTicketMap st
       end).
Proof.
  assert (Hrec : ∀ r, ∃ e,
    messageTicketMap (recordTriage data msg_ts r now st) !! msg_ts = Some e
    ∧ m_action e = r_action r ∧ m_wasTriaged e = isTicketAction (r_action r)
    ∧ m_ticketUrl e = r_ticketUrl r ∧ m_createdAt e = now).
  { intros r. rewrite recordTriage_messages, cleanup_message_same by done.
    eexists. split; [done|]. done. }
  assert (Hperf : ∀ r,
    try_catch (Agent.triageMessage query)
      (λ e, {| r_action := error; r_ticketId := None; r_ticketUrl := None;
               r_ticketIdentifier := None; r_message := e |}) = Returned r →
    perform (agentWorld query w) (triageMessage input) = Returned r)
    by (intros r H; exact H).
  pose proof (triage_fold_ok (Agent.messages query) _ triageStart_ok) as Hok.
  unfold Agent.triageMessage in Hperf.
  destruct (Agent.failure query) as [e|] eqn:Hf.
  - eexists. split; [by apply Hperf|]. split; [done|]. split; [apply Hrec|].
    split; [intros _; by rewrite recordTriage_threads|].
    split; [done|]. intros [?|?]; done.
  - destruct Hok as [_ _ _ Hrid Hrurl Hrident Hres].
    set (r := Agent.finalResult _) in *.
    exists r. split; [by apply Hperf|].
    assert (Hne : r_action r ≠ error).
    { intros Ha. rewrite Ha in Hres. simpl in Hres.
      destruct Hres as ([?|?] & _); done. }
    split; [split; [done|intros; done]|]. split; [apply Hrec|].
    split; [|split].
    + intros [Ha|Ha]; [done|]. rewrite recordTriage_threads, Ha. done.
    + intros Ha. rewrite recordTriage_threads, Ha. simpl.
      rewrite cleanup_insert_same by done. eexists. split; [done|]. done.
    + intros Ha.
      assert (Hticket : isTicketAction (r_action r) = true).
      { unfold isTicketAction. by apply bool_decide_eq_true. }
      rewrite Hticket in Hres. rewrite recordTriage_threads, Hticket. simpl.
      unfold JS.or.
      destruct (JS.truthy (r_ticketId r)) eqn:Hid; simpl.
      * destruct (r_ticketId r) as [ticket|] eqn:Hrid'; [|done].
        rewrite cleanup_insert_same by done. eexists. split; [done|]. simpl.
        repeat split; try done. apply eqb_empty_false. simpl in Hid.
        by destruct (String.eqb ticket "").
      * destruct (r_ticketIdentifier r) as [ticket|] eqn:Hrident'.
        -- assert (Hti : JS.truthy (Some ticket) = true).
           { by apply captured_ok_truthy. }
           rewrite Hti. rewrite cleanup_insert_same by done.
           eexists. split; [done|]. simpl.
           repeat split; try done. simpl in Hti. apply eqb_empty_false.
           by destruct (String.eqb ticket "").
        -- simpl. split; [|destruct Ha as [Ha|Ha]; by rewrite Ha].
           simpl in Hres. rewrite orb_false_r in Hres.
           intros Hu. by rewrite Hu in Hres.
Qed.

Lemma orphan_fold_ok l : ∀ st, OrphanOk st → OrphanOk (foldl Agent.orphanStep st l).
Proof.
  induction l as [|m l IH]; intros st H; simpl; [done|]. apply IH.
  destruct H as (Hid & Hident & Hrid & Herr & Hskip).
  destruct m as [text|[t|]|]; simpl; try done.
  - destruct (Agent.isSynthetic text); [done|]. unfold OrphanOk. simpl.
    split; [capture_tac|]. split; [capture_tac|]. auto.
  - unfold OrphanOk. simpl. repeat case_match; simpl; repeat split; try done;
      by left.
Qed.

Lemma orphan_fold_noResult l : ∀ st,
  noResultText l →
  Agent.o_finalResult (foldl Agent.orphanStep st l) = Agent.o_finalResult st.
Proof.
  induction l as [|m l IH]; intros st H; simpl; [done|].
  inversion H as [|? ? Hm Hl]; subst. rewrite IH by done.
  destruct m as [text|[t|]|]; simpl; try done.
  - by destruct (Agent.isSynthetic text).
  - by destruct (Hm t).
Qed.

Lemma orphanStart_ok : OrphanOk Agent.orphanStart.
Proof. repeat split; simpl; try done; by left. Qed.

(** X21. What [processOrphanThreadHandler] records for a run of the
    agent. The call of [triageOrphanThreadReply] always returns, with
    the action [error] exactly when the run failed; a [skipped] or
    [error] verdict carries no ticket. The thread gets an entry exactly
    when the verdict carries a ticket id, that is, when an assistant
    text showed one: the entry has that id and is marked as a duplicate
    exactly when the verdict is [updated]; a verdict with a URL or an
    identifier only leaves the store as it is. The last result message
    with text decides the verdict: a text that tells of a skip gives
    [skipped] even when a ticket was captured; otherwise a captured URL
    or identifier gives [updated] when a comment was added and
    [created] when not; otherwise the verdict is [skipped]. *)
Theorem orphan_run_recorded query w input data now st :
  ∃ r,
    perform (agentWorld query w) (triageOrphanThreadReply input) = Returned r
    ∧ (Agent.failure query ≠ None ↔ or_action r = o_error)
    ∧ (or_action r = o_skipped ∨ or_action r = o_error →
       or_ticketId r = None ∧ or_ticketIdentifier r = None)
    ∧ (or_ticketId r = None → recordOrphan data r now st = st)
    ∧ (∀ ticketId,
         or_ticketId r = Some ticketId →
         ticketId ≠ ""
         ∧ threadTicketMap (recordOrphan data r now st) !! o_threadTs data
           = Some {| t_ticketId := ticketId;
                     t_ticketIdentifier :=
                       JS.or_default (or_ticketIdentifier r) ticketId;
                     t_createdAt := now;
                     t_isDuplicate := bool_decide (or_action r = o_updated);
                     t_isDeferred := false;
                     t_originalContext := None;
                     t_originalReporterId := Some (o_userId data) |})
    ∧ (∀ before resultText after,
         Agent.failure query = None →
         Agent.messages query = before ++ Agent.result (Some resultText) :: after →
         noResultText after →
         let s := foldl Agent.orphanStep Agent.orphanStart before in
         r = if Agent.tellsSkip resultText then
               {| or_action := o_skipped; or_ticketId := None;
                  or_ticketIdentifier := None; or_message := resultText |}
             else if (JS.truthy (Agent.o_capturedTicketUrl s)
                      || JS.truthy (Agent.o_capturedTicketIdentifier s))%bool then
               {| or_action := if Agent.o_addedComment s then o_updated else o_created;
                  or_ticketId := Agent.o_capturedTicketId s;
                  or_ticketIdentifier := Agent.o_capturedTicketIdentifier s;
                  or_message := resultText |}
             else
               {| or_action := o_skipped; or_ticketId := None;
                  or_ticketIdentifier := None; or_message := resultText |}).
Proof.
  assert (Hperf : ∀ r,
    try_catch (Agent.triageOrphanThreadReply query)
      (λ e, {| or_action := o_error; or_ticketId := None;
               or_ticketIdentifier := None; or_message := e |}) = Returned r →
    perform (agentWorld query w) (triageOrphanThreadReply input) = Returned r)
    by (intros r H; exact H).
  pose proof (orphan_fold_ok (Agent.messages query) _ orphanStart_ok) as Hok.
  unfold Agent.triageOrphanThreadReply in Hperf.
  destruct (Agent.failure query) as [e|] eqn:Hf.
  - eexists. split; [by apply Hperf|]. repeat split; try done.
  - destruct Hok as (_ & _ & Hrid & Herr & Hskip).
    set (r := Agent.o_finalResult _) in *.
    exists r. split; [by apply Hperf|].
    split; [split; [done|intros; done]|].
    split; [intros [Ha|Ha]; [by apply Hskip|done]|].
    split; [|split].
    + intros Hnone. unfold recordOrphan. rewrite Hnone. by repeat case_match.
    + intros ticketId Hsome.
      assert (Hne : ticketId ≠ "").
      { destruct Hrid as [Hrid|Hrid]; [congruence|]. rewrite Hsome in Hrid.
        simpl in Hrid. apply eqb_empty_false. by destruct (String.eqb ticketId ""). }
      split; [done|]. unfold recordOrphan. rewrite Hsome, truthy_false_eqb by done.
      destruct (or_action r) eqn:Ha; simpl; try (by rewrite lookup_insert_eq).
      * destruct (Hskip eq_refl). congruence.
      * done.
    + intros before resultText after _ Hm Hno s. unfold r.
      rewrite Hm, foldl_app. simpl. rewrite orphan_fold_noResult by done. done.
Qed.

Lemma deferred_fold_ok l : ∀ st, DeferredOk st → DeferredOk (foldl Agent.deferredStep st l).
Proof.
  induction l as [|m l IH]; intros st H; simpl; [done|]. apply IH.
  destruct H as (Hid & Hident & Hrid & Herr & Hskip).
  destruct m as [text|[t|]|]; simpl; try done.
  - destruct (Agent.isSynthetic text); [done|]. unfold DeferredOk. simpl.
    split; [capture_tac|]. split; [capture_tac|]. auto.
  - unfold DeferredOk. simpl. repeat case_match; simpl; repeat split; try done;
      by left.
Qed.

Lemma deferred_fold_noResult l : ∀ st,
  noResultText l →
  Agent.d_finalResult (foldl Agent.deferredStep st l) = Agent.d_finalResult st.
Proof.
  induction l as [|m l IH]; intros st H; simpl; [done|].
  inversion H as [|? ? Hm Hl]; subst. rewrite IH by done.
  destruct m as [text|[t|]|]; simpl; try done.
  - by destruct (Agent.isSynthetic text).
  - by destruct (Hm t).
Qed.

Lemma deferredStart_ok : DeferredOk Agent.deferredStart.
Proof. repeat split; simpl; try done; by left. Qed.

(** X22. What [processDeferredFollowupHandler] records for a run of the
    agent. The call of [handleDeferredFollowup] always returns, with the
    action [error] exactly when the run failed; a [no_action] or [error]
    verdict carries no ticket. The deferred entry of the thread is
    upgraded exactly when the verdict carries a ticket id and the thread
    still has an entry; a verdict [created] with an identifier only
    leaves the store as it is, so the thread stays deferred. The last
    result message with text decides the verdict: a text that tells that
    nothing was done gives [no_action] even when a ticket was captured;
    otherwise a captured id or identifier gives [created]; otherwise the
    verdict is [no_action]. *)
Theorem deferred_run_recorded query w input data now st :
  ∃ r,
    perform (agentWorld query w) (handleDeferredFollowup input) = Returned r
    ∧ (Agent.failure query ≠ None ↔ dr_action r = d_error)
    ∧ (dr_action r = d_no_action ∨ dr_action r = d_error →
       dr_ticketId r = None ∧ dr_ticketIdentifier r = None)
    ∧ (dr_ticketId r = None ∨ threadTicketMap st !! d_threadTs data = None →
       recordDeferred data r now st = st)
    ∧ (∀ ticketId existing,
         dr_ticketId r = Some ticketId →
         threadTicketMap st !! d_threadTs data = Some existing →
         ticketId ≠ ""
         ∧ threadTicketMap (recordDeferred data r now st) !! d_threadTs data
           = Some (upgradeDeferred existing ticketId
                     (JS.or_default (dr_ticketIdentifier r) ticketId)))
    ∧ (∀ before resultText after,
         Agent.failure query = None →
         Agent.messages query = before ++ Agent.result (Some resultText) :: after →
         noResultText after →
         let s := foldl Agent.deferredStep Agent.deferredStart before in
         r = if Agent.tellsNoAction resultText then
               {| dr_action := d_no_action; dr_ticketId := None;
                  dr_ticketIdentifier := None; dr_message := resultText |}
             else if (JS.truthy (Agent.d_capturedTicketId s)
                      || JS.truthy (Agent.d_capturedTicketIdentifier s))%bool then
               {| dr_action := d_created;
                  dr_ticketId := Agent.d_capturedTicketId s;
                  dr_ticketIdentifier := Agent.d_capturedTicketIdentifier s;
                  dr_message := resultText |}
             else
               {| dr_action := d_no_action; dr_ticketId := None;
                  dr_ticketIdentifier := None; dr_message := resultText |}).
Proof.
  assert (Hperf : ∀ r,
    try_catch (Agent.handleDeferredFollowup query)
      (λ e, {| dr_action := d_error; dr_ticketId := None;
               dr_ticketIdentifier := None; dr_message := e |}) = Returned r →
    perform (agentWorld query w) (handleDeferredFollowup input) = Returned r)
    by (intros r H; exact H).
  pose proof (deferred_fold_ok (Agent.messages query) _ deferredStart_ok) as Hok.
  unfold Agent.handleDeferredFollowup in Hperf.
  destruct (Agent.failure query) as [e|] eqn:Hf.
  - eexists. split; [by apply Hperf|]. repeat split; try done.
  - destruct Hok as (_ & _ & Hrid & Herr & Hskip).
    set (r := Agent.d_finalResult _) in *.
    exists r. split; [by apply Hperf|].
    split; [split; [done|intros; done]|].
    split; [intros [Ha|Ha]; [by apply Hskip|done]|].
    split; [|split].
    + intros Hnone. unfold recordDeferred.
      destruct (dr_action r), (dr_ticketId r) as [t|]; try done.
      destruct Hnone as [?| ->]; [done|]. by destruct (String.eqb t "").
    + intros ticketId existing Hsome Hex.
      assert (Hne : ticketId ≠ "").
      { destruct Hrid as [Hrid|Hrid]; [congruence|]. rewrite Hsome in Hrid.
        simpl in Hrid. apply eqb_empty_false. by destruct (String.eqb ticketId ""). }
      split; [done|]. unfold recordDeferred. rewrite Hsome, truthy_false_eqb, Hex by done.
      destruct (dr_action r) eqn:Ha; simpl; try (by rewrite lookup_insert_eq).
      * destruct (Hskip eq_refl). congruence.
      * done.
    + intros before resultText after _ Hm Hno s. unfold r.
      rewrite Hm, foldl_app. simpl. rewrite deferred_fold_noResult by done. done.
Qed.

Lemma command_fold_help l : ∀ start,
  noResultText l →
  (dcr_action (foldl Agent.commandStep start l) = c_help
   ↔ dcr_action start = c_help ∨ Exists isHelpMessage l)
  ∧ (dcr_action (foldl Agent.commandStep start l) ≠ c_help →
     foldl Agent.commandStep start l = start).
Proof.
  induction l as [|m l IH]; intros start Hno; simpl.
  - split; [|done]. split; [by left|]. intros [?|H]; [done|]. by inversion H.
  - inversion Hno as [|? ? Hm Hl]; subst.
    destruct (IH (Agent.commandStep start m) Hl) as [IH1 IH2].
    assert (Hstep : (dcr_action (Agent.commandStep start m) = c_help
                     ↔ dcr_action start = c_help ∨ isHelpMessage m)
                    ∧ (dcr_action (Agent.commandStep start m) ≠ c_help →
                       Agent.commandStep start m = start)).
    { destruct m as [text|[t|]|]; simpl.
      - destruct (Agent.isSynthetic text) eqn:Hs.
        + split; [|done]. split; [by left|]. intros [?|(t & Ht & ? & ?)]; [done|].
          inversion Ht; subst. congruence.
        + destruct (Agent.listsCommands text) eqn:Hl'; simpl.
          * split; [|done]. split; [|done]. intros _. right. by exists text.
          * split; [|done]. split; [by left|]. intros [?|(t & Ht & ? & ?)]; [done|].
            inversion Ht; subst. congruence.
      - by destruct (Hm t).
      - split; [|done]. split; [by left|]. by intros [?|(t & Ht & ? & ?)].
      - split; [|done]. split; [by left|]. by intros [?|(t & Ht & ? & ?)]. }
    destruct Hstep as [Hs1 Hs2]. split.
    + rewrite IH1, Hs1, Exists_cons. tauto.
    + intros Hne. rewrite IH2 by done. apply Hs2. rewrite IH2 in Hne; done.
Qed.

(** X23. The verdict of [handleDirectCommand]. The call always returns,
    with the action [error] exactly when the run failed. When the run
    ends with a result message with text, a text that asks back gives
    [clarification]; otherwise, if the loop had taken an assistant text
    as the list of the commands, the verdict stays [help] with that
    text; otherwise it is [executed] with the result text. Before any
    result message with text, the verdict is [help] exactly when some
    assistant message that is not synthetic lists the commands, and else
    it is [executed] with the message [Command processed]. *)
Theorem command_verdict query w input :
  ∃ r,
    perform (agentWorld query w) (handleDirectCommand input) = Returned r
    ∧ (Agent.failure query ≠ None ↔ dcr_action r = c_error)
    ∧ (∀ before resultText,
         Agent.failure query = None →
         Agent.messages query = before ++ [Agent.result (Some resultText)] →
         let sofar := foldl Agent.commandStep Agent.commandStart before in
         r = if Agent.asksBack resultText
             then {| dcr_action := c_clarification; dcr_message := resultText |}
             else match dcr_action sofar with
                  | c_help => sofar
                  | _ => {| dcr_action := c_executed; dcr_message := resultText |}
                  end)
    ∧ (Agent.failure query = None → noResultText (Agent.messages query) →
       (dcr_action r = c_help ↔ Exists isHelpMessage (Agent.messages query))
       ∧ (dcr_action r ≠ c_help → r = Agent.commandStart)).
Proof.
  assert (Hperf : ∀ r,
    try_catch (Agent.handleDirectCommand query)
      (λ e, {| dcr_action := c_error; dcr_message := e |}) = Returned r →
    perform (agentWorld query w) (handleDirectCommand input) = Returned r)
    by (intros r H; exact H).
  unfold Agent.handleDirectCommand in Hperf.
  destruct (Agent.failure query) as [e|] eqn:Hf.
  - eexists. split; [by apply Hperf|]. repeat split; try done.
  - set (r := foldl _ _ _) in *. exists r. split; [by apply Hperf|].
    assert (Herr : ∀ l start, dcr_action start ≠ c_error →
                              dcr_action (foldl Agent.commandStep start l) ≠ c_error).
    { induction l as [|m l IH]; intros start Hs; simpl; [done|]. apply IH.
      destruct m as [text|[t|]|]; simpl; repeat case_match; simpl; congruence. }
    split; [split; [done|]|].
    { intros Ha. by apply Herr in Ha. }
    split.
    + intros before resultText _ Hm sofar. unfold r. rewrite Hm, foldl_app. simpl.
      fold sofar. by destruct (Agent.asksBack resultText).
    + intros _ Hno. destruct (command_fold_help _ Agent.commandStart Hno) as [H1 H2].
      split; [|apply H2]. unfold r. rewrite H1. simpl.
      split; [intros [?|?]; done|by right].
Qed.

(** ** Message links *)

Lemma span_all p a b :
  Pattern.all p a = true →
  match b with String c _ => p c = false | EmptyString => True end →
  Pattern.span p (a +:+ b) = (a, b).
Proof.
  intros Ha Hb. induction a as [|c a IH]; simpl in *.
  - destruct b as [|c r]; [done|]. simpl. by rewrite Hb.
  - apply andb_true_iff in Ha as [Hc Ha]. by rewrite Hc, IH.
Qed.

Lemma remove_first_dot_digits a b :
  Pattern.all Pattern.isDigit a = true →
  JS.remove_first_dot (a +:+ "." +:+ b) = a +:+ b.
Proof.
  intros Ha. induction a as [|c a IH]; simpl in *; [done|].
  apply andb_true_iff in Ha as [Hc Ha]. rewrite IH by done.
  destruct (Ascii.eqb_spec c "."); [|done]. subst. done.
Qed.

Lemma takeS_app a b : Pattern.takeS (String.length a) (a +:+ b) = a.
Proof.
  induction a as [|c a IH]; simpl; [by destruct b|]. by rewrite IH.
Qed.

Lemma dropS_app a b : Pattern.dropS (String.length a) (a +:+ b) = b.
Proof. induction a as [|c a IH]; simpl; [by destruct b|]. done. Qed.

Lemma length_append (a b : string) :
  String.length (a +:+ b) = String.length a + String.length b.
Proof. induction a as [|c a IH]; simpl; [done|]. by rewrite IH. Qed.

Lemma all_append p a b :
  Pattern.all p a = true → Pattern.all p b = true → Pattern.all p (a +:+ b) = true.
Proof.
  intros Ha Hb. induction a as [|c a IH]; simpl in *; [done|].
  apply andb_true_iff in Ha as [Hc Ha]. by rewrite Hc, IH.
Qed.

Lemma firstMatch_here {A} (atStart : string → option A) s m :
  atStart s = Some m → Pattern.firstMatch atStart s = Some m.
Proof. intros H. destruct s; simpl; by rewrite H. Qed.

Lemma firstMatch_skip {A} (atStart : string → option A) c s :
  atStart (String c s) = None →
  Pattern.firstMatch atStart (String c s) = Pattern.firstMatch atStart s.
Proof. intros H. simpl. by rewrite H. Qed.

(** X24. The message links that the handlers build are read back by
    [parseSlackUrl]. For a channel id of letters and digits and a
    timestamp of seconds, a dot and six digits, the link of
    [processNewMessage], and the link of [processOrphanThreadHandler]
    with its query string, parse to that channel id and that timestamp,
    whenever the URL parser of the platform accepts the link; the thread
    to fetch is then the [thread_ts] of the query string when it has a
    value that is not empty, and the timestamp of the message
    otherwise. *)
Theorem slack_link_round_trip thread_ts_of channel seconds micros query value :
  channel ≠ "" → Pattern.all isChannelChar channel = true →
  seconds ≠ "" → Pattern.all Pattern.isDigit seconds = true →
  String.length micros = 6 → Pattern.all Pattern.isDigit micros = true →
  match query with String c _ => c = "?"%char | EmptyString => True end →
  let ts := seconds +:+ "." +:+ micros in
  let url :=
    "https://slack.com/archives/" +:+ channel +:+ "/p" +:+ JS.remove_first_dot ts
    +:+ query in
  thread_ts_of url = Some value →
  ∃ parsed,
    parseSlackUrl thread_ts_of url = Some parsed
    ∧ channelId parsed = channel
    ∧ messageTs parsed = ts
    ∧ threadTs parsed = (if JS.truthy value then value else None)
    ∧ forwardedThread parsed = JS.or_default value ts.
Proof.
  intros Hch Hch' Hs Hs' Hm Hm' Hq ts url Hparse.
  assert (Hraw : JS.remove_first_dot ts = seconds +:+ micros).
  { unfold ts. by apply remove_first_dot_digits. }
  assert (Hmatch : Pattern.firstMatch archivesAt url = Some (channel, seconds +:+ micros)).
  { unfold url. rewrite Hraw.
    change ("https://slack.com/archives/" +:+ channel +:+ "/p" +:+ (seconds +:+ micros)
            +:+ query)
      with ("https://slack.com"
            +:+ ("/archives/" +:+ channel +:+ "/p" +:+ (seconds +:+ micros) +:+ query)).
    assert (Hat : archivesAt ("/archives/" +:+ channel +:+ "/p" +:+ (seconds +:+ micros)
                              +:+ query)
                  = Some (channel, seconds +:+ micros)).
    { unfold archivesAt.
      change (Pattern.afterNoCase "/archives/"
                ("/archives/" +:+ channel +:+ "/p" +:+ (seconds +:+ micros) +:+ query))
        with (Some (channel +:+ "/p" +:+ (seconds +:+ micros) +:+ query)).
      cbv beta iota.
      rewrite (span_all isChannelChar channel) by done.
      rewrite truthy_false_eqb by done.
      change (Pattern.afterNoCase "/p" ("/p" +:+ (seconds +:+ micros) +:+ query))
        with (Some ((seconds +:+ micros) +:+ query)).
      cbv beta iota.
      rewrite (span_all Pattern.isDigit (seconds +:+ micros) query);
        [|by apply all_append|by destruct query as [|c r]; [|rewrite Hq]].
      rewrite truthy_false_eqb; [done|]. by destruct seconds. }
    revert Hat.
    generalize ("/archives/" +:+ channel +:+ "/p" +:+ (seconds +:+ micros) +:+ query).
    intros rest Hat.
    change ("https://slack.com" +:+ rest)
      with (String "h" (String "t" (String "t" (String "p" (String "s" (String ":"
             (String "/" (String "/" (String "s" (String "l" (String "a" (String "c"
             (String "k" (String "." (String "c" (String "o" (String "m"
                rest))))))))))))))))).
    repeat (rewrite firstMatch_skip by reflexivity). by apply firstMatch_here. }
  unfold parseSlackUrl. rewrite Hmatch, Hparse.
  assert (Hlen : String.length (seconds +:+ micros) - 6 = String.length seconds)
    by (rewrite length_append; lia).
  assert (Hlong : Nat.ltb 6 (String.length (seconds +:+ micros)) = true).
  { apply Nat.ltb_lt. rewrite length_append. destruct seconds; [done|]. simpl. lia. }
  rewrite Hlong, Hlen, takeS_app, dropS_app. eexists. split; [done|]. simpl.
  repeat split. unfold forwardedThread. simpl.
  destruct value as [v|]; [|done]. simpl.
  destruct (String.eqb v "") eqn:Hv; simpl; by rewrite ?Hv.
Qed.

Lemma slack_link_round_trip_witness :
  ∃ parsed,
    parseSlackUrl (λ _, Some (Some "1700000000.000100"))
      "https://slack.com/archives/C0FEEDBACK/p1700000200000100?thread_ts=1700000000.000100&cid=C0FEEDBACK"
    = Some parsed
    ∧ channelId parsed = "C0FEEDBACK"
    ∧ messageTs parsed = "1700000200.000100"
    ∧ forwardedThread parsed = "1700000000.000100".
Proof.
  destruct (slack_link_round_trip (λ _, Some (Some "1700000000.000100"))
              "C0FEEDBACK" "1700000200" "000100"
              "?thread_ts=1700000000.000100&cid=C0FEEDBACK" (Some "1700000000.000100"))
    as (parsed & Hp & Hc & Ht & _ & Hf);
    try reflexivity; try discriminate.
  exists parsed. split; [exact Hp|]. split; [exact Hc|]. split; [exact Ht|exact Hf].
Defined.

(** ** The tools of the agent *)

Lemma find_app_none {A} (p : A → bool) l x :
  List.find p l = None → List.find p (l ++ [x]) = (if p x then Some x else None).
Proof. induction l as [|y l IH]; simpl; [done|]. destruct (p y); [done|apply IH]. Qed.

Lemma existsb_eqb_false x (l : list string) :
  existsb (String.eqb x) l = false → x ∉ l.
Proof.
  induction l as [|y l IH]; simpl; [intros _ H; by apply elem_of_nil in H|].
  destruct (String.eqb_spec x y); [done|]. simpl. intros H Hin.
  apply elem_of_cons in Hin as [?|?]; [done|]. by apply IH.
Qed.

Lemma filter_other_ids id (l : list LinearTools.Label) :
  id ∉ map LinearTools.l_id l →
  List.filter (λ l', negb (String.eqb (LinearTools.l_id l') id)) l = l.
Proof.
  induction l as [|y l IH]; simpl; [done|]. intros Hin.
  apply not_elem_of_cons in Hin as [Hy Hl].
  destruct (String.eqb_spec (LinearTools.l_id y) id); [congruence|]. simpl.
  by rewrite IH.
Qed.

(** X25. What [linear_add_label] adds, [linear_remove_label] takes away.
    When the tool adds a label, the label is the first one of the team
    with the name asked for, compared without regard to case; it was not
    on the issue, and the ids sent to Linear are those of the issue
    followed by its id. On the issue with that label, the tool adds
    nothing a second time. If no label of the issue had that name before,
    removing the name from the issue with that label sends the ids the
    issue had before. *)
Theorem label_round_trip labels currentLabels labelName labelIds name :
  LinearTools.addLabel (Some labels) currentLabels labelName
  = LinearTools.LabelsUpdated labelIds name →
  ∃ targetLabel,
    List.find (λ l, LinearTools.sameName (LinearTools.l_name l) labelName) labels
    = Some targetLabel
    ∧ name = LinearTools.l_name targetLabel
    ∧ (LinearTools.l_id targetLabel ∉ map LinearTools.l_id currentLabels)
    ∧ labelIds = map LinearTools.l_id currentLabels ++ [LinearTools.l_id targetLabel]
    ∧ LinearTools.addLabel (Some labels) (currentLabels ++ [targetLabel]) labelName
      = LinearTools.AlreadyOnIssue
    ∧ (List.find (λ l, LinearTools.sameName (LinearTools.l_name l) labelName)
         currentLabels = None →
       LinearTools.removeLabel (currentLabels ++ [targetLabel]) labelName
       = LinearTools.LabelsUpdated (map LinearTools.l_id currentLabels) name).
Proof.
  unfold LinearTools.addLabel.
  destruct (List.find _ labels) as [target|] eqn:Hfind; [|done].
  destruct (existsb _ (map LinearTools.l_id currentLabels)) eqn:Hex; [done|].
  intros H. inversion H; subst. exists target.
  pose proof (existsb_eqb_false _ _ Hex) as Hnotin.
  split; [done|]. split; [done|]. split; [done|]. split; [done|]. split.
  - rewrite map_app, existsb_app. simpl. by rewrite String.eqb_refl, orb_true_r.
  - intros Hnone. unfold LinearTools.removeLabel.
    rewrite (find_app_none _ _ _ Hnone).
    apply List.find_some in Hfind as [_ Hname]. rewrite Hname. f_equal.
    rewrite List.filter_app. simpl. rewrite String.eqb_refl. simpl.
    rewrite app_nil_r. by rewrite filter_other_ids.
Qed.

Lemma label_round_trip_witness :
  LinearTools.removeLabel
    [ {| LinearTools.l_id := "l-1"; LinearTools.l_name := "Bug" |};
      {| LinearTools.l_id := "l-7"; LinearTools.l_name := "Feedback" |} ] "feedback"
  = LinearTools.LabelsUpdated ["l-1"] "Feedback".
Proof.
  destruct (label_round_trip
              [ {| LinearTools.l_id := "l-7"; LinearTools.l_name := "Feedback" |};
                {| LinearTools.l_id := "l-1"; LinearTools.l_name := "Bug" |} ]
              [ {| LinearTools.l_id := "l-1"; LinearTools.l_name := "Bug" |} ]
              "feedback" ["l-1"; "l-7"] "Feedback" eq_refl)
    as (target & Hfind & _ & _ & _ & _ & Hremove).
  inversion Hfind; subst. exact (Hremove eq_refl).
Defined.

Lemma setHeaders_union uploadHeaders : ∀ headerObj,
  LinearTools.setHeaders headerObj uploadHeaders
  = LinearTools.setHeaders ∅ uploadHeaders ∪ headerObj.
Proof.
  unfold LinearTools.setHeaders.
  induction uploadHeaders as [|h hs IH] using rev_ind; intros headerObj; simpl.
  - by rewrite (left_id_L ∅ (∪)).
  - rewrite !foldl_app. simpl. rewrite IH. by rewrite insert_union_l.
Qed.

(** X26. The two uploads to the CDN of Linear build their headers from the
    same parts in opposite orders. In [uploadImageToLinearCdn] a header of
    Linear replaces an own header of the same name; in the tool
    [upload_slack_image_to_linear] the own header replaces that of Linear.
    So the two agree on every header but [Content-Type] and
    [Cache-Control], the tool always sends its own values for these two,
    and the two uploads send the same headers exactly when Linear asks
    for no other value of these two. *)
Theorem upload_headers contentType uploadHeaders :
  let linear := LinearTools.setHeaders ∅ (default [] uploadHeaders) in
  LinearTools.cdnHeaders contentType uploadHeaders
  = linear ∪ LinearTools.ownHeaders contentType
  ∧ LinearTools.toolHeaders contentType uploadHeaders
    = LinearTools.ownHeaders contentType ∪ linear
  ∧ (∀ k, k ≠ "Content-Type" → k ≠ "Cache-Control" →
          LinearTools.cdnHeaders contentType uploadHeaders !! k
          = LinearTools.toolHeaders contentType uploadHeaders !! k)
  ∧ LinearTools.toolHeaders contentType uploadHeaders !! "Content-Type"
    = Some contentType
  ∧ LinearTools.toolHeaders contentType uploadHeaders !! "Cache-Control"
    = Some "public, max-age=31536000"
  ∧ (LinearTools.cdnHeaders contentType uploadHeaders
     = LinearTools.toolHeaders contentType uploadHeaders
     ↔ (∀ v, linear !! "Content-Type" = Some v → v = contentType)
       ∧ (∀ v, linear !! "Cache-Control" = Some v → v = "public, max-age=31536000")).
Proof.
  intros linear.
  assert (Hcdn : LinearTools.cdnHeaders contentType uploadHeaders
                 = linear ∪ LinearTools.ownHeaders contentType).
  { unfold LinearTools.cdnHeaders. apply setHeaders_union. }
  assert (Htool : LinearTools.toolHeaders contentType uploadHeaders
                  = LinearTools.ownHeaders contentType ∪ linear).
  { unfold LinearTools.toolHeaders, LinearTools.ownHeaders. fold linear.
    by rewrite <- !insert_union_l, (left_id_L ∅ (∪)). }
  assert (Hown : ∀ k, LinearTools.ownHeaders contentType !! k
                      = if String.eqb k "Cache-Control"
                        then Some "public, max-age=31536000"
                        else if String.eqb k "Content-Type" then Some contentType
                        else None).
  { intros k. unfold LinearTools.ownHeaders.
    destruct (String.eqb_spec k "Cache-Control") as [->|Hcc];
      [by rewrite lookup_insert_eq|].
    rewrite lookup_insert_ne by done.
    destruct (String.eqb_spec k "Content-Type") as [->|Hct];
      [by rewrite lookup_insert_eq|].
    by rewrite lookup_insert_ne. }
  split; [done|]. split; [done|]. rewrite Hcdn, Htool.
  split; [|split; [|split]].
  - intros k Hct Hcc. rewrite !lookup_union, Hown.
    destruct (String.eqb_spec k "Cache-Control"); [done|].
    destruct (String.eqb_spec k "Content-Type"); [done|].
    by destruct (linear !! k).
  - rewrite lookup_union, Hown. simpl. by destruct (linear !! "Content-Type").
  - rewrite lookup_union, Hown. simpl. by destruct (linear !! "Cache-Control").
  - split.
    + intros Heq. split; intros v Hv.
      * apply (f_equal (λ m, m !! "Content-Type")) in Heq.
        rewrite !lookup_union, Hown, Hv in Heq. simpl in Heq. by inversion Heq.
      * apply (f_equal (λ m, m !! "Cache-Control")) in Heq.
        rewrite !lookup_union, Hown, Hv in Heq. simpl in Heq. by inversion Heq.
    + intros [Hct Hcc]. apply map_eq. intros k. rewrite !lookup_union, Hown.
      destruct (String.eqb_spec k "Cache-Control") as [->|Hk1].
      * destruct (linear !! "Cache-Control") as [v|] eqn:Hv; [|done].
        by rewrite (Hcc v).
      * destruct (String.eqb_spec k "Content-Type") as [->|Hk2].
        -- destruct (linear !! "Content-Type") as [v|] eqn:Hv; [|done].
           by rewrite (Hct v).
        -- by destruct (linear !! k).
Qed.

(** X27. The tools each entry point may call. Every name in the
    [allowedTools] of an entry point is the qualified name of a tool of
    the server the entry point passes, so each allowed name can be
    called. The tool that uploads an image is served to the triage entry
    points and allowed to none. Only [handleDirectCommand] may call the
    tools that set the status, the labels, the assignee, the relations
    and the title of an issue; a new issue can be created from
    [triageMessage], [triageOrphanThreadReply], [handleDeferredFollowup]
    and [handleDirectCommand] only; and [handleMessageDelete] may call
    nothing but [linear_add_comment]. *)
Theorem tool_permissions e :
  (∀ name, name ∈ Mcp.allowedTools e →
           ∃ t, t ∈ snd (Mcp.server e) ∧ name = Mcp.qualified (fst (Mcp.server e)) t)
  ∧ length (Mcp.callable e) = length (Mcp.allowedTools e)
  ∧ (Mcp.uploadImageToLinear ∉ Mcp.callable e)
  ∧ (∀ t, t ∈ [Mcp.updateIssueStatus; Mcp.addLabel; Mcp.removeLabel; Mcp.assignIssue;
               Mcp.closeIssue; Mcp.reopenIssue; Mcp.linkIssues; Mcp.updateTitle] →
          t ∈ Mcp.callable e → e = Mcp.handleDirectCommand)
  ∧ (Mcp.createIssue ∈ Mcp.callable e →
     e ∈ [Mcp.triageMessage; Mcp.triageOrphanThreadReply; Mcp.handleDeferredFollowup;
          Mcp.handleDirectCommand])
  ∧ Mcp.callable Mcp.handleMessageDelete = [Mcp.addComment].
Proof.
  split; [|split; [|split; [|split; [|split]]]].
  - intros name Hin.
    assert (Hall : forallb (λ n, existsb (λ t, String.eqb n
                                            (Mcp.qualified (fst (Mcp.server e)) t))
                                   (snd (Mcp.server e)))
                     (Mcp.allowedTools e) = true) by (by destruct e).
    rewrite forallb_forall in Hall. apply list_elem_of_In in Hin.
    specialize (Hall name Hin). apply existsb_exists in Hall as (t & Ht & Heq).
    exists t. split; [by apply list_elem_of_In|]. by apply String.eqb_eq.
  - by destruct e.
  - intros Hin. apply (bool_decide_pack _) in Hin. by destruct e.
  - intros t Ht Hc. destruct e; try done; exfalso;
      apply (bool_decide_pack _) in Ht; apply (bool_decide_pack _) in Hc;
      by destruct t.
  - intros Hc. apply (bool_decide_unpack _). apply (bool_decide_pack _) in Hc.
    by destruct e.
  - reflexivity.
Qed.

(** ** The filter of the recovery scan *)

Lemma subtype_tests (sub : option string) :
  (negb (JS.strict_eq sub (Some "bot_message"))
   && negb (JS.truthy sub
            && bool_decide (default "" sub ∈ ["channel_join"; "channel_leave";
                                              "channel_topic"; "channel_purpose"]))
   && negb (JS.truthy sub && negb (JS.strict_eq sub (Some "file_share"))))%bool = true
  ↔ JS.truthy sub = false ∨ sub = Some "file_share".
Proof.
  destruct sub as [s|]; [|split; [by left|done]].
  destruct (String.eqb_spec s "") as [->|Hs]; [split; [by left|done]|].
  destruct (decide (s = "file_share")) as [->|Hfs]; [split; [by right|done]|].
  unfold JS.strict_eq. simpl. rewrite (truthy_false_eqb s) by done. simpl.
  rewrite (bool_decide_eq_false_2 (Some s = Some "file_share")) by congruence.
  simpl. rewrite !andb_false_r. split; [done|]. intros [?|?]; congruence.
Qed.

Lemma thread_test (th t : option string) :
  negb (JS.truthy th && negb (JS.strict_eq th t)) = true
  ↔ JS.truthy th = false ∨ th = t.
Proof.
  unfold JS.strict_eq. destruct (JS.truthy th); simpl; [|split; [by left|done]].
  destruct (bool_decide_reflect (th = t)); simpl; split; try done; try (by right).
  intros [?|?]; done.
Qed.

Lemma isProcessableMessage_tests msg :
  isProcessableMessage msg
  = (negb (JS.truthy (bot_id msg))
     && negb (JS.truthy (thread_ts msg) && negb (JS.strict_eq (thread_ts msg) (ts msg)))
     && (JS.truthy (text msg) || JS.nonempty (files msg) || JS.nonempty (attachments msg))
     && (negb (JS.strict_eq (subtype msg) (Some "bot_message"))
         && negb (JS.truthy (subtype msg)
                  && bool_decide (default "" (subtype msg)
                                  ∈ ["channel_join"; "channel_leave"; "channel_topic";
                                     "channel_purpose"]))
         && negb (JS.truthy (subtype msg)
                  && negb (JS.strict_eq (subtype msg) (Some "file_share")))))%bool.
Proof.
  unfold isProcessableMessage.
  destruct (JS.truthy (bot_id msg)); [done|].
  destruct (JS.strict_eq (subtype msg) (Some "bot_message")); simpl;
    [by rewrite andb_false_r|].
  destruct (JS.truthy (thread_ts msg) && negb (JS.strict_eq (thread_ts msg) (ts msg)))%bool;
    [done|]. simpl.
  destruct (JS.truthy (text msg) || JS.nonempty (files msg)
            || JS.nonempty (attachments msg))%bool; [|done]. simpl.
  destruct (JS.truthy (subtype msg)
            && bool_decide (default "" (subtype msg)
                            ∈ ["channel_join"; "channel_leave"; "channel_topic";
                               "channel_purpose"]))%bool; [done|]. simpl.
  by destruct (JS.truthy (subtype msg)
               && negb (JS.strict_eq (subtype msg) (Some "file_share")))%bool.
Qed.

(** Which events the message listener queues as replies in a thread. *)
Lemma classify_in_thread_inv cfg st msg item st' :
  classify cfg st msg = Some (item, st') →
  match item with
  | QThreadReply _ | QOrphanThread _ | QDeferredFollowup _ =>
      JS.truthy (thread_ts msg) = true ∧ thread_ts msg ≠ ts msg
  | _ => True
  end.
Proof.
  unfold classify. intros Hc.
  destruct (user msg) as [u|]; [|done]. destruct (ts msg) as [t|]; [|done].
  destruct (channel msg) as [c|]; [|done].
  repeat (match type of Hc with
          | (if ?b then _ else _) = _ => destruct b eqn:?; try discriminate
          end).
  - by inversion Hc.
  - destruct (thread_ts msg) as [root|].
    + destruct (String.eqb root "") eqn:Hr; simpl in Hc.
      * destruct (rememberMessage _ _); by inversion Hc.
      * destruct (String.eqb root t) eqn:Hrt; simpl in Hc.
        -- destruct (rememberMessage _ _); by inversion Hc.
        -- assert (JS.truthy (Some root) = true ∧ Some root ≠ Some t).
           { split; [simpl; by rewrite Hr|]. intros Heq. inversion Heq; subst.
             by rewrite String.eqb_refl in Hrt. }
           destruct (threadTicketMap st !! root) as [e|]; [destruct (t_isDeferred e)|];
             by inversion Hc.
    + destruct (rememberMessage _ _); by inversion Hc.
Qed.

(** X28. [isProcessableMessage] accepts exactly the messages that are not
    a bot's, are not replies in a thread, have content, and have no
    subtype or the subtype [file_share]: the tests for the subtype
    [bot_message] and for the four subtypes to skip reject nothing that
    the last test would accept. For an event that the live listener
    queues, the filter accepts it exactly when it is not a reply in a
    thread; so the recovery scan collects no message that the listener
    would queue as a thread reply, an orphan thread or a deferred
    follow-up, and it collects, to be queued as a new message, a
    top-level message that the listener would queue as a direct
    command. *)
Theorem recovery_filter msg :
  (isProcessableMessage msg = true
   ↔ JS.truthy (bot_id msg) = false
     ∧ (JS.truthy (thread_ts msg) = false ∨ thread_ts msg = ts msg)
     ∧ (JS.truthy (text msg) || JS.nonempty (files msg)
        || JS.nonempty (attachments msg))%bool = true
     ∧ (JS.truthy (subtype msg) = false ∨ subtype msg = Some "file_share"))
  ∧ (∀ cfg st item st',
       classify cfg st msg = Some (item, st') →
       (isProcessableMessage msg = true
        ↔ JS.truthy (thread_ts msg) = false ∨ thread_ts msg = ts msg)
       ∧ match item with
         | QThreadReply _ | QOrphanThread _ | QDeferredFollowup _ =>
             isProcessableMessage msg = false
         | QNew _ => isProcessableMessage msg = true
         | _ => True
         end).
Proof.
  assert (Hchar : isProcessableMessage msg = true
    ↔ JS.truthy (bot_id msg) = false
      ∧ (JS.truthy (thread_ts msg) = false ∨ thread_ts msg = ts msg)
      ∧ (JS.truthy (text msg) || JS.nonempty (files msg)
         || JS.nonempty (attachments msg))%bool = true
      ∧ (JS.truthy (subtype msg) = false ∨ subtype msg = Some "file_share")).
  { rewrite isProcessableMessage_tests. split.
    - intros H. apply andb_true_iff in H as [H Hd]. apply andb_true_iff in H as [H Hc].
      apply andb_true_iff in H as [Ha Hb]. apply subtype_tests in Hd.
      apply thread_test in Hb. apply negb_true_iff in Ha. done.
    - intros (Ha & Hb & Hc & Hd). apply subtype_tests in Hd. apply thread_test in Hb.
      by rewrite Ha, Hb, Hc, Hd. }
  split; [exact Hchar|].
  intros cfg st item st' Hc.
  destruct (classify_guards _ _ _ _ _ Hc)
    as (u & t & c & Hu & Ht & Hch & Hu' & Ht' & Hc' & Hmon & Hcontent & Hbot & Hsub).
  assert (Htop : isProcessableMessage msg = true
                 ↔ JS.truthy (thread_ts msg) = false ∨ thread_ts msg = ts msg).
  { rewrite Hchar. split; [tauto|]. intros Hth. repeat split; try done.
    revert Hcontent. destruct (JS.truthy (text msg)), (JS.nonempty (files msg)),
      (JS.nonempty (attachments msg)); done. }
  split; [exact Htop|].
  pose proof (classify_in_thread_inv _ _ _ _ _ Hc) as Hkind.
  destruct item as [d|d|d|d|d|d|d]; try done;
    try (apply not_true_is_false; rewrite Htop; destruct Hkind as [Hk1 Hk2];
         intros [?|?]; congruence).
  apply Htop. destruct (classify_new_inv _ _ _ _ _ Hc)
    as (u' & t' & c' & p' & Hacc & Hroot & _).
  destruct Hroot as [?|Hroot]; [by left|]. right. rewrite Hroot.
  by destruct Hacc.
Qed.

(** ** The ticket of a thread reply *)

Lemma withDrains_same s : withDrains (drains s) s = s.
Proof. by destruct s. Qed.

Lemma perform_upload w slackPrivateUrl filename contentType :
  ∃ r, perform w (uploadImageToLinearCdn slackPrivateUrl filename contentType)
       = Returned r.
Proof.
  simpl. unfold try_catch.
  destruct (linear_upload w slackPrivateUrl filename contentType); by eexists.
Qed.

(** The loop over the files, resumed once for each image: the handler has
    left the loop with what the uploads that succeeded have pushed, and
    nothing else of the state has changed. *)
Lemma settle_uploads cfg w i item {A} (pick : ImageUploadResult → A) files :
  ∀ uploaded k s,
    drains s !! i
    = Some {| current := item; pending := uploadLoop pick files uploaded k |} →
    run cfg s (replicate (length (List.filter isImage files)) (EvSettle i w))
    = Some (withDrains
              (<[i := {| current := item;
                         pending := k (uploaded ++ uploadedBy w pick files) |}]>
                 (drains s)) s).
Proof.
  unfold uploadedBy.
  induction files as [|file rest IH]; intros uploaded k s Hi; simpl.
  - rewrite app_nil_r, list_insert_id by done. by rewrite withDrains_same.
  - simpl in Hi. destruct (isImage file); [|by apply IH].
    simpl. rewrite Hi. unfold resume. cbn [pending current].
    destruct (perform_upload w (f_url_private file) (f_name file) (f_mimetype file))
      as [r Hr].
    rewrite Hr. erewrite IH.
    2: { simpl. apply list_lookup_insert_eq. by apply lookup_lt_Some in Hi. }
    simpl in Hr |- *. rewrite Hr, list_insert_insert_eq. destruct s; simpl.
    by destruct r as [r|]; rewrite <- ?app_assoc.
Qed.

(** The loop over the files, resumed [j] times: the handler awaits the
    upload of the image at position [j]. *)
Lemma settle_upload_at cfg w i item {A} (pick : ImageUploadResult → A) files :
  ∀ j file uploaded k s,
    List.filter isImage files !! j = Some file →
    drains s !! i
    = Some {| current := item; pending := uploadLoop pick files uploaded k |} →
    ∃ sj write next,
      run cfg s (replicate j (EvSettle i w)) = Some sj
      ∧ store sj = store s
      ∧ drains sj !! i
        = Some {| current := item;
                  pending := Await (uploadImageToLinearCdn (f_url_private file)
                                      (f_name file) (f_mimetype file)) write next |}.
Proof.
  induction files as [|file0 rest IH]; intros j file uploaded k s Hj Hi; [done|].
  simpl in Hj, Hi. destruct (isImage file0) eqn:Himage; [|by apply (IH j file uploaded k)].
  destruct j as [|j]; simpl in Hj.
  - inversion Hj; subst. by eexists s, _, _.
  - simpl. rewrite Hi. unfold resume. cbn [pending current].
    destruct (perform_upload w (f_url_private file0) (f_name file0) (f_mimetype file0))
      as [r Hr].
    rewrite Hr.
    set (pushed := match r with Some r0 => uploaded ++ [pick r0] | None => uploaded end).
    destruct (IH j file pushed k
                (withDrains
                   (<[i := {| current := item; pending := uploadLoop pick rest pushed k |}]>
                      (drains s))
                   (withStore (store s) s)) Hj)
      as (sj & write & next & Hrun & Hstore & Hd).
    { simpl. apply list_lookup_insert_eq. by apply lookup_lt_Some in Hi. }
    exists sj, write, next. split; [exact Hrun|]. split; [by rewrite Hstore|exact Hd].
Qed.

(** X29. The handler of a thread reply first uploads the images of the
    reply, one awaited upload for each file with an image type, in the
    order of the files, and only then asks Slack for the thread. When Slack has answered, the handler
    awaits [handleThreadReply] and has written nothing. The ticket it
    passes is the ticket of the first link in the thread, its identifier
    standing for the id as well, when the thread has a link with an
    identifier that is not empty; it is the ticket that the listener
    found in the thread table otherwise. The flags for a duplicate and
    for the same reporter are those of the listener in both cases, and
    the image URLs are those of the uploads that succeeded, in the order
    of the files. *)
Theorem thread_reply_ticket cfg data st0 s i w threadResult :
  drains s !! i
  = Some {| current := QThreadReply data;
            pending := processThreadReplyHandler cfg data st0 |} →
  slack_replies w (tr_channel data) (tr_threadTs data) 20 = Returned threadResult →
  ∃ s1 s' input,
    (∀ j file,
       List.filter isImage (default [] (tr_files data)) !! j = Some file →
       ∃ sj write next,
         run cfg s (replicate j (EvSettle i w)) = Some sj
         ∧ store sj = store s
         ∧ drains sj !! i
           = Some {| current := QThreadReply data;
                     pending := Await (uploadImageToLinearCdn (f_url_private file)
                                         (f_name file) (f_mimetype file))
                                  write next |})
    ∧ run cfg s
        (replicate (length (List.filter isImage (default [] (tr_files data))))
           (EvSettle i w)) = Some s1
    ∧ store s1 = store s
    ∧ (∃ write next,
         drains s1 !! i
         = Some {| current := QThreadReply data;
                   pending := Await (conversations_replies (tr_channel data)
                                       (tr_threadTs data) 20) write next |})
    ∧ step cfg s1 (EvSettle i w) = Some s'
    ∧ store s' = store s
    ∧ drains s' !! i
      = Some {| current := QThreadReply data;
                pending := Await (handleThreadReply input)
                             (λ _ _ st', st') (λ _ _ _, Ret) |}
    ∧ (tri_ticketId input, tri_ticketIdentifier input)
      = match extractTicketFromThread cfg (default [] threadResult) with
        | Some ticketIdentifier =>
            if String.eqb ticketIdentifier ""
            then (tr_ticketId data, tr_ticketIdentifier data)
            else (ticketIdentifier, ticketIdentifier)
        | None => (tr_ticketId data, tr_ticketIdentifier data)
        end
    ∧ tri_isDuplicate input = tr_isDuplicate data
    ∧ tri_isSameReporter input = tr_isSameReporter data
    ∧ tri_threadContext input = threadContextOf threadResult
    ∧ tri_imageUrls input = uploadedBy w iu_url (default [] (tr_files data)).
Proof.
  intros Hi Hreplies.
  pose proof (settle_uploads cfg w i _ iu_url _ [] _ s Hi) as Hrun.
  assert (Hlt : i < length (drains s)) by (by apply lookup_lt_Some in Hi).
  eexists _, _, _. split.
  { intros j file Hj.
    by apply (settle_upload_at cfg w i _ iu_url _ j file [] (threadReplyWith cfg data) s Hj). }
  split; [exact Hrun|]. split; [done|].
  split; [eexists _, _; simpl; by apply list_lookup_insert_eq|].
  split.
  { simpl. rewrite list_lookup_insert_eq by done. unfold resume. cbn [pending current].
    unfold threadReplyWith. cbn [perform]. rewrite Hreplies. done. }
  split; [done|]. split.
  { simpl. apply list_lookup_insert_eq. by rewrite length_insert. }
  simpl. split; [|done].
  destruct (extractTicketFromThread cfg (default [] threadResult)) as [t|]; [|done].
  simpl. by destruct (String.eqb t "").
Qed.

Lemma thread_reply_ticket_witness :
  ∃ s1 s' input,
    run sampleConfig sampleReplying [EvSettle 0 uploadingWorld] = Some s1
    ∧ step sampleConfig s1 (EvSettle 0 uploadingWorld) = Some s'
    ∧ drains s' !! 0
      = Some {| current := QThreadReply sampleReplyData;
                pending := Await (handleThreadReply input)
                             (λ _ _ st', st') (λ _ _ _, Ret) |}
    ∧ tri_ticketId input = "uuid-42"
    ∧ tri_imageUrls input = ["https://uploads.linear.app/files.slack.com/F01/login.png"].
Proof.
  destruct (thread_reply_ticket sampleConfig sampleReplyData emptyStore sampleReplying 0
              uploadingWorld None eq_refl eq_refl)
    as (s1 & s' & input & _ & Hrun & _ & _ & Hstep & _ & Hd & Hticket & _ & _ & _
        & Hurls).
  exists s1, s', input. split; [exact Hrun|]. split; [exact Hstep|].
  split; [exact Hd|]. split; [exact (f_equal fst Hticket)|exact Hurls].
Defined.

(** ** Forwarded messages *)

(** X30. What [processNewMessage] takes as the forwarded message. Only
    the first attachment counts, and only when it has a text; the
    forwarded message has that text and the author and the source URL of
    that attachment. It never carries both a thread context and an
    error. It carries a thread context only when the source URL parsed
    as a message link and Slack returned messages for the channel of the
    link and the thread of the link (the [thread_ts] of the link, or else
    its message): the context has one line for each message and is not
    empty. It carries an error only when the source URL parsed and that
    call failed, and then the error is the one of the call; the failure
    does not go further. *)
Theorem forwarded_context thread_ts_of replies msg_attachments :
  match forwardedMessageOf thread_ts_of replies msg_attachments with
  | None =>
      ∀ firstAttachment more,
        msg_attachments = Some (firstAttachment :: more) →
        JS.truthy (a_text firstAttachment) = false
  | Some forwarded =>
      ∃ firstAttachment more,
        msg_attachments = Some (firstAttachment :: more)
        ∧ a_text firstAttachment = Some (fw_text forwarded)
        ∧ fw_text forwarded ≠ ""
        ∧ fw_originalAuthorId forwarded = a_author_id firstAttachment
        ∧ fw_originalAuthorName forwarded = a_author_name firstAttachment
        ∧ fw_sourceUrl forwarded = a_from_url firstAttachment
        ∧ (fw_threadContext forwarded = None ∨ fw_threadContextError forwarded = None)
        ∧ (∀ context,
             fw_threadContext forwarded = Some context →
             ∃ url parsed first messages,
               a_from_url firstAttachment = Some url
               ∧ parseSlackUrl thread_ts_of url = Some parsed
               ∧ replies (channelId parsed) (forwardedThread parsed) 30
                 = Returned (Some (first :: messages))
               ∧ length context = S (length messages))
        ∧ (∀ errorMsg,
             fw_threadContextError forwarded = Some errorMsg →
             ∃ url parsed,
               a_from_url firstAttachment = Some url
               ∧ parseSlackUrl thread_ts_of url = Some parsed
               ∧ replies (channelId parsed) (forwardedThread parsed) 30
                 = Threw errorMsg)
  end.
Proof.
  unfold forwardedMessageOf, withThreadResult, forwardedFrom.
  destruct msg_attachments as [[|firstAttachment more]|]; try done.
  destruct (a_text firstAttachment) as [t|] eqn:Htext; simpl;
    [|intros ? ? Heq; inversion Heq; subst; by rewrite Htext].
  destruct (String.eqb_spec t "") as [->|Ht]; simpl;
    [intros ? ? Heq; inversion Heq; subst; by rewrite Htext|].
  destruct (a_from_url firstAttachment) as [url|] eqn:Hurl; simpl;
    [|exists firstAttachment, more; rewrite Htext, Hurl; simpl;
      repeat split; try done; by left].
  destruct (String.eqb url ""); simpl;
    [exists firstAttachment, more; rewrite Htext, Hurl; simpl;
     repeat split; try done; by left|].
  destruct (parseSlackUrl thread_ts_of url) as [parsed|] eqn:Hparse;
    [|exists firstAttachment, more; rewrite Htext, Hurl; simpl;
      repeat split; try done; by left].
  destruct (replies (channelId parsed) (forwardedThread parsed) 30)
    as [[[|first messages]|]|errorMsg] eqn:Hreplies; simpl;
    exists firstAttachment, more; rewrite Htext, Hurl; simpl.
  - repeat split; try done; by left.
  - repeat split; try done; [by right|].
    intros context Hc. inversion Hc; subst. exists url, parsed, first, messages.
    repeat split; try done. simpl. by rewrite length_map.
  - repeat split; try done; by left.
  - repeat split; try done; [by left|].
    intros e He. inversion He; subst. by exists url, parsed.
Qed.

(** The forwarded message that [processNewMessage] goes on with, at once
    or after its awaited call of [fetchThreadContext] has returned in the
    world [w], is the one [forwardedMessageOf] gives for the answers of
    [w]. *)
Lemma detectForwarded_forwarded cfg w msg_attachments k :
  detectForwarded cfg msg_attachments k
  = k (forwardedMessageOf (urlThreadTs cfg) (slack_replies w) msg_attachments)
  ∨ ∃ channelId threadTs next,
      detectForwarded cfg msg_attachments k
      = Await (fetch_thread_context channelId threadTs) (λ _ _ st, st) next
      ∧ perform w (fetch_thread_context channelId threadTs)
        = Returned (fetchThreadContext (slack_replies w channelId threadTs 30))
      ∧ ∀ now st,
          next (fetchThreadContext (slack_replies w channelId threadTs 30)) now st
          = k (forwardedMessageOf (urlThreadTs cfg) (slack_replies w) msg_attachments).
Proof.
  unfold detectForwarded, forwardedMessageOf.
  repeat case_match; try (by left).
  right. eexists _, _, _. by repeat split.
Qed.
